(** * EchoPath: the continuous narrative generation pipeline

    A shallow embedding of the story service of the repository (the module
    that exports [calculateTotalSegments], [generateStoryOutline],
    [generateSegment] and [generateSegmentAudio]) together with the part of
    the JavaScript runtime these functions rely on: strings as sequences of
    UTF-16 code units, exceptions, [JSON.parse], the regular expression
    [/\[.*\]/s], binary64 arithmetic and the Web Audio [createBuffer].
    With it come the key handling of the build configuration, the click
    handler of the route planner and the place labels of the map. *)

From Stdlib Require Import String Ascii DecimalString SpecFloat.
From Stdlib Require Import ZArith NArith QArith Qround Qabs Qpower Bool Lia Lqa List.
Import ListNotations.

Local Close Scope Q_scope.
Local Open Scope list_scope.
Set Warnings "-register-all".

(* ================================================================== *)
(** ** JavaScript strings *)
(* ================================================================== *)

Module JS.

(** A string is a sequence of UTF-16 code units; [length] and [slice] count
    code units, exactly as in the language. *)
Definition jschar := N.
Definition jsstring := list jschar.

(** The code units of an ASCII literal. *)
Definition lit (s : string) : jsstring :=
  map N_of_ascii (list_ascii_of_string s).

(** A line of a template literal: the text and the line feed closing it. *)
Definition LF : jschar := 10%N.
Definition DQUOTE : jschar := 34%N.
Definition line (s : string) : jsstring := lit s ++ [LF].

Definition jschar_eqb : jschar -> jschar -> bool := N.eqb.

Fixpoint jsstring_eqb (a b : jsstring) : bool :=
  match a, b with
  | [], [] => true
  | x :: a', y :: b' => jschar_eqb x y && jsstring_eqb a' b'
  | _, _ => false
  end.

(** [String.prototype.trim] strips WhiteSpace and LineTerminator code
    points: TAB, LF, VT, FF, CR, SP, NBSP, the Unicode space separators,
    LS, PS and the byte order mark. *)
Definition is_trim_space (c : jschar) : bool :=
  match c with
  | 9 | 10 | 11 | 12 | 13 | 32 | 160 | 5760 | 8232 | 8233 | 8239 | 8287
  | 12288 | 65279 => true
  | _ => (8192 <=? c) && (c <=? 8202)
  end%N.

Fixpoint trimStart (s : jsstring) : jsstring :=
  match s with
  | c :: s' => if is_trim_space c then trimStart s' else s
  | [] => []
  end.

Definition trimEnd (s : jsstring) : jsstring := rev (trimStart (rev s)).

Definition trim (s : jsstring) : jsstring := trimEnd (trimStart s).

(** [s.slice(-n)]: the start index is [max (length s - n) 0], the end is the
    end of the string. *)
Definition slice_last (n : nat) (s : jsstring) : jsstring :=
  skipn (length s - n) s.

(** [Array.prototype.slice(0, n)] on a list. *)
Definition slice_first {A} (n : nat) (l : list A) : list A := firstn n l.

(** Decimal rendering of a non-negative integer below 2^53, as [`${n}`]
    gives it: every such integer is a number of the language and is
    printed with all its digits.  Greater numbers, which the engine prints
    with the fewest digits that read back to them and in exponent form
    from 10^21 on, are outside what this function stands for; the counts,
    indices and statuses rendered with it are far below. *)
Definition toString_nat (n : nat) : jsstring :=
  lit (NilZero.string_of_uint (Nat.to_uint n)).

End JS.
Import JS.

(* ================================================================== *)
(** ** Style Instruction Resolver *)
(* ================================================================== *)

(** Modelled from the spec: the declaration of [StoryStyle] lives in the
    types module, which is not part of the sources at hand; the data model
    enumerates NOIR, CHILDREN, HISTORICAL, FANTASY and DEFAULT.  At run time
    a style is the string naming the variant. *)
Inductive StoryStyle := NOIR | CHILDREN | HISTORICAL | FANTASY | DEFAULT.

Definition style_tag (s : StoryStyle) : jsstring :=
  match s with
  | NOIR => lit "NOIR"
  | CHILDREN => lit "CHILDREN"
  | HISTORICAL => lit "HISTORICAL"
  | FANTASY => lit "FANTASY"
  | DEFAULT => lit "DEFAULT"
  end.

Definition NOIR_INSTRUCTION : jsstring :=
  lit "Style: Noir Thriller. Gritty, cynical, atmospheric. Use inner monologue. The traveler is a detective or someone with a troubled past. The city is a character itself"
  ++ [226; 8364; 8221]%N
  ++ lit "dark, rainy, hiding secrets. Use metaphors of shadows, smoke, and cold neon.".

Definition CHILDREN_INSTRUCTION : jsstring :=
  lit "Style: Children's Story. Whimsical, magical, full of wonder and gentle humor. The world is bright and alive; maybe inanimate objects (like traffic lights or trees) have slight personalities. Simple but evocative language. A sense of delightful discovery.".

Definition HISTORICAL_INSTRUCTION : jsstring :=
  lit "Style: Historical Epic. Grandiose, dramatic, and timeless. Treat the journey as a significant pilgrimage or quest in a bygone era (even though it's modern day, overlay it with historical grandeur). Use slightly archaic but understandable language. Focus on endurance, destiny, and the weight of history.".

Definition FANTASY_INSTRUCTION : jsstring :=
  lit "Style: Fantasy Adventure. Heroic, mystical, and epic. The real world is just a veil over a magical realm. Streets are ancient paths, buildings are towers or ruins. The traveler is on a vital quest. Use metaphors of magic, mythical creatures (shadows might be lurking beasts), and destiny.".

Definition DEFAULT_INSTRUCTION : jsstring :=
  lit "Style: Immersive, 'in the moment' narration. Focus on the sensation of movement and the immediate environment.".

(** The [switch] compares the run-time value with [===]; the argument is
    whatever string the caller passes. *)
Definition getStyleInstruction (style : jsstring) : jsstring :=
  if jsstring_eqb style (lit "NOIR") then NOIR_INSTRUCTION
  else if jsstring_eqb style (lit "CHILDREN") then CHILDREN_INSTRUCTION
  else if jsstring_eqb style (lit "HISTORICAL") then HISTORICAL_INSTRUCTION
  else if jsstring_eqb style (lit "FANTASY") then FANTASY_INSTRUCTION
  else DEFAULT_INSTRUCTION.

(* ================================================================== *)
(** ** Exceptions *)
(* ================================================================== *)

Inductive error_kind :=
| KError | KTypeError | KSyntaxError | KRangeError
| KNotSupportedError | KIndexSizeError.

Record JSError := mkError { err_kind : error_kind; err_message : jsstring }.

(** The result of evaluating code that may throw; an awaited promise that
    rejects is a [Throw] at the [await]. *)
Inductive outcome (A : Type) : Type :=
| Return (a : A)
| Throw (e : JSError).
Arguments Return {A} a.
Arguments Throw {A} e.

Definition bind {A B} (c : outcome A) (k : A -> outcome B) : outcome B :=
  match c with
  | Return a => k a
  | Throw e => Throw e
  end.

Notation "x <- c ;; k" := (bind c (fun x => k))
  (at level 61, c at next level, right associativity).

(** [try { body } catch (error) { handler }] *)
Definition try_catch {A} (body : outcome A) (handler : JSError -> outcome A)
  : outcome A :=
  match body with
  | Return a => Return a
  | Throw e => handler e
  end.

(* ================================================================== *)
(** ** JSON values and [JSON.parse] *)
(* ================================================================== *)

(** A number keeps the text of its literal: nothing below looks at the
    value of a number, only at the fact that it is one.  The members of an
    object are kept in the order of the text. *)
Inductive JSON :=
| JNull
| JBool (b : bool)
| JNumber (literal : jsstring)
| JString (s : jsstring)
| JArray (items : list JSON)
| JObject (members : list (jsstring * JSON)).

(** A JavaScript value read out of a response: [None] is [undefined]. *)
Definition value := option JSON.
Definition undefined : value := None.

Definition is_JString (j : JSON) : bool :=
  match j with JString _ => true | _ => false end.

Module JSONParser.

(** [JSON.parse] as the pushdown automaton of the JSON grammar, reading one
    code unit at a time.  The stack holds the containers that are open. *)
Inductive frame :=
| InArray (items : list JSON)
| InObject (members : list (jsstring * JSON)) (key : option jsstring).

Inductive escape :=
| NoEscape
| AfterBackslash
| Hex (digits_left : nat) (acc : N).

Inductive numstate :=
| NMinus | NZero | NInt | NDot | NFrac | NExp | NExpSign | NExpDigits.

Inductive control :=
| ExpectValue
| ExpectValueOrClose
| ExpectKeyOrClose
| ExpectKey
| ExpectColon
| ExpectCommaOrClose
| Finished (v : JSON)
| InString (is_key : bool) (acc : jsstring) (esc : escape)
| InNumber (ns : numstate) (acc : jsstring)
| InLiteral (rest : jsstring) (v : JSON).

Record machine := mkMachine { stack : list frame; ctl : control }.

Definition is_json_ws (c : jschar) : bool :=
  match c with 9 | 10 | 13 | 32 => true | _ => false end%N.

Definition is_digit (c : jschar) : bool := ((48 <=? c) && (c <=? 57))%N.
Definition is_digit19 (c : jschar) : bool := ((49 <=? c) && (c <=? 57))%N.

Definition hex_value (c : jschar) : option N :=
  if is_digit c then Some (c - 48)%N
  else if ((65 <=? c) && (c <=? 70))%N then Some (c - 55)%N
  else if ((97 <=? c) && (c <=? 102))%N then Some (c - 87)%N
  else None.

(** A member read for an object: a name the object has already keeps its
    place and takes the new value, a new name goes to the end.  The
    members are in the order in which their names first occur in the
    text. *)
Fixpoint set_member (k : jsstring) (v : JSON) (ms : list (jsstring * JSON))
  : list (jsstring * JSON) :=
  match ms with
  | [] => [(k, v)]
  | (k', v') :: ms' =>
      if jsstring_eqb k' k then (k', v) :: ms'
      else (k', v') :: set_member k v ms'
  end.

(** A complete value goes to the container on top of the stack, or is the
    result when no container is open.  The items of an open array are
    held last first, the members of an open object in their order. *)
Definition deliver (v : JSON) (st : list frame) : option machine :=
  match st with
  | [] => Some (mkMachine [] (Finished v))
  | InArray items :: st' =>
      Some (mkMachine (InArray (v :: items) :: st') ExpectCommaOrClose)
  | InObject ms (Some k) :: st' =>
      Some (mkMachine (InObject (set_member k v ms) None :: st') ExpectCommaOrClose)
  | InObject _ None :: _ => None
  end.

Definition start_value (c : jschar) (st : list frame) : option machine :=
  match c with
  | 34 => Some (mkMachine st (InString false [] NoEscape))
  | 91 => Some (mkMachine (InArray [] :: st) ExpectValueOrClose)
  | 123 => Some (mkMachine (InObject [] None :: st) ExpectKeyOrClose)
  | 45 => Some (mkMachine st (InNumber NMinus [c]))
  | 48 => Some (mkMachine st (InNumber NZero [c]))
  | 116 => Some (mkMachine st (InLiteral (lit "rue") (JBool true)))
  | 102 => Some (mkMachine st (InLiteral (lit "alse") (JBool false)))
  | 110 => Some (mkMachine st (InLiteral (lit "ull") JNull))
  | _ => if is_digit19 c then Some (mkMachine st (InNumber NInt [c])) else None
  end%N.

Definition close_container (st : list frame) : option machine :=
  match st with
  | InArray items :: st' => deliver (JArray (rev items)) st'
  | InObject ms None :: st' => deliver (JObject ms) st'
  | _ => None
  end.

(** Between tokens. *)
Definition step_plain (m : machine) (c : jschar) : option machine :=
  if is_json_ws c then Some m
  else
    match ctl m, stack m with
    | ExpectValue, st => start_value c st
    | ExpectValueOrClose, (InArray _ :: _) as st =>
        if (c =? 93)%N then close_container st else start_value c st
    | ExpectKeyOrClose, (InObject _ None :: _) as st =>
        if (c =? 125)%N then close_container st
        else if (c =? 34)%N then Some (mkMachine st (InString true [] NoEscape))
        else None
    | ExpectKey, st =>
        if (c =? 34)%N then Some (mkMachine st (InString true [] NoEscape))
        else None
    | ExpectColon, st =>
        if (c =? 58)%N then Some (mkMachine st ExpectValue) else None
    | ExpectCommaOrClose, (InArray _ :: _) as st =>
        if (c =? 44)%N then Some (mkMachine st ExpectValue)
        else if (c =? 93)%N then close_container st
        else None
    | ExpectCommaOrClose, (InObject _ None :: _) as st =>
        if (c =? 44)%N then Some (mkMachine st ExpectKey)
        else if (c =? 125)%N then close_container st
        else None
    | _, _ => None
    end.

Definition end_string (is_key : bool) (s : jsstring) (st : list frame)
  : option machine :=
  if is_key then
    match st with
    | InObject ms None :: st' =>
        Some (mkMachine (InObject ms (Some s) :: st') ExpectColon)
    | _ => None
    end
  else deliver (JString s) st.

Definition step_string (is_key : bool) (acc : jsstring) (esc : escape)
  (st : list frame) (c : jschar) : option machine :=
  match esc with
  | NoEscape =>
      if (c =? 34)%N then end_string is_key (rev acc) st
      else if (c =? 92)%N then Some (mkMachine st (InString is_key acc AfterBackslash))
      else if (c <? 32)%N then None
      else Some (mkMachine st (InString is_key (c :: acc) NoEscape))
  | AfterBackslash =>
      let plain u := Some (mkMachine st (InString is_key (u :: acc) NoEscape)) in
      match c with
      | 34 => plain 34 | 92 => plain 92 | 47 => plain 47
      | 98 => plain 8 | 102 => plain 12 | 110 => plain 10
      | 114 => plain 13 | 116 => plain 9
      | 117 => Some (mkMachine st (InString is_key acc (Hex 4 0)))
      | _ => None
      end%N
  | Hex n v =>
      match hex_value c with
      | Some d =>
          let v' := (16 * v + d)%N in
          match n with
          | S (S n') => Some (mkMachine st (InString is_key acc (Hex (S n') v')))
          | _ => Some (mkMachine st (InString is_key (v' :: acc) NoEscape))
          end
      | None => None
      end
  end.

Definition num_next (ns : numstate) (c : jschar) : option numstate :=
  let is_e := ((c =? 101) || (c =? 69))%N in
  match ns with
  | NMinus => if (c =? 48)%N then Some NZero
              else if is_digit19 c then Some NInt else None
  | NZero => if (c =? 46)%N then Some NDot else if is_e then Some NExp else None
  | NInt => if is_digit c then Some NInt
            else if (c =? 46)%N then Some NDot
            else if is_e then Some NExp else None
  | NDot => if is_digit c then Some NFrac else None
  | NFrac => if is_digit c then Some NFrac else if is_e then Some NExp else None
  | NExp => if ((c =? 43) || (c =? 45))%N then Some NExpSign
            else if is_digit c then Some NExpDigits else None
  | NExpSign => if is_digit c then Some NExpDigits else None
  | NExpDigits => if is_digit c then Some NExpDigits else None
  end.

Definition num_complete (ns : numstate) : bool :=
  match ns with NZero | NInt | NFrac | NExpDigits => true | _ => false end.

Definition step (m : machine) (c : jschar) : option machine :=
  match ctl m with
  | InString k acc esc => step_string k acc esc (stack m) c
  | InNumber ns acc =>
      match num_next ns c with
      | Some ns' => Some (mkMachine (stack m) (InNumber ns' (c :: acc)))
      | None =>
          if num_complete ns then
            match deliver (JNumber (rev acc)) (stack m) with
            | Some m' => step_plain m' c
            | None => None
            end
          else None
      end
  | InLiteral rest v =>
      match rest with
      | r :: rest' =>
          if (c =? r)%N then
            match rest' with
            | [] => deliver v (stack m)
            | _ => Some (mkMachine (stack m) (InLiteral rest' v))
            end
          else None
      | [] => None
      end
  | _ => step_plain m c
  end.

(** At the end of the text. *)
Definition finish (m : machine) : option JSON :=
  match ctl m, stack m with
  | Finished v, [] => Some v
  | InNumber ns acc, [] =>
      if num_complete ns then Some (JNumber (rev acc)) else None
  | _, _ => None
  end.

Fixpoint run (m : machine) (s : jsstring) : option JSON :=
  match s with
  | [] => finish m
  | c :: s' =>
      match step m c with
      | Some m' => run m' s'
      | None => None
      end
  end.

Definition parse (s : jsstring) : option JSON := run (mkMachine [] ExpectValue) s.

End JSONParser.

Definition SyntaxError : JSError :=
  mkError KSyntaxError (lit "Unexpected token in JSON").

Definition JSON_parse (s : jsstring) : outcome JSON :=
  match JSONParser.parse s with
  | Some v => Return v
  | None => Throw SyntaxError
  end.

(* ================================================================== *)
(** ** The regular expression [/\[.*\]/s] *)
(* ================================================================== *)

Module RegExp.

Definition LBRACKET : jschar := 91%N.
Definition RBRACKET : jschar := 93%N.

(** [.*\]] at the head of [s]: with the [s] flag the dot takes every code
    unit, the star is greedy and gives back one unit at a time, so the
    match is the longest prefix of [s] that ends in a closing bracket. *)
Fixpoint dotstar_close (s : jsstring) : option jsstring :=
  match s with
  | [] => None
  | c :: s' =>
      match dotstar_close s' with
      | Some p => Some (c :: p)
      | None => if jschar_eqb c RBRACKET then Some [c] else None
      end
  end.

(** The whole pattern anchored at the head of [s]. *)
Definition match_here (s : jsstring) : option jsstring :=
  match s with
  | c :: s' =>
      if jschar_eqb c LBRACKET then option_map (cons c) (dotstar_close s')
      else None
  | [] => None
  end.

(** [text.match(/\[.*\]/s)]: the match at the leftmost position that has
    one; the result is element 0 of the match array, [None] is [null]. *)
Fixpoint match_bracketed (s : jsstring) : option jsstring :=
  match match_here s with
  | Some m => Some m
  | None =>
      match s with
      | [] => None
      | _ :: s' => match_bracketed s'
      end
  end.

End RegExp.

(* ================================================================== *)
(** ** Numbers: IEEE 754 binary64 *)
(* ================================================================== *)

Module Binary64.

Definition prec : Z := 53.
Definition emax : Z := 1024.

(** A JavaScript number, in the representation of the standard library's
    specification of floating-point arithmetic. *)
Definition number := spec_float.

Definition mul : number -> number -> number := SFmul prec emax.
Definition div : number -> number -> number := SFdiv prec emax.

(** The number nearest to an integer (exact below 2^53). *)
Definition of_Z (z : Z) : number := binary_normalize prec emax z 0 false.
Definition of_nat (n : nat) : number := of_Z (Z.of_nat n).

Definition zero : number := S754_zero false.

(** The rational a finite number denotes. *)
Definition to_Q (x : number) : option Q :=
  match x with
  | S754_zero _ => Some 0%Q
  | S754_finite s m e =>
      Some ((if s then -1 else 1) * inject_Z (Zpos m) * (2 # 1) ^ e)%Q
  | _ => None
  end.

(** [Math.floor] and [Math.ceil]: a number with a non-negative exponent is
    an integer already; the others are below 2^53 in magnitude, where every
    integer is a number. *)
Definition round_to_integer (f : Q -> Z) (x : number) : number :=
  match x with
  | S754_finite s m e =>
      if (0 <=? e)%Z then x
      else
        match to_Q x with
        | Some q => binary_normalize prec emax (f q) 0 s
        | None => x
        end
  | _ => x
  end.

Definition Math_floor : number -> number := round_to_integer Qfloor.
Definition Math_ceil : number -> number := round_to_integer Qceiling.

(** [Math.max(a, b)] *)
Definition Math_max (a b : number) : number :=
  match SFcompare a b with
  | None => S754_nan
  | Some Lt => b
  | Some _ => a
  end.

(** The integer an integer-valued number denotes; 0 for the others. *)
Definition to_integer (x : number) : Z :=
  match to_Q x with
  | Some q => if Qeq_bool (inject_Z (Qfloor q)) q then Qfloor q else 0
  | None => 0
  end.

(** Conversion to the Web IDL type [unsigned long]: NaN and the infinities
    give 0, the others are truncated and reduced modulo 2^32. *)
Definition to_unsigned_long (x : number) : Z :=
  match to_Q x with
  | Some q => (if Qle_bool 0 q then Qfloor q else Qceiling q) mod 2 ^ 32
  | None => 0
  end.

(** The literal [0.08]: the number nearest to 8/100. *)
Definition lit_0_08 : number := S754_finite false 5764607523034235 (-56).

End Binary64.

(* ================================================================== *)
(** ** Web Audio *)
(* ================================================================== *)

Record AudioBuffer := mkAudioBuffer {
  numberOfChannels : Z;
  frames : Z;
  sampleRate : Z;
  channelData : list (list Binary64.number)
}.

Definition NotSupportedError : JSError :=
  mkError KNotSupportedError (lit "createBuffer: argument outside its nominal range").

Definition IndexSizeError : JSError :=
  mkError KIndexSizeError (lit "getChannelData: channel index out of range").

(** [BaseAudioContext.createBuffer(numberOfChannels, length, sampleRate)]:
    [length] is an [unsigned long]; a NotSupportedError is thrown when an
    argument is zero or outside its nominal range (at least 1..32 channels,
    at least one frame, 8000..96000 Hz); the new buffer holds silence. *)
Definition createBuffer (channels : Z) (length : Binary64.number) (rate : Z)
  : outcome AudioBuffer :=
  let n := Binary64.to_unsigned_long length in
  if ((1 <=? channels) && (channels <=? 32) && (1 <=? n)
      && (8000 <=? rate) && (rate <=? 96000))%Z
  then Return (mkAudioBuffer channels n rate
                 (repeat (repeat Binary64.zero (Z.to_nat n)) (Z.to_nat channels)))
  else Throw NotSupportedError.

(** [channelData[i] = v] on a typed array: a write past the end is ignored. *)
Fixpoint typed_array_set {A} (i : nat) (v : A) (data : list A) : list A :=
  match data, i with
  | [], _ => []
  | _ :: data', O => v :: data'
  | x :: data', S i' => x :: typed_array_set i' v data'
  end.

(** [getChannelData(c)] is a view on the samples of the buffer: the writes
    through it are writes to the buffer. *)
Definition getChannelData (b : AudioBuffer) (c : nat)
  : outcome (list Binary64.number) :=
  match nth_error (channelData b) c with
  | Some d => Return d
  | None => Throw IndexSizeError
  end.

Definition setChannelData (b : AudioBuffer) (c : nat) (d : list Binary64.number)
  : AudioBuffer :=
  mkAudioBuffer (numberOfChannels b) (frames b) (sampleRate b)
    (typed_array_set c d (channelData b)).

(* ================================================================== *)
(** ** The chat-completion collaborator *)
(* ================================================================== *)

Record ChatMessage := mkMessage { role : jsstring; content : jsstring }.

Record CompletionBody := mkBody {
  model : jsstring;
  messages : list ChatMessage;
  temperature : Q;
  max_tokens : Z
}.

Record FetchInit := mkInit {
  method : jsstring;
  headers : list (jsstring * jsstring);
  body : CompletionBody
}.

(** What [fetch] resolves to; [json] is the outcome of [response.json()]. *)
Record Response := mkResponse {
  ok : bool;
  status : nat;
  statusText : jsstring;
  json : outcome JSON
}.

(** The environment of the module: the key read from the process
    environment and the network. *)
Record Environment := mkEnvironment {
  RAW_API_KEY : option jsstring;
  fetch : jsstring -> FetchInit -> outcome Response
}.

Definition TypeError (msg : string) : JSError := mkError KTypeError (lit msg).
Definition Error (msg : jsstring) : JSError := mkError KError msg.

(** The member of that name.  [JSON.parse] delivers objects that name each
    member once; in a list that names one twice the last one is the
    member, as it is the one an object built from the list would keep. *)
Fixpoint lookup (name : jsstring) (ms : list (jsstring * JSON)) : value :=
  match ms with
  | [] => undefined
  | (k, v) :: ms' =>
      match lookup name ms' with
      | Some v' => Some v'
      | None => if jsstring_eqb k name then Some v else undefined
      end
  end.

(** [v.name] for one of the names read below (choices, message, content),
    none of which is a property of a primitive wrapper or of an array. *)
Definition get_member (v : value) (name : jsstring) : outcome value :=
  match v with
  | None | Some JNull => Throw (TypeError "Cannot read properties of undefined or null")
  | Some (JObject ms) => Return (lookup name ms)
  | Some _ => Return undefined
  end.

(** [v[0]] *)
Definition get_first (v : value) : outcome value :=
  match v with
  | None | Some JNull => Throw (TypeError "Cannot read properties of undefined or null")
  | Some (JArray items) => Return (hd_error items)
  | Some (JString s) =>
      Return (match s with c :: _ => Some (JString [c]) | [] => undefined end)
  | Some (JObject ms) => Return (lookup (lit "0") ms)
  | Some _ => Return undefined
  end.

(** [response?.trim()]: [undefined] for [undefined] and [null], the trimmed
    string for a string; any other value has no method [trim]. *)
Definition optional_trim (response : value) : outcome (option jsstring) :=
  match response with
  | None | Some JNull => Return None
  | Some (JString s) => Return (Some (trim s))
  | Some _ => Throw (TypeError "response.trim is not a function")
  end.

(** [!text] *)
Definition falsy (text : option jsstring) : bool :=
  match text with
  | None | Some [] => true
  | Some (_ :: _) => false
  end.

(* ================================================================== *)
(** ** The story service *)
(* ================================================================== *)

(** Modelled from the spec: [RouteDetails] is declared in the types module,
    which is not part of the sources at hand; the fields are those the form
    component fills in when a route is found, the travel mode being one of
    the two modes of that form. *)
Inductive TravelMode := WALKING | DRIVING.

Record RouteDetails := mkRoute {
  startAddress : jsstring;
  endAddress : jsstring;
  distance : jsstring;
  duration : jsstring;
  durationSeconds : Q;
  travelMode : TravelMode;
  voiceName : jsstring;
  storyStyle : jsstring
}.

(** [route.travelMode.toLowerCase()] *)
Definition toLowerCase_mode (m : TravelMode) : jsstring :=
  match m with
  | WALKING => lit "walking"
  | DRIVING => lit "driving"
  end.

Record StorySegment := mkSegment {
  index : nat;
  text : jsstring;
  audioBuffer : option AudioBuffer
}.

Definition HACKCLUB_API_URL : jsstring :=
  lit "https://ai.hackclub.com/proxy/v1/chat/completions".

Definition TARGET_SEGMENT_DURATION_SEC : nat := 60.
Definition WORDS_PER_MINUTE : nat := 145.

(** [Math.round] on an exact value. *)
Definition Math_round (q : Q) : Z := Qfloor (q + (1 # 2))%Q.

Definition WORDS_PER_SEGMENT : nat :=
  Z.to_nat (Math_round
    ((inject_Z (Z.of_nat TARGET_SEGMENT_DURATION_SEC) / 60)
       * inject_Z (Z.of_nat WORDS_PER_MINUTE))%Q).

(** Modelled from the spec: [segmentCount(D) == max(1, ceil(D/60))], in
    exact arithmetic on the duration in seconds.  It is the value the
    result of the code is compared with. *)
Definition segmentCount (durationSeconds : Q) : Z :=
  Z.max 1
    (Qceiling (durationSeconds / inject_Z (Z.of_nat TARGET_SEGMENT_DURATION_SEC))%Q).

(** The sizing calculator:
    [Math.max(1, Math.ceil(durationSeconds / TARGET_SEGMENT_DURATION_SEC))],
    evaluated in binary64 as the engine does, the division rounded. *)
Definition calculateTotalSegments (durationSeconds : Binary64.number)
  : Binary64.number :=
  Binary64.Math_max (Binary64.of_Z 1)
    (Binary64.Math_ceil
       (Binary64.div durationSeconds (Binary64.of_nat TARGET_SEGMENT_DURATION_SEC))).

Definition DEFAULT_MODEL : jsstring := lit "qwen/qwen3-32b".

Definition OUTLINE_PADDING : jsstring :=
  lit "Continue the journey towards the destination.".

Definition OUTLINE_FALLBACK : jsstring :=
  lit "Continue the immersive narrative of the journey.".

Definition user_message (prompt : jsstring) : ChatMessage :=
  mkMessage (lit "user") prompt.

Section Service.

Variable env : Environment.

(** The key with quotes removed and trimmed; empty when there is none. *)
Definition API_KEY : jsstring :=
  match RAW_API_KEY env with
  | Some ((_ :: _) as raw) =>
      trim (filter (fun c => negb ((c =? 34) || (c =? 39))%N) raw)
  | _ => []
  end.

(** The second argument of [fetch]; the body is the object handed to
    [JSON.stringify]. *)
Definition completion_request (msgs : list ChatMessage) (mdl : jsstring)
  : FetchInit :=
  mkInit (lit "POST")
    [(lit "Authorization", lit "Bearer " ++ API_KEY);
     (lit "Content-Type", lit "application/json")]
    (mkBody mdl msgs 1 2000).

Definition makeHackClubRequest (msgs : list ChatMessage) (mdl : jsstring)
  : outcome value :=
  response <- fetch env HACKCLUB_API_URL (completion_request msgs mdl) ;;
  if negb (ok response) then
    Throw (Error (lit "Hack Club API error: " ++ toString_nat (status response)
                    ++ lit " " ++ statusText response))
  else
    data <- json response ;;
    choices <- get_member (Some data) (lit "choices") ;;
    choice <- get_first choices ;;
    message <- get_member choice (lit "message") ;;
    get_member message (lit "content").

Definition outlinePrompt (route : RouteDetails) (totalSegments : nat) : jsstring :=
  let styleInstruction := getStyleInstruction (storyStyle route) in
  concat [
    [LF];
    lit "    You are an expert storyteller. Write an outline for a story that is exactly "; toString_nat totalSegments; lit " chapters long and has a complete cohesive story arc with a clear set up, inciting incident, rising action, climax, success, falling action, and resolution. "; [LF];
    [LF];
    lit "    Your outline should be tailored to match this journey:"; [LF];
    [LF];
    lit "    Journey: "; startAddress route; lit " to "; endAddress route; lit " by "; toLowerCase_mode (travelMode route); lit "."; [LF];
    lit "    Total Duration: Approx "; duration route; lit "."; [LF];
    lit "    Total Narrative Segments needed: "; toString_nat totalSegments; lit "."; [LF];
    lit "    "; [LF];
    lit "    "; styleInstruction; [LF];
    [LF];
    lit "    Output strictly valid JSON: An array of "; toString_nat totalSegments; lit " strings. Example: ["; [DQUOTE]; lit "Chapter 1 summary..."; [DQUOTE]; lit ", "; [DQUOTE]; lit "Chapter 2 summary..."; [DQUOTE]; lit ", ...]"; [LF];
    lit "    "
  ].

(** The text handed to [JSON.parse]: the match of the pattern when there is
    one, the whole text otherwise. *)
Definition jsonString (text : jsstring) : jsstring :=
  match RegExp.match_bracketed text with
  | Some m => m
  | None => text
  end.

(** An array holds at most 2^32 - 1 elements. *)
Definition MAX_ARRAY_LENGTH : Z := 4294967295.

Definition RangeError : JSError :=
  mkError KRangeError (lit "Invalid array length").

(** [a.push(v)]: the push that would take the length of the array past
    2^32 - 1 throws a RangeError. *)
Definition Array_push {A} (a : list A) (v : A) : outcome (list A) :=
  if (Z.of_nat (length a) <? MAX_ARRAY_LENGTH)%Z then Return (a ++ [v])
  else Throw RangeError.

(** [while (outline.length < totalSegments) outline.push(...)], one
    iteration for each unit of fuel. *)
Fixpoint pad_loop (fuel : nat) (totalSegments : nat) (outline : list JSON)
  : outcome (list JSON) :=
  match fuel with
  | O => Return outline
  | S fuel' =>
      if length outline <? totalSegments
      then outline' <- Array_push outline (JString OUTLINE_PADDING) ;;
           pad_loop fuel' totalSegments outline'
      else Return outline
  end.

(** The loop leaves, or throws, after at most [totalSegments] pushes. *)
Definition pad_outline (totalSegments : nat) (outline : list JSON)
  : outcome (list JSON) :=
  pad_loop totalSegments totalSegments outline.

(** [Array(n).fill(v)]: [Array(n)] throws a RangeError for a length above
    2^32 - 1. *)
Definition Array_fill {A} (n : nat) (v : A) : outcome (list A) :=
  if (Z.of_nat n <=? MAX_ARRAY_LENGTH)%Z then Return (repeat v n)
  else Throw RangeError.

(** The body of the [try] block of [generateStoryOutline]. *)
Definition outline_attempt (route : RouteDetails) (totalSegments : nat)
  : outcome (list JSON) :=
  response <- makeHackClubRequest
                [user_message (outlinePrompt route totalSegments)] DEFAULT_MODEL ;;
  text <- optional_trim response ;;
  match text with
  | None | Some [] => Throw (Error (lit "No outline generated."))
  | Some text =>
      outline <- JSON_parse (jsonString text) ;;
      match outline with
      | JArray ((_ :: _) as items) =>
          padded <- pad_outline totalSegments items ;;
          Return (slice_first totalSegments padded)
      | _ => Throw (Error (lit "Invalid outline format received."))
      end
  end.

Definition generateStoryOutline (route : RouteDetails) (totalSegments : nat)
  : outcome (list JSON) :=
  try_catch (outline_attempt route totalSegments)
    (fun _ => Array_fill totalSegments (JString OUTLINE_FALLBACK)).

(** The context block of a segment prompt; empty for the first segment. *)
Definition contextPrompt (segmentIndex : nat) (previousContext : jsstring)
  : jsstring :=
  let isFirst := segmentIndex =? 1 in
  if negb isFirst then
    concat [
      [LF];
      lit "      PREVIOUS NARRATIVE CONTEXT (The story so far):"; [LF];
      lit "      ..."; slice_last 1500 previousContext; lit " "; [LF];
      lit "      (CONTINUE SEAMLESSLY from the above. Do not repeat it. Do not start with "; [DQUOTE]; lit "And so..."; [DQUOTE]; lit " or similar connectors every time.)"; [LF];
      lit "      "
    ]
  else [].

Definition segmentPrompt (route : RouteDetails) (segmentIndex : nat)
  (totalSegmentsEstimate : nat) (segmentOutline : jsstring)
  (previousContext : jsstring) : jsstring :=
  let contextPrompt := contextPrompt segmentIndex previousContext in
  let styleInstruction := getStyleInstruction (storyStyle route) in
  concat [
    [LF];
    lit "    You are an AI storytelling engine generating a continuous, immersive audio stream for a traveler."; [LF];
    lit "    Journey: "; startAddress route; lit " to "; endAddress route; lit " by "; toLowerCase_mode (travelMode route); lit "."; [LF];
    lit "    Current Status: Segment "; toString_nat segmentIndex; lit " of approx "; toString_nat totalSegmentsEstimate; lit "."; [LF];
    lit "    "; [LF];
    lit "    "; styleInstruction; [LF];
    [LF];
    lit "    CURRENT CHAPTER GOAL: "; segmentOutline; [LF];
    [LF];
    lit "    "; contextPrompt; [LF];
    [LF];
    lit "    Task: Write the next ~"; toString_nat TARGET_SEGMENT_DURATION_SEC; lit " seconds of narration (approx "; toString_nat WORDS_PER_SEGMENT; lit " words) based on the Current Chapter Goal."; [LF];
    lit "    Keep the narrative moving forward. This is a transient segment of a longer journey."; [LF];
    [LF];
    lit "    IMPORTANT: Output ONLY the raw narration text for this segment. Do not include titles, chapter headings, or JSON. Just the text to be spoken."; [LF];
    lit "  "
  ].

(** The body of the [try] block of [generateSegment]. *)
Definition segment_attempt (segmentIndex : nat) (prompt : jsstring)
  : outcome StorySegment :=
  response <- makeHackClubRequest [user_message prompt] DEFAULT_MODEL ;;
  text <- optional_trim response ;;
  match text with
  | None | Some [] => Throw (Error (lit "No text generated for segment."))
  | Some text => Return (mkSegment segmentIndex text None)
  end.

(** [previousContext] is the optional last argument, [""] when left out. *)
Definition generateSegment (route : RouteDetails) (segmentIndex : nat)
  (totalSegmentsEstimate : nat) (segmentOutline : jsstring)
  (previousContext : option jsstring) : outcome StorySegment :=
  let previousContext :=
    match previousContext with Some s => s | None => [] end in
  let prompt := segmentPrompt route segmentIndex totalSegmentsEstimate
                  segmentOutline previousContext in
  try_catch (segment_attempt segmentIndex prompt) (fun error => Throw error).

End Service.

(** [for (let i = 0; i < length; i++) channelData[i] = 0] *)
Definition fill_silence (length : Binary64.number)
  (channel : list Binary64.number) : list Binary64.number :=
  fold_left (fun data i => typed_array_set i Binary64.zero data)
    (seq 0 (Z.to_nat (Binary64.to_integer length))) channel.

(** The synthesis stand-in.  The audio context only serves [createBuffer];
    the voice is not used. *)
Definition generateSegmentAudio (text : jsstring) (voiceName : jsstring)
  : outcome AudioBuffer :=
  try_catch
    (let sampleRate := 24000%Z in
     let duration :=
       Binary64.mul (Binary64.of_nat (length text)) Binary64.lit_0_08 in
     let length :=
       Binary64.Math_floor (Binary64.mul (Binary64.of_Z sampleRate) duration) in
     audioBuffer <- createBuffer 1 length sampleRate ;;
     channel <- getChannelData audioBuffer 0 ;;
     Return (setChannelData audioBuffer 0 (fill_silence length channel)))
    (fun error => Throw error).

(* ================================================================== *)
(** ** Observations and sample collaborators *)
(* ================================================================== *)

(** The instruction bound to each variant of the enumeration. *)
Definition instruction_of (s : StoryStyle) : jsstring :=
  match s with
  | NOIR => NOIR_INSTRUCTION
  | CHILDREN => CHILDREN_INSTRUCTION
  | HISTORICAL => HISTORICAL_INSTRUCTION
  | FANTASY => FANTASY_INSTRUCTION
  | DEFAULT => DEFAULT_INSTRUCTION
  end.

(** The reply of the completion collaborator to the outline request. *)
Definition outline_reply (env : Environment) (route : RouteDetails)
  (totalSegments : nat) : outcome value :=
  makeHackClubRequest env
    [user_message (outlinePrompt route totalSegments)] DEFAULT_MODEL.

(** The reply of the completion collaborator to a segment request. *)
Definition segment_reply (env : Environment) (route : RouteDetails)
  (segmentIndex totalSegmentsEstimate : nat) (segmentOutline : jsstring)
  (previousContext : jsstring) : outcome value :=
  makeHackClubRequest env
    [user_message (segmentPrompt route segmentIndex totalSegmentsEstimate
                     segmentOutline previousContext)] DEFAULT_MODEL.

(** A reply that carries no text: [undefined], [null], or a string that is
    empty once trimmed. *)
Definition no_text (v : value) : Prop :=
  v = undefined \/ v = Some JNull \/ exists s, v = Some (JString s) /\ trim s = [].

(** A reply that is neither nullish nor a string. *)
Definition not_a_string (v : value) : Prop :=
  match v with
  | Some (JBool _) | Some (JNumber _) | Some (JArray _) | Some (JObject _) => True
  | _ => False
  end.

(** What [JSON.parse] makes of the text of a reply. *)
Definition parsed_reply (v : value) : option (outcome JSON) :=
  match v with
  | Some (JString s) =>
      match trim s with
      | [] => None
      | t => Some (JSON_parse (jsonString t))
      end
  | _ => None
  end.

(** Modelled from the spec: the array-looking substring that starts at the
    first opening bracket of the text and ends at the closing bracket that
    matches it, counting the brackets opened in between. *)
Fixpoint up_to_matching_close (depth : nat) (s : jsstring) : option jsstring :=
  match s with
  | [] => None
  | c :: s' =>
      if jschar_eqb c RegExp.RBRACKET then
        match depth with
        | O => Some [c]
        | S d => option_map (cons c) (up_to_matching_close d s')
        end
      else if jschar_eqb c RegExp.LBRACKET then
        option_map (cons c) (up_to_matching_close (S depth) s')
      else option_map (cons c) (up_to_matching_close depth s')
  end.

Fixpoint first_matching_array (s : jsstring) : option jsstring :=
  match s with
  | [] => None
  | c :: s' =>
      if jschar_eqb c RegExp.LBRACKET
      then option_map (cons c) (up_to_matching_close 0 s')
      else first_matching_array s'
  end.

(** A completion service that answers every request with [content]. *)
Definition completion_of (content : value) : JSON :=
  JObject [(lit "choices",
            JArray [JObject [(lit "message",
                              JObject (match content with
                                       | Some c => [(lit "content", c)]
                                       | None => []
                                       end))]])].

Definition answering (content : value) : Environment :=
  mkEnvironment (Some (lit "sk-test"))
    (fun _ _ => Return (mkResponse true 200 (lit "OK") (Return (completion_of content)))).

Definition saying (content : jsstring) : Environment :=
  answering (Some (JString content)).

(** A network that is down. *)
Definition offline : Environment :=
  mkEnvironment None (fun _ _ => Throw (TypeError "Failed to fetch")).

Definition sample_route : RouteDetails :=
  mkRoute (lit "Old Town") (lit "Harbour") (lit "2.4 km") (lit "31min")
    1850 WALKING (lit "Kore") (lit "FANTASY").

(** The cap on the duration of a route, in seconds. *)
Definition DURATION_CAP : Z := 14400.




(* ================================================================== *)
(** ** Notions used by the proofs *)
(* ================================================================== *)

(** What right shifts by a total of [log2 P] places leave of [m0]: the
    quotient, and the place of the remainder with respect to the half, as
    the round and sticky bits record it. *)
Definition shifted (m0 : Z) (P : Z) (mrs : shr_record) : Prop :=
  (0 <= shr_m mrs
   /\ exists rem,
        m0 = shr_m mrs * P + rem
        /\ 0 <= rem < P
        /\ (shr_r mrs = true <-> P <= 2 * rem)
        /\ (shr_s mrs = true <-> rem <> 0 /\ 2 * rem <> P))%Z.

(** The value of a positive finite number. *)
Definition value_of (m : positive) (e : Z) : Q :=
  (inject_Z (Zpos m) * (2 # 1) ^ e)%Q.

(** Half a unit in the last place, relative to the value: 2^-53. *)
Definition ulp_rel : Q := 1 # 9007199254740992.

(** The frame count [generateSegmentAudio] asks the buffer for. *)
Definition requested_frames (text : jsstring) : Binary64.number :=
  Binary64.Math_floor
    (Binary64.mul (Binary64.of_Z 24000)
       (Binary64.mul (Binary64.of_nat (length text)) Binary64.lit_0_08)).

(** Powers of two as atoms, for linear arithmetic. *)
Ltac atom_pow :=
  repeat match goal with
         | |- context [Z.pow 2 ?b] =>
             let x := fresh "pw" in
             set (x := Z.pow 2 b) in *; clearbody x
         | H : context [Z.pow 2 ?b] |- _ =>
             let x := fresh "pw" in
             set (x := Z.pow 2 b) in *; clearbody x
         end.


(* ================================================================== *)
(** ** The build configuration, the route planner and the map *)
(* ================================================================== *)

(** A string that neither begins nor ends with a code unit [trim] strips. *)
Definition trimmed (s : jsstring) : Prop :=
  (forall c t, s = c :: t -> is_trim_space c = false)
  /\ (forall c t, s = t ++ [c] -> is_trim_space c = false).

(** [sub] occurs in [s] as a run of consecutive code units. *)
Definition substring_of (sub s : jsstring) : Prop :=
  exists pre post, s = pre ++ sub ++ post.

(** The request an outline generation sends to the completion service. *)
Definition outline_request (env : Environment) (route : RouteDetails)
  (totalSegments : nat) : FetchInit :=
  completion_request env
    [user_message (outlinePrompt route totalSegments)] DEFAULT_MODEL.

(** ** [JSON.stringify] on strings and arrays of strings *)

Module JSONWriter.

Definition is_leading_surrogate (c : jschar) : bool :=
  ((55296 <=? c) && (c <=? 56319))%N.
Definition is_trailing_surrogate (c : jschar) : bool :=
  ((56320 <=? c) && (c <=? 57343))%N.

(** A lowercase hexadecimal digit. *)
Definition hex_digit (d : N) : jschar :=
  if (d <? 10)%N then (48 + d)%N else (87 + d)%N.

(** [UnicodeEscape]: backslash, u and the four hexadecimal digits of the
    code unit. *)
Definition UnicodeEscape (c : jschar) : jsstring :=
  [92; 117; hex_digit ((c / 4096) mod 16); hex_digit ((c / 256) mod 16);
   hex_digit ((c / 16) mod 16); hex_digit (c mod 16)]%N.

(** One code point that is a single code unit, as [QuoteJSONString] writes
    it: the two-character escapes of the table, a Unicode escape for the
    other control characters and for a surrogate, the unit itself
    otherwise. *)
Definition quote_unit (c : jschar) : jsstring :=
  if (c =? 8)%N then [92; 98]%N
  else if (c =? 9)%N then [92; 116]%N
  else if (c =? 10)%N then [92; 110]%N
  else if (c =? 12)%N then [92; 102]%N
  else if (c =? 13)%N then [92; 114]%N
  else if (c =? 34)%N then [92; 34]%N
  else if (c =? 92)%N then [92; 92]%N
  else if ((c <? 32)%N || is_leading_surrogate c || is_trailing_surrogate c)
       then UnicodeEscape c
  else [c].

(** The code points of the string in turn: a leading surrogate followed by
    a trailing one is one code point and is written as it is. *)
Fixpoint quote_units (s : jsstring) : jsstring :=
  match s with
  | [] => []
  | c :: s' =>
      match s' with
      | d :: s'' =>
          if is_leading_surrogate c && is_trailing_surrogate d
          then c :: d :: quote_units s''
          else quote_unit c ++ quote_units s'
      | [] => quote_unit c
      end
  end.

Definition QuoteJSONString (s : jsstring) : jsstring :=
  DQUOTE :: quote_units s ++ [DQUOTE].

(** The elements of an array, each after a comma but the first. *)
Fixpoint elements (items : list jsstring) : jsstring :=
  match items with
  | [] => []
  | [s] => QuoteJSONString s
  | s :: items' => QuoteJSONString s ++ 44%N :: elements items'
  end.

End JSONWriter.

(** [JSON.stringify(s)] for a string [s]. *)
Definition JSON_stringify_string (s : jsstring) : jsstring :=
  JSONWriter.QuoteJSONString s.

(** [JSON.stringify(a)] for an array [a] of strings. *)
Definition JSON_stringify_strings (items : list jsstring) : jsstring :=
  RegExp.LBRACKET :: JSONWriter.elements items ++ [RegExp.RBRACKET].

(** ** The build configuration *)

(** [s.startsWith(prefix)] *)
Fixpoint startsWith (s prefix : jsstring) {struct prefix} : bool :=
  match prefix, s with
  | [], _ => true
  | p :: prefix', c :: s' => jschar_eqb c p && startsWith s' prefix'
  | _ :: _, [] => false
  end.

(** [s.includes(sub)]: [sub] occurs at some position of [s]. *)
Fixpoint includes (s sub : jsstring) : bool :=
  startsWith s sub
  || match s with
     | [] => false
     | _ :: s' => includes s' sub
     end.

Definition KEY_PLACEHOLDER : jsstring := lit "YOUR_API_KEY".

(** The helper of the build configuration that cleans a key read from the
    environment. *)
Definition cleanKey (key : option jsstring) : option jsstring :=
  if falsy key then None
  else
    match key with
    | Some key =>
        let k := trim key in
        if jsstring_eqb k [] || includes k KEY_PLACEHOLDER then None
        else Some k
    | None => None
    end.

(** [loadEnv(mode, '.', '').HACKCLUB_API_KEY].  [loadEnv] belongs to the
    build tool: it reads the environment files and then copies over them
    every variable of the process environment whose name starts with the
    prefix, here the empty one.  So the value is the one of the process
    environment whenever the variable is set there, an empty or unusable
    value included, and the one of the environment files only when it is
    not. *)
Definition loadEnv_HACKCLUB_API_KEY (process_env_key dotenv_key : option jsstring)
  : option jsstring :=
  match process_env_key with
  | Some v => Some v
  | None => dotenv_key
  end.

(** [cleanKey(process.env.HACKCLUB_API_KEY) || cleanKey(env.HACKCLUB_API_KEY)],
    with [env = loadEnv(mode, '.', '')]. *)
Definition hackclubApiKey (process_env_key dotenv_key : option jsstring)
  : option jsstring :=
  let env_key := loadEnv_HACKCLUB_API_KEY process_env_key dotenv_key in
  let first := cleanKey process_env_key in
  if falsy first then cleanKey env_key else first.

(** The text the build puts in place of [process.env.HACKCLUB_API_KEY]:
    [hackclubApiKey ? JSON.stringify(hackclubApiKey) : 'undefined']. *)
Definition define_HACKCLUB_API_KEY (key : option jsstring) : jsstring :=
  if falsy key then lit "undefined"
  else
    match key with
    | Some k => JSON_stringify_string k
    | None => lit "undefined"
    end.

(** The value of that text where the service reads it: the identifier
    [undefined], or a string literal in the notation of JSON, which is a
    string literal of the language with the same value. *)
Definition defined_value (text : jsstring) : option jsstring :=
  if jsstring_eqb text (lit "undefined") then None
  else
    match JSON_parse text with
    | Return (JString s) => Some s
    | _ => None
    end.

(** The environment of the service in a bundle built with the variable of
    the process environment and the one of the environment files as
    given. *)
Definition bundled (process_env_key dotenv_key : option jsstring)
  (network : jsstring -> FetchInit -> outcome Response) : Environment :=
  mkEnvironment
    (defined_value (define_HACKCLUB_API_KEY
                      (hackclubApiKey process_env_key dotenv_key)))
    network.

(** ** More operations on numbers *)

(** A number of the language: the mantissa and the exponent of a finite
    one are the canonical ones of binary64. *)
Definition is_number (x : Binary64.number) : bool :=
  valid_binary Binary64.prec Binary64.emax x.

(** [a > b] *)
Definition Binary64_gt (a b : Binary64.number) : bool := SFltb b a.

(** [n % d]: the remainder of the division truncated towards zero, with
    the sign of the dividend; it is a number without any rounding. *)
Definition Binary64_rem (n d : Binary64.number) : Binary64.number :=
  match n, d with
  | S754_nan, _ | _, S754_nan => S754_nan
  | S754_infinity _, _ => S754_nan
  | _, S754_zero _ => S754_nan
  | S754_zero _, _ => n
  | S754_finite _ _ _, S754_infinity _ => n
  | S754_finite sn mn en, S754_finite _ md ed =>
      let e := Z.min en ed in
      let r := ((Zpos mn * 2 ^ (en - e)) mod (Zpos md * 2 ^ (ed - e)))%Z in
      binary_normalize Binary64.prec Binary64.emax
        (if sn then (- r)%Z else r) e sn
  end.

(** ** The route planner *)

Module OSRM.

(** A route of the routing service.  The planner reads two of its
    members, numbers by the schema of the service: the duration in seconds
    and the distance in metres. *)
Record route := mk { duration : Binary64.number; distance : Binary64.number }.

End OSRM.

Module Planner.

(** What [geocodeAddress] resolves to when it finds the place. *)
Record Coordinates := mkCoordinates {
  lat : Binary64.number;
  lon : Binary64.number;
  display_name : jsstring
}.

(** The object handed to [onRouteFound]. *)
Record Found := mkFound {
  startAddress : jsstring;
  endAddress : jsstring;
  distance : jsstring;
  duration : jsstring;
  durationSeconds : Binary64.number;
  travelMode : TravelMode;
  voiceName : jsstring;
  storyStyle : jsstring
}.

(** What the handler does to the component and to its parent, in the
    order in which it does it. *)
Inductive effect :=
| setError (message : option jsstring)
| setIsLoading (loading : bool)
| onRouteFound (details : Found).

(** The collaborators of the handler: the two lookups, each of which
    resolves to [null] on any failure of its own; whether the callback of
    the parent throws; and the two renderings of a number the handler
    uses, [`${n}`] and [n.toFixed(1)]. *)
Record World := mkWorld {
  geocodeAddress : jsstring -> option Coordinates;
  calculateRoute : Coordinates -> Coordinates -> TravelMode -> option OSRM.route;
  onRouteFound_throws : Found -> option JSError;
  Number_toString : Binary64.number -> jsstring;
  toFixed_1 : Binary64.number -> jsstring
}.

(** [input || typed] on strings, the first of which may be missing. *)
Definition or_typed (input : option jsstring) (typed : jsstring) : jsstring :=
  match input with
  | Some ((_ :: _) as value) => value
  | _ => typed
  end.

Definition is_empty (s : jsstring) : bool :=
  match s with [] => true | _ :: _ => false end.

Definition MISSING_LOCATION : jsstring :=
  lit "Please enter both a start and end location.".
Definition LOCATION_NOT_FOUND : jsstring :=
  lit "Could not find one or both locations. Please check the addresses and try again.".
Definition NO_ROUTE : jsstring :=
  lit "Could not calculate route between these locations. Please try different locations.".
Definition TOO_LONG : jsstring :=
  lit "Sorry, this journey is too long. Please select a route under 4 hours.".
Definition FAILED : jsstring :=
  lit "Failed to calculate route. Please try again.".

(** [Math.floor(duration / 3600)] *)
Definition hours_of (duration : Binary64.number) : Binary64.number :=
  Binary64.Math_floor (Binary64.div duration (Binary64.of_Z 3600)).

(** [Math.floor((duration % 3600) / 60)] *)
Definition minutes_of (duration : Binary64.number) : Binary64.number :=
  Binary64.Math_floor
    (Binary64.div (Binary64_rem duration (Binary64.of_Z 3600)) (Binary64.of_Z 60)).

(** [hours > 0 ? `${hours}h ${minutes}min` : `${minutes}min`] *)
Definition durationText (w : World) (duration : Binary64.number) : jsstring :=
  let hours := hours_of duration in
  let minutes := minutes_of duration in
  if Binary64_gt hours Binary64.zero
  then Number_toString w hours ++ lit "h " ++ Number_toString w minutes ++ lit "min"
  else Number_toString w minutes ++ lit "min".

(** [`${(distance / 1000).toFixed(1)} km`] *)
Definition distanceText (w : World) (distance : Binary64.number) : jsstring :=
  toFixed_1 w (Binary64.div distance (Binary64.of_Z 1000)) ++ lit " km".

(** The body of the [try] block once both places and the route are at
    hand; a [return] inside it is followed by the [finally] block like
    everything else. *)
Definition route_found (w : World) (startCoords endCoords : Coordinates)
  (route : OSRM.route) (travelMode : TravelMode) (selectedStyle : jsstring)
  : list effect :=
  let duration := OSRM.duration route in
  let distance := OSRM.distance route in
  if Binary64_gt duration (Binary64.of_Z 14400) then
    [setError (Some TOO_LONG); setIsLoading false]
  else
    let details :=
      mkFound (display_name startCoords) (display_name endCoords)
        (distanceText w distance) (durationText w duration) duration
        travelMode (lit "Kore") selectedStyle in
    onRouteFound details
      :: match onRouteFound_throws w details with
         | Some _ => [setError (Some FAILED)]
         | None => []
         end.

(** The click handler of the form.  [startInputRef] and [endInputRef] are
    the values of the two input elements, [undefined] when an element is
    not mounted; the other four arguments are the state of the
    component. *)
Definition handleCalculate (w : World)
  (startInputRef endInputRef : option jsstring)
  (startAddress endAddress : jsstring)
  (travelMode : TravelMode) (selectedStyle : jsstring) : list effect :=
  let finalStart := or_typed startInputRef startAddress in
  let finalEnd := or_typed endInputRef endAddress in
  if is_empty finalStart || is_empty finalEnd then
    [setError (Some MISSING_LOCATION)]
  else
    [setError None; setIsLoading true]
    ++ match geocodeAddress w finalStart, geocodeAddress w finalEnd with
       | Some startCoords, Some endCoords =>
           match calculateRoute w startCoords endCoords travelMode with
           | Some route =>
               route_found w startCoords endCoords route travelMode selectedStyle
           | None => [setError (Some NO_ROUTE); setIsLoading false]
           end
       | _, _ => [setError (Some LOCATION_NOT_FOUND); setIsLoading false]
       end
    ++ [setIsLoading false].

(** The two pieces of state the handler writes. *)
Record Component := mkComponent { error : option jsstring; isLoading : bool }.

Definition perform (c : Component) (e : effect) : Component :=
  match e with
  | setError message => mkComponent message (isLoading c)
  | setIsLoading loading => mkComponent (error c) loading
  | onRouteFound _ => c
  end.

(** The component after the effects of a run of the handler. *)
Definition after (c : Component) (effects : list effect) : Component :=
  fold_left perform effects c.

(** The routes handed to the parent in a run of the handler. *)
Fixpoint found (effects : list effect) : list Found :=
  match effects with
  | [] => []
  | onRouteFound details :: rest => details :: found rest
  | _ :: rest => found rest
  end.

(** [disabled={isLoading || isLocked || !startAddress || !endAddress}] on
    the button that runs the handler. *)
Definition disabled (c : Component) (isLocked : bool)
  (startAddress endAddress : jsstring) : bool :=
  isLoading c || isLocked || is_empty startAddress || is_empty endAddress.

End Planner.

(** The route as the story service takes it, for a duration that is a
    finite number: the service model holds the exact value of it. *)
Definition route_details (f : Planner.Found) : option RouteDetails :=
  match Binary64.to_Q (Planner.durationSeconds f) with
  | Some seconds =>
      Some (mkRoute (Planner.startAddress f) (Planner.endAddress f)
              (Planner.distance f) (Planner.duration f) seconds
              (Planner.travelMode f) (Planner.voiceName f) (Planner.storyStyle f))
  | None => None
  end.

(** A world in which every place is found, every route takes 1850 seconds
    over 2400 metres, and the parent takes the route without throwing.
    The two renderings are good for the numbers of that route. *)
Definition sample_world : Planner.World :=
  Planner.mkWorld
    (fun address =>
       Some (Planner.mkCoordinates Binary64.zero Binary64.zero
               (address ++ lit ", Springfield")))
    (fun _ _ _ => Some (OSRM.mk (Binary64.of_Z 1850) (Binary64.of_Z 2400)))
    (fun _ => None)
    (fun x => toString_nat (Z.to_nat (Binary64.to_integer x)))
    (fun _ => lit "2.4").

(** [address.split(',')[0]], the label of a place on the map: the text up
    to its first comma. *)
Fixpoint before_comma (address : jsstring) : jsstring :=
  match address with
  | [] => []
  | c :: rest => if (c =? 44)%N then [] else c :: before_comma rest
  end.

(* ================================================================== *)
(** * Properties *)
(* ================================================================== *)

(** ** Strings *)

Lemma jsstring_eqb_eq (a b : jsstring) : jsstring_eqb a b = true <-> a = b.
Proof.
  revert b; induction a as [|x a IH]; intros [|y b]; simpl; split;
    try discriminate; try reflexivity.
  - intros H. apply andb_true_iff in H as [Hx Ha].
    apply N.eqb_eq in Hx. apply IH in Ha. now subst.
  - intros H. injection H as -> ->. apply andb_true_iff. split.
    + apply N.eqb_refl.
    + now apply IH.
Qed.

Lemma jsstring_eqb_neq (a b : jsstring) : a <> b -> jsstring_eqb a b = false.
Proof.
  intros H. destruct (jsstring_eqb a b) eqn:E; [|reflexivity].
  apply jsstring_eqb_eq in E. contradiction.
Qed.




(** ** Style Instruction Resolver *)

Lemma style_instructions_differ (i : nat) (a b : jsstring) :
  nth i a 0%N <> nth i b 0%N -> a <> b.
Proof. intros H E. apply H. now rewrite E. Qed.

(** C9. The resolver is a function of the style alone: each variant of the
    enumeration is bound to one fixed instruction string, whatever value is
    passed the result is one of the five fixed strings, and the strings of
    NOIR, CHILDREN, HISTORICAL and FANTASY (and the default one) are
    pairwise distinct. *)
Theorem getStyleInstruction_fixed_and_distinct :
  (forall s : StoryStyle, getStyleInstruction (style_tag s) = instruction_of s)
  /\ (forall style : jsstring,
        In (getStyleInstruction style)
           (map instruction_of [NOIR; CHILDREN; HISTORICAL; FANTASY; DEFAULT]))
  /\ NoDup (map (fun s => getStyleInstruction (style_tag s))
              [NOIR; CHILDREN; HISTORICAL; FANTASY; DEFAULT]).
Proof.
  split; [|split].
  - intros []; reflexivity.
  - intros style. unfold getStyleInstruction.
    repeat match goal with
           | |- context [if ?b then _ else _] => destruct b
           end; simpl; auto 6.
  - simpl map.
    repeat (apply NoDup_cons;
            [ simpl; intros H;
              repeat (destruct H as [H|H];
                      [ revert H; apply (style_instructions_differ 7);
                        vm_compute; discriminate | ]);
              exact H
            | ]).
    apply NoDup_nil.
Qed.

(** C10. Every style value other than NOIR, CHILDREN, HISTORICAL and
    FANTASY falls to the catch-all and gets the default instruction; the
    DEFAULT variant, which has no case of its own, is one of them. *)
Theorem getStyleInstruction_catch_all (style : jsstring) :
  style <> lit "NOIR" -> style <> lit "CHILDREN" ->
  style <> lit "HISTORICAL" -> style <> lit "FANTASY" ->
  getStyleInstruction style = DEFAULT_INSTRUCTION
  /\ getStyleInstruction (style_tag DEFAULT) = DEFAULT_INSTRUCTION.
Proof.
  intros H1 H2 H3 H4. split; [|reflexivity].
  unfold getStyleInstruction.
  now rewrite !jsstring_eqb_neq by assumption.
Qed.

Lemma getStyleInstruction_catch_all_witness :
  getStyleInstruction (lit "SCIENCE_FICTION") = DEFAULT_INSTRUCTION
  /\ getStyleInstruction (style_tag DEFAULT) = DEFAULT_INSTRUCTION.
Proof.
  apply (getStyleInstruction_catch_all (lit "SCIENCE_FICTION")); discriminate.
Defined.

(** ** Segment Sizing Calculator *)

Lemma segmentCount_ceiling (D : Q) :
  exists c : Z,
    (inject_Z c - 1 < D / 60)%Q /\ (D / 60 <= inject_Z c)%Q
    /\ segmentCount D = Z.max 1 c.
Proof.
  exists (Qceiling (D / 60)). split; [|split].
  - pose proof (Qceiling_lt (D / 60)) as H.
    assert (E : (inject_Z (Qceiling (D / 60) - 1) == inject_Z (Qceiling (D / 60)) - 1)%Q).
    { unfold Z.sub. rewrite inject_Z_plus. reflexivity. }
    now rewrite <- E.
  - apply Qle_ceiling.
  - reflexivity.
Qed.

(** ** Outline Generator *)

Lemma pad_loop_closed_form (fuel n : nat) (outline : list JSON) :
  n - length outline <= fuel -> (Z.of_nat n < 2 ^ 32)%Z ->
  pad_loop fuel n outline
  = Return (outline ++ repeat (JString OUTLINE_PADDING) (n - length outline)).
Proof.
  change (2 ^ 32)%Z with 4294967296%Z.
  revert outline. induction fuel as [|fuel IH]; intros outline Hfuel Hn; simpl.
  - replace (n - length outline) with 0 by lia. now rewrite app_nil_r.
  - destruct (length outline <? n) eqn:E.
    + apply Nat.ltb_lt in E. unfold Array_push, MAX_ARRAY_LENGTH.
      replace (Z.of_nat (length outline) <? 4294967295)%Z with true
        by (symmetry; apply Z.ltb_lt; lia).
      cbn [bind]. rewrite IH by (rewrite ?length_app; simpl; lia).
      rewrite length_app. simpl length.
      replace (n - length outline) with (S (n - (length outline + 1))) by lia.
      simpl. now rewrite <- app_assoc.
    + apply Nat.ltb_ge in E.
      replace (n - length outline) with 0 by lia. now rewrite app_nil_r.
Qed.

(** Below 2^32 no push throws and the fuel of [pad_outline] is enough: its
    result is the array the loop leaves, on which the loop condition is
    false. *)
Lemma pad_outline_closed_form (n : nat) (outline : list JSON) :
  (Z.of_nat n < 2 ^ 32)%Z ->
  pad_outline n outline
  = Return (outline ++ repeat (JString OUTLINE_PADDING) (n - length outline)).
Proof. intros Hn. apply pad_loop_closed_form; [lia | exact Hn]. Qed.

Lemma Array_fill_in_range {A} (n : nat) (v : A) :
  (Z.of_nat n < 2 ^ 32)%Z -> Array_fill n v = Return (repeat v n).
Proof.
  change (2 ^ 32)%Z with 4294967296%Z. intros Hn.
  unfold Array_fill, MAX_ARRAY_LENGTH.
  now replace (Z.of_nat n <=? 4294967295)%Z with true
    by (symmetry; apply Z.leb_le; lia).
Qed.

Lemma Array_fill_out_of_range {A} (n : nat) (v : A) :
  (2 ^ 32 <= Z.of_nat n)%Z -> Array_fill n v = Throw RangeError.
Proof.
  change (2 ^ 32)%Z with 4294967296%Z. intros Hn.
  unfold Array_fill, MAX_ARRAY_LENGTH.
  now replace (Z.of_nat n <=? 4294967295)%Z with false
    by (symmetry; apply Z.leb_gt; lia).
Qed.

Lemma final_outline_length (n : nat) (outline : list JSON) :
  length (slice_first n
            (outline ++ repeat (JString OUTLINE_PADDING) (n - length outline)))
  = n.
Proof.
  unfold slice_first. rewrite length_firstn, length_app, repeat_length. lia.
Qed.

Lemma fallback_length (n : nat) :
  length (repeat (JString OUTLINE_FALLBACK) n) = n.
Proof. apply repeat_length. Qed.

(** The ways out of [generateStoryOutline]: whatever throws in the [try]
    block is caught, and the handler ends in [Array(n)]. *)
Lemma generateStoryOutline_unfold (env : Environment) (route : RouteDetails)
  (n : nat) :
  generateStoryOutline env route n
  = match outline_reply env route n with
    | Return v =>
        match parsed_reply v with
        | Some (Return (JArray (x :: xs))) =>
            match pad_outline n (x :: xs) with
            | Return padded => Return (slice_first n padded)
            | Throw _ => Array_fill n (JString OUTLINE_FALLBACK)
            end
        | _ => Array_fill n (JString OUTLINE_FALLBACK)
        end
    | Throw _ => Array_fill n (JString OUTLINE_FALLBACK)
    end.
Proof.
  unfold generateStoryOutline, outline_attempt, outline_reply.
  destruct (makeHackClubRequest env _ _) as [v|e]; [|reflexivity].
  destruct v as [[| b | l | s | items | ms]|]; try reflexivity.
  simpl. destruct (trim s) as [|c t]; [reflexivity|].
  simpl. destruct (JSON_parse (jsonString (c :: t))) as [j|e]; [|reflexivity].
  destruct j as [| b | l | s' | [|x xs] | ms]; try reflexivity.
  simpl. destruct (pad_outline n (x :: xs)); reflexivity.
Qed.

(** The two ways out of [generateStoryOutline] for a count below 2^32. *)
Lemma generateStoryOutline_cases (env : Environment) (route : RouteDetails)
  (n : nat) :
  (Z.of_nat n < 2 ^ 32)%Z ->
  generateStoryOutline env route n
  = match outline_reply env route n with
    | Return v =>
        match parsed_reply v with
        | Some (Return (JArray (x :: xs))) =>
            Return (slice_first n
                      ((x :: xs) ++ repeat (JString OUTLINE_PADDING)
                                      (n - length (x :: xs))))
        | _ => Return (repeat (JString OUTLINE_FALLBACK) n)
        end
    | Throw _ => Return (repeat (JString OUTLINE_FALLBACK) n)
    end.
Proof.
  intros Hn. rewrite generateStoryOutline_unfold.
  rewrite (Array_fill_in_range n (JString OUTLINE_FALLBACK) Hn).
  destruct (outline_reply env route n) as [v|e]; [|reflexivity].
  destruct (parsed_reply v) as [[[| b | l | s | [|x xs] | ms]|e]|];
    try reflexivity.
  now rewrite pad_outline_closed_form.
Qed.

Lemma in_firstn {A} (n : nat) (l : list A) (x : A) :
  In x (firstn n l) -> In x l.
Proof.
  intros H. rewrite <- (firstn_skipn n l). apply in_or_app. now left.
Qed.

Lemma is_JString_padded (n : nat) (items : list JSON) :
  forallb is_JString items = true ->
  forallb is_JString
    (slice_first n
       (items ++ repeat (JString OUTLINE_PADDING) (n - length items))) = true.
Proof.
  intros H. unfold slice_first.
  apply forallb_forall. intros x Hx.
  apply in_firstn in Hx as Hin. clear Hx.
  apply in_app_or in Hin as [Hin|Hin].
  - rewrite forallb_forall in H. now apply H.
  - apply repeat_spec in Hin. now subst.
Qed.

(** C1, as amended.  For every journey and every requested count N with
    1 <= N < 2^32, the largest length an array can have being 2^32 - 1,
    the outline generator returns an array of exactly N elements.  When the
    parsed array is not empty and has fewer than N elements the result is
    that array followed by copies of the fixed continuation string up to
    length N; when it has more, the result is its first N elements.  The
    elements of the parsed array are passed on as they are: the result is
    made of strings whenever the parsed array is. *)
Theorem generateStoryOutline_length (env : Environment) (route : RouteDetails)
  (n : nat) :
  1 <= n -> (Z.of_nat n < 2 ^ 32)%Z ->
  exists outline,
    generateStoryOutline env route n = Return outline
    /\ length outline = n
    /\ forall v x xs,
         outline_reply env route n = Return v ->
         parsed_reply v = Some (Return (JArray (x :: xs))) ->
         let items := x :: xs in
         (length items < n ->
            outline = items ++ repeat (JString OUTLINE_PADDING) (n - length items))
         /\ (n <= length items -> outline = firstn n items)
         /\ (forallb is_JString items = true ->
               forallb is_JString outline = true).
Proof.
  intros _ Hn. rewrite generateStoryOutline_cases by exact Hn.
  destruct (outline_reply env route n) as [v|e].
  - destruct (parsed_reply v) as [[[| b | l | s | [|x xs] | ms]|e]|] eqn:P;
      try (eexists; split; [reflexivity|]; split; [apply fallback_length|];
           intros v' x' xs' Hv; injection Hv as <-; rewrite P; discriminate).
    eexists; split; [reflexivity|]. split; [apply final_outline_length|].
    intros v' x' xs' Hv HP. injection Hv as <-. rewrite P in HP.
    injection HP as <- <-. cbv zeta. split; [|split].
    + intros Hlt. unfold slice_first.
      rewrite firstn_all2; [reflexivity|].
      rewrite length_app, repeat_length. lia.
    + intros Hge. unfold slice_first.
      replace (n - length (x :: xs)) with 0 by lia.
      simpl repeat. now rewrite app_nil_r.
    + apply is_JString_padded.
  - eexists; split; [reflexivity|]. split; [apply fallback_length|].
    intros v x xs Hv. discriminate.
Qed.

Lemma generateStoryOutline_length_witness :
  generateStoryOutline (saying (lit "[true, false]")) sample_route 3
  = Return [JBool true; JBool false; JString OUTLINE_PADDING].
Proof.
  destruct (generateStoryOutline_length (saying (lit "[true, false]")) sample_route 3)
    as [outline [H [_ Hitems]]]; [lia | reflexivity |].
  destruct (Hitems (Some (JString (lit "[true, false]"))) (JBool true) [JBool false]
              eq_refl eq_refl) as [Hpad _].
  rewrite H, Hpad by (simpl; lia). reflexivity.
Defined.

(** C1, as stated, fails: when the model answers with an array of numbers,
    the array returned for N = 1 is not an array of strings. *)
Lemma generateStoryOutline_not_only_strings :
  ~ exists outline,
      generateStoryOutline (saying (lit "[7]")) sample_route 1 = Return outline
      /\ length outline = 1
      /\ forallb is_JString outline = true.
Proof.
  intros [outline [H [_ Hs]]].
  assert (E : generateStoryOutline (saying (lit "[7]")) sample_route 1
              = Return [JNumber (lit "7")]) by (vm_compute; reflexivity).
  rewrite E in H. injection H as <-. discriminate.
Qed.

(** C3, as amended.  For a count N below 2^32 outline generation never
    raises past its own boundary: it always returns an array of exactly N
    elements, and when the completion request throws, when the reply has
    no text (or is no string at all), when the text handed to [JSON.parse]
    is not parseable, when the parsed value is not an array or is the
    empty array, what it returns is N copies of the fixed placeholder.
    From 2^32 on, the [Array(N)] of the handler throws a RangeError, and
    that error leaves the generator whenever the request has failed. *)
Theorem generateStoryOutline_fallback (env : Environment) (route : RouteDetails)
  (n : nat) :
  ((Z.of_nat n < 2 ^ 32)%Z ->
  let fallback := Return (repeat (JString OUTLINE_FALLBACK) n) in
  (exists outline,
     generateStoryOutline env route n = Return outline /\ length outline = n)
  /\ (forall e, outline_reply env route n = Throw e ->
        generateStoryOutline env route n = fallback)
  /\ (forall v, outline_reply env route n = Return v ->
        no_text v \/ not_a_string v ->
        generateStoryOutline env route n = fallback)
  /\ (forall v e, outline_reply env route n = Return v ->
        parsed_reply v = Some (Throw e) ->
        generateStoryOutline env route n = fallback)
  /\ (forall v j, outline_reply env route n = Return v ->
        parsed_reply v = Some (Return j) ->
        (forall items, j <> JArray items) ->
        generateStoryOutline env route n = fallback)
  /\ (forall v, outline_reply env route n = Return v ->
        parsed_reply v = Some (Return (JArray [])) ->
        generateStoryOutline env route n = fallback))
  /\ ((2 ^ 32 <= Z.of_nat n)%Z ->
      forall e, outline_reply env route n = Throw e ->
        generateStoryOutline env route n = Throw RangeError).
Proof.
  split; cycle 1.
  { intros Hn e He. rewrite generateStoryOutline_unfold, He.
    now apply Array_fill_out_of_range. }
  intros Hn. cbv zeta. rewrite generateStoryOutline_cases by exact Hn.
  split; [|split; [|split; [|split; [|split]]]].
  - destruct (outline_reply env route n) as [v|e].
    + destruct (parsed_reply v) as [[[| b | l | s | [|x xs] | ms]|e]|];
        eexists; (split; [reflexivity|]);
        first [apply fallback_length | apply final_outline_length].
    + eexists; split; [reflexivity | apply fallback_length].
  - intros e ->. reflexivity.
  - intros v -> [[->|[->|[s [-> Hs]]]]|H].
    + reflexivity.
    + reflexivity.
    + unfold parsed_reply. now rewrite Hs.
    + destruct v as [[| b | l | s | items | ms]|]; simpl in H;
        try contradiction; reflexivity.
  - intros v e -> ->. reflexivity.
  - intros v j -> -> Hj.
    destruct j as [| b | l | s | [|x xs] | ms]; try reflexivity.
    now destruct (Hj (x :: xs)).
  - intros v -> ->. reflexivity.
Qed.

Lemma generateStoryOutline_fallback_witness :
  generateStoryOutline offline sample_route 4
  = Return (repeat (JString OUTLINE_FALLBACK) 4)
  /\ generateStoryOutline (saying (lit "   ")) sample_route 4
     = Return (repeat (JString OUTLINE_FALLBACK) 4)
  /\ generateStoryOutline (saying (lit "no json here")) sample_route 4
     = Return (repeat (JString OUTLINE_FALLBACK) 4)
  /\ generateStoryOutline (saying (lit "{}")) sample_route 4
     = Return (repeat (JString OUTLINE_FALLBACK) 4)
  /\ generateStoryOutline (saying (lit "[]")) sample_route 4
     = Return (repeat (JString OUTLINE_FALLBACK) 4).
Proof.
  assert (Hn : (Z.of_nat 4 < 2 ^ 32)%Z) by reflexivity.
  split; [|split; [|split; [|split]]].
  - apply (proj1 (proj2
             (proj1 (generateStoryOutline_fallback offline sample_route 4) Hn))
             (TypeError "Failed to fetch")).
    reflexivity.
  - apply (proj1 (proj2 (proj2
             (proj1 (generateStoryOutline_fallback (saying (lit "   ")) sample_route 4)
                Hn)))
             (Some (JString (lit "   ")))).
    + reflexivity.
    + left. right. right. exists (lit "   "). split; reflexivity.
  - apply (proj1 (proj2 (proj2 (proj2
             (proj1 (generateStoryOutline_fallback (saying (lit "no json here"))
                       sample_route 4) Hn))))
             (Some (JString (lit "no json here"))) SyntaxError);
      reflexivity.
  - apply (proj1 (proj2 (proj2 (proj2 (proj2
             (proj1 (generateStoryOutline_fallback (saying (lit "{}")) sample_route 4)
                Hn)))))
             (Some (JString (lit "{}"))) (JObject []));
      [reflexivity | reflexivity | discriminate].
  - apply (proj2 (proj2 (proj2 (proj2 (proj2
             (proj1 (generateStoryOutline_fallback (saying (lit "[]")) sample_route 4)
                Hn)))))
             (Some (JString (lit "[]"))));
      reflexivity.
Defined.

(** C3, as stated, fails: with the network down and a count of 2^32, the
    handler of the failure throws in its turn, and the generator raises a
    RangeError instead of returning placeholders. *)
Lemma generateStoryOutline_raises_RangeError :
  outline_reply offline sample_route (Z.to_nat 4294967296)
  = Throw (TypeError "Failed to fetch")
  /\ generateStoryOutline offline sample_route (Z.to_nat 4294967296)
     = Throw RangeError
  /\ forall outline,
       generateStoryOutline offline sample_route (Z.to_nat 4294967296)
       <> Return outline.
Proof.
  assert (E : generateStoryOutline offline sample_route (Z.to_nat 4294967296)
              = Throw RangeError).
  { rewrite generateStoryOutline_unfold.
    change (outline_reply offline sample_route (Z.to_nat 4294967296))
      with (@Throw value (TypeError "Failed to fetch")).
    apply Array_fill_out_of_range. rewrite Z2Nat.id by discriminate.
    discriminate. }
  split; [reflexivity|]. split; [exact E|].
  intros outline. rewrite E. discriminate.
Qed.

(** C7, as amended.  After parsing, the generator checks the shape of the
    value only: a value that is not an array, or the empty array, is
    rejected and the fallback outline is returned; a non-empty array is
    accepted whatever its elements are, strings or not, and is returned
    padded or truncated to N elements (N below 2^32, as an array
    requires). *)
Theorem generateStoryOutline_validation (env : Environment)
  (route : RouteDetails) (n : nat) (v : value) :
  (Z.of_nat n < 2 ^ 32)%Z ->
  outline_reply env route n = Return v ->
  (forall j, parsed_reply v = Some (Return j) ->
     (forall items, j <> JArray items) ->
     generateStoryOutline env route n
     = Return (repeat (JString OUTLINE_FALLBACK) n))
  /\ (parsed_reply v = Some (Return (JArray [])) ->
      generateStoryOutline env route n
      = Return (repeat (JString OUTLINE_FALLBACK) n))
  /\ (forall x xs, parsed_reply v = Some (Return (JArray (x :: xs))) ->
      generateStoryOutline env route n
      = Return (firstn n ((x :: xs)
                  ++ repeat (JString OUTLINE_PADDING) (n - length (x :: xs))))).
Proof.
  intros Hn Hv. rewrite generateStoryOutline_cases by exact Hn.
  rewrite Hv. split; [|split].
  - intros j -> Hj.
    destruct j as [| b | l | s | [|x xs] | ms]; try reflexivity.
    now destruct (Hj (x :: xs)).
  - intros ->. reflexivity.
  - intros x xs ->. reflexivity.
Qed.

Lemma generateStoryOutline_validation_witness :
  generateStoryOutline (saying (lit "[null, 2.5, {}]")) sample_route 2
  = Return (firstn 2 ([JNull; JNumber (lit "2.5"); JObject []]
              ++ repeat (JString OUTLINE_PADDING) (2 - 3))).
Proof.
  apply (proj2 (proj2
           (generateStoryOutline_validation (saying (lit "[null, 2.5, {}]"))
              sample_route 2 (Some (JString (lit "[null, 2.5, {}]")))
              eq_refl eq_refl))).
  reflexivity.
Defined.

(** C7, as stated, fails: the parsed value is an array with elements that
    are not strings, and the success path is taken all the same. *)
Lemma generateStoryOutline_accepts_non_strings :
  parsed_reply (Some (JString (lit "[1, true]")))
  = Some (Return (JArray [JNumber (lit "1"); JBool true]))
  /\ forallb is_JString [JNumber (lit "1"); JBool true] = false
  /\ generateStoryOutline (saying (lit "[1, true]")) sample_route 2
     = Return [JNumber (lit "1"); JBool true]
  /\ generateStoryOutline (saying (lit "[1, true]")) sample_route 2
     <> Return (repeat (JString OUTLINE_FALLBACK) 2).
Proof.
  repeat split; try (vm_compute; reflexivity).
  vm_compute. discriminate.
Qed.

(** ** The text handed to the parser *)

Lemma dotstar_close_none (s : jsstring) :
  ~ In RegExp.RBRACKET s -> RegExp.dotstar_close s = None.
Proof.
  induction s as [|c s IH]; intros H; simpl; [reflexivity|].
  rewrite IH by (intros Hin; apply H; now right).
  destruct (jschar_eqb c RegExp.RBRACKET) eqn:E; [|reflexivity].
  apply N.eqb_eq in E. exfalso. apply H. now left.
Qed.

Lemma dotstar_close_last (mid post : jsstring) :
  ~ In RegExp.RBRACKET post ->
  RegExp.dotstar_close (mid ++ RegExp.RBRACKET :: post)
  = Some (mid ++ [RegExp.RBRACKET]).
Proof.
  intros H. induction mid as [|c mid IH]; simpl.
  - now rewrite dotstar_close_none.
  - now rewrite IH.
Qed.

Lemma match_bracketed_skip (pre s : jsstring) :
  ~ In RegExp.LBRACKET pre ->
  RegExp.match_bracketed (pre ++ s) = RegExp.match_bracketed s.
Proof.
  induction pre as [|c pre IH]; intros H; [reflexivity|].
  assert (Hc : jschar_eqb c RegExp.LBRACKET = false).
  { apply N.eqb_neq. intros ->. apply H. now left. }
  simpl. rewrite Hc. apply IH. intros Hin. apply H. now right.
Qed.

Lemma match_bracketed_no_open (s : jsstring) :
  ~ In RegExp.LBRACKET s -> RegExp.match_bracketed s = None.
Proof.
  intros H. rewrite <- (app_nil_r s). now rewrite match_bracketed_skip.
Qed.

Lemma match_bracketed_open (s : jsstring) :
  RegExp.match_bracketed (RegExp.LBRACKET :: s)
  = match RegExp.dotstar_close s with
    | Some m => Some (RegExp.LBRACKET :: m)
    | None => RegExp.match_bracketed s
    end.
Proof. simpl. now destruct (RegExp.dotstar_close s). Qed.

Lemma match_bracketed_unclosed (s : jsstring) :
  ~ In RegExp.RBRACKET s -> RegExp.match_bracketed s = None.
Proof.
  induction s as [|c s IH]; intros H; [reflexivity|].
  assert (Hs : ~ In RegExp.RBRACKET s) by (intros Hin; apply H; now right).
  simpl. rewrite (dotstar_close_none s Hs), IH by assumption.
  now destruct (jschar_eqb c RegExp.LBRACKET).
Qed.

Lemma first_occurrence (x : jschar) (s : jsstring) :
  In x s -> exists pre post, s = pre ++ x :: post /\ ~ In x pre.
Proof.
  induction s as [|c s IH]; intros H; [contradiction|].
  destruct (N.eq_dec c x) as [->|Hc].
  - exists [], s. split; [reflexivity | intros []].
  - destruct H as [H|H]; [contradiction|].
    destruct (IH H) as [pre [post [-> Hpre]]].
    exists (c :: pre), post. split; [reflexivity|].
    intros [E|E]; [contradiction | now apply Hpre].
Qed.

Lemma last_occurrence (x : jschar) (s : jsstring) :
  In x s -> exists pre post, s = pre ++ x :: post /\ ~ In x post.
Proof.
  intros H. apply in_rev in H.
  destruct (first_occurrence x (rev s) H) as [pre [post [E Hpre]]].
  exists (rev post), (rev pre). split.
  - rewrite <- (rev_involutive s), E, rev_app_distr. simpl.
    now rewrite <- app_assoc.
  - intros Hin. apply Hpre. now apply in_rev.
Qed.

Lemma jsonString_greedy (pre mid post : jsstring) :
  ~ In RegExp.LBRACKET pre -> ~ In RegExp.RBRACKET post ->
  jsonString (pre ++ RegExp.LBRACKET :: mid ++ RegExp.RBRACKET :: post)
  = RegExp.LBRACKET :: mid ++ [RegExp.RBRACKET].
Proof.
  intros Hpre Hpost. unfold jsonString.
  rewrite match_bracketed_skip by assumption.
  rewrite match_bracketed_open, dotstar_close_last by assumption.
  reflexivity.
Qed.

Lemma jsonString_whole (text : jsstring) :
  (forall pre rest, text = pre ++ RegExp.LBRACKET :: rest ->
     ~ In RegExp.LBRACKET pre -> ~ In RegExp.RBRACKET rest) ->
  jsonString text = text.
Proof.
  intros H. unfold jsonString.
  destruct (in_dec N.eq_dec RegExp.LBRACKET text) as [Hin|Hout].
  - destruct (first_occurrence _ _ Hin) as [pre [rest [-> Hpre]]].
    specialize (H pre rest eq_refl Hpre).
    rewrite match_bracketed_skip by assumption.
    rewrite match_bracketed_open, dotstar_close_none by assumption.
    now rewrite match_bracketed_unclosed.
  - now rewrite match_bracketed_no_open.
Qed.

Lemma up_to_matching_close_shape (s a : jsstring) (depth : nat) :
  up_to_matching_close depth s = Some a ->
  exists mid post, a = mid ++ [RegExp.RBRACKET] /\ s = a ++ post.
Proof.
  revert a depth. induction s as [|c s IH]; intros a depth H; [discriminate|].
  simpl in H.
  assert (Hrec : forall d, option_map (cons c) (up_to_matching_close d s) = Some a ->
            exists mid post, a = mid ++ [RegExp.RBRACKET] /\ c :: s = a ++ post).
  { intros d Hd. destruct (up_to_matching_close d s) as [a'|] eqn:E; [|discriminate].
    injection Hd as <-. destruct (IH _ _ E) as [mid [post [-> ->]]].
    exists (c :: mid), post. split; reflexivity. }
  destruct (jschar_eqb c RegExp.RBRACKET) eqn:Ec.
  - apply N.eqb_eq in Ec. subst c. destruct depth as [|d].
    + injection H as <-. exists [], s. split; reflexivity.
    + now apply (Hrec d).
  - destruct (jschar_eqb c RegExp.LBRACKET); now apply Hrec in H.
Qed.

Lemma first_matching_array_shape (s a : jsstring) :
  first_matching_array s = Some a ->
  exists pre mid post,
    a = RegExp.LBRACKET :: mid ++ [RegExp.RBRACKET]
    /\ s = pre ++ a ++ post /\ ~ In RegExp.LBRACKET pre.
Proof.
  induction s as [|c s IH]; intros H; [discriminate|]. simpl in H.
  destruct (jschar_eqb c RegExp.LBRACKET) eqn:Ec.
  - apply N.eqb_eq in Ec. subst c.
    destruct (up_to_matching_close 0 s) as [a'|] eqn:E; [|discriminate].
    injection H as <-.
    destruct (up_to_matching_close_shape _ _ _ E) as [mid [post [-> ->]]].
    exists [], mid, post. repeat split. intros [].
  - destruct (IH H) as [pre [mid [post [-> [-> Hpre]]]]].
    exists (c :: pre), mid, post. repeat split.
    intros [E|E]; [|now apply Hpre].
    subst c. now rewrite N.eqb_refl in Ec.
Qed.

(** C6, as amended.  The text handed to [JSON.parse] runs from the first
    opening bracket of the (trimmed) response to its last closing bracket;
    when no closing bracket follows the first opening one, it is the whole
    text.  It is the first matching array exactly when no closing bracket
    comes after that array.  That text, and nothing else of the response,
    is what the generator parses (for a count below 2^32, as an array
    requires). *)
Theorem jsonString_first_open_last_close (text : jsstring) :
  (forall pre mid post,
     text = pre ++ RegExp.LBRACKET :: mid ++ RegExp.RBRACKET :: post ->
     ~ In RegExp.LBRACKET pre -> ~ In RegExp.RBRACKET post ->
     jsonString text = RegExp.LBRACKET :: mid ++ [RegExp.RBRACKET])
  /\ ((forall pre rest, text = pre ++ RegExp.LBRACKET :: rest ->
         ~ In RegExp.LBRACKET pre -> ~ In RegExp.RBRACKET rest) ->
      jsonString text = text)
  /\ (forall a, first_matching_array text = Some a ->
        exists pre post,
          text = pre ++ a ++ post
          /\ (~ In RegExp.RBRACKET post -> jsonString text = a)
          /\ (In RegExp.RBRACKET post -> jsonString text <> a))
  /\ (forall env route n s,
        (Z.of_nat n < 2 ^ 32)%Z ->
        outline_reply env route n = Return (Some (JString s)) ->
        trim s = text -> text <> [] ->
        generateStoryOutline env route n
        = match JSON_parse (jsonString text) with
          | Return (JArray (x :: xs)) =>
              Return (slice_first n
                        ((x :: xs) ++ repeat (JString OUTLINE_PADDING)
                                        (n - length (x :: xs))))
          | _ => Return (repeat (JString OUTLINE_FALLBACK) n)
          end).
Proof.
  split; [|split; [|split]]; cycle 3.
  { intros env route n s Hn Hs Ht Hne.
    rewrite generateStoryOutline_cases by exact Hn.
    rewrite Hs. unfold parsed_reply. rewrite Ht.
    destruct text as [|c t]; [contradiction | reflexivity]. }
  - intros pre mid post -> Hpre Hpost. now apply jsonString_greedy.
  - apply jsonString_whole.
  - intros a Ha.
    destruct (first_matching_array_shape _ _ Ha) as [pre [mid [post [-> [-> Hpre]]]]].
    exists pre, post. split; [reflexivity|]. split.
    + intros Hpost.
      replace (pre ++ (RegExp.LBRACKET :: mid ++ [RegExp.RBRACKET]) ++ post)
        with (pre ++ RegExp.LBRACKET :: mid ++ RegExp.RBRACKET :: post)
        by (simpl; now rewrite <- app_assoc).
      now apply jsonString_greedy.
    + intros Hpost.
      destruct (last_occurrence _ _ Hpost) as [p1 [p2 [-> Hp2]]].
      replace (pre ++ (RegExp.LBRACKET :: mid ++ [RegExp.RBRACKET])
                 ++ p1 ++ RegExp.RBRACKET :: p2)
        with (pre ++ RegExp.LBRACKET :: (mid ++ RegExp.RBRACKET :: p1)
                 ++ RegExp.RBRACKET :: p2)
        by (simpl; now rewrite <- !app_assoc).
      rewrite jsonString_greedy by assumption.
      intros E. apply (f_equal (@length _)) in E.
      simpl in E. rewrite !length_app in E. simpl in E. lia.
Qed.

Lemma jsonString_first_open_last_close_witness :
  jsonString (lit "Plan: [1, [2]] and ] done")
  = RegExp.LBRACKET :: lit "1, [2]] and " ++ [RegExp.RBRACKET].
Proof.
  apply (proj1 (jsonString_first_open_last_close (lit "Plan: [1, [2]] and ] done"))
           (lit "Plan: ") (lit "1, [2]] and ") (lit " done")).
  - reflexivity.
  - vm_compute. intuition discriminate.
  - vm_compute. intuition discriminate.
Defined.

(** C6, as stated, fails: in this reply a well-formed array is followed by
    one more closing bracket; the first matching array is not what is
    parsed, and the outline it holds is lost to the fallback. *)
Lemma jsonString_not_first_matching_array :
  let first := lit "[" ++ [DQUOTE] ++ lit "a" ++ [DQUOTE] ++ lit "]" in
  let text := first ++ lit " ]" in
  first_matching_array text = Some first
  /\ JSON_parse first = Return (JArray [JString (lit "a")])
  /\ jsonString text = text
  /\ jsonString text <> first
  /\ generateStoryOutline (saying text) sample_route 1
     = Return [JString OUTLINE_FALLBACK].
Proof.
  cbv zeta. repeat split; try (vm_compute; reflexivity).
  vm_compute. discriminate.
Qed.

(** ** Segment Generator *)

Lemma generateSegment_cases (env : Environment) (route : RouteDetails)
  (idx total : nat) (goal : jsstring) (prev : option jsstring) :
  generateSegment env route idx total goal prev
  = match segment_reply env route idx total goal
            (match prev with Some s => s | None => [] end) with
    | Return v =>
        match optional_trim v with
        | Return (Some (c :: t)) => Return (mkSegment idx (c :: t) None)
        | Return _ => Throw (Error (lit "No text generated for segment."))
        | Throw e => Throw e
        end
    | Throw e => Throw e
    end.
Proof.
  unfold generateSegment, segment_attempt, segment_reply.
  destruct (makeHackClubRequest env _ _) as [v|e]; [|reflexivity].
  simpl. destruct (optional_trim v) as [[[|c t]|]|e]; reflexivity.
Qed.

(** C4. Segment generation surfaces its failures: when the completion
    request throws, its error is thrown on to the caller; when the reply has
    no text once trimmed, an [Error] is thrown; a reply that is no string
    makes it throw as well.  Whenever it returns, the text of the segment is
    the non-empty trimmed text of the reply, never a placeholder, so a
    failure is an outcome of another kind than any returned segment, one
    with empty text included. *)
Theorem generateSegment_surfaces_failures (env : Environment)
  (route : RouteDetails) (idx total : nat) (goal : jsstring)
  (prev : option jsstring) :
  let reply := segment_reply env route idx total goal
                 (match prev with Some s => s | None => [] end) in
  let result := generateSegment env route idx total goal prev in
  (forall e, reply = Throw e -> result = Throw e)
  /\ (forall v, reply = Return v -> no_text v ->
        result = Throw (Error (lit "No text generated for segment.")))
  /\ (forall v, reply = Return v -> not_a_string v ->
        exists e, result = Throw e /\ err_kind e = KTypeError)
  /\ (forall seg, result = Return seg ->
        exists s, reply = Return (Some (JString s))
                  /\ text seg = trim s /\ text seg <> []
                  /\ index seg = idx /\ audioBuffer seg = None)
  /\ (forall e, result = Throw e ->
        forall seg, result <> Return seg)
  /\ (forall (e : JSError) (seg : StorySegment), Throw e <> Return seg).
Proof.
  cbv zeta. rewrite generateSegment_cases.
  split; [|split; [|split; [|split; [|split]]]].
  - intros e ->. reflexivity.
  - intros v -> [->|[->|[s [-> Hs]]]]; try reflexivity.
    simpl. now rewrite Hs.
  - intros v -> H.
    destruct v as [[| b | l | s | items | ms]|]; simpl in H; try contradiction;
      eexists; split; reflexivity.
  - intros seg H.
    destruct (segment_reply env route idx total goal _) as [v|e]; [|discriminate].
    destruct v as [[| b | l | s | items | ms]|]; try discriminate.
    simpl in H. destruct (trim s) as [|c t] eqn:Hs; [discriminate|].
    injection H as <-. exists s. simpl. rewrite Hs.
    repeat split. discriminate.
  - intros e -> seg. discriminate.
  - intros e seg. discriminate.
Qed.

Lemma generateSegment_surfaces_failures_witness :
  generateSegment offline sample_route 2 4 (lit "The gate") (Some (lit "So far."))
  = Throw (TypeError "Failed to fetch")
  /\ generateSegment (saying (lit "  ")) sample_route 2 4 (lit "The gate") None
     = Throw (Error (lit "No text generated for segment.")).
Proof.
  split.
  - apply (proj1 (generateSegment_surfaces_failures offline sample_route 2 4
                    (lit "The gate") (Some (lit "So far.")))).
    reflexivity.
  - apply (proj1 (proj2 (generateSegment_surfaces_failures (saying (lit "  "))
                    sample_route 2 4 (lit "The gate") None))
             (Some (JString (lit "  ")))).
    + reflexivity.
    + right. right. exists (lit "  "). split; reflexivity.
Defined.







(** ** Binary64 arithmetic *)

Section Rounding.

Local Open Scope Z_scope.


Lemma digits2_pos_bounds (p : positive) :
  2 ^ (Zpos (digits2_pos p) - 1) <= Zpos p < 2 ^ Zpos (digits2_pos p).
Proof.
  induction p as [p IH|p IH|]; simpl digits2_pos.
  - rewrite Pos2Z.inj_succ. change (Zpos p~1) with (2 * Zpos p + 1).
    replace (Z.succ (Zpos (digits2_pos p)) - 1) with (Z.succ (Zpos (digits2_pos p) - 1)) by lia.
    rewrite !Z.pow_succ_r by lia. atom_pow. lia.
  - rewrite Pos2Z.inj_succ. change (Zpos p~0) with (2 * Zpos p).
    replace (Z.succ (Zpos (digits2_pos p)) - 1) with (Z.succ (Zpos (digits2_pos p) - 1)) by lia.
    rewrite !Z.pow_succ_r by lia. atom_pow. lia.
  - simpl. lia.
Qed.

Lemma digits2_pos_unique (p : positive) (d : Z) :
  2 ^ (d - 1) <= Zpos p < 2 ^ d -> 0 < d -> Zpos (digits2_pos p) = d.
Proof.
  intros [Hlo Hhi] Hd. pose proof (digits2_pos_bounds p) as [Blo Bhi].
  destruct (Z.lt_trichotomy (Zpos (digits2_pos p)) d) as [H|[H|H]]; [|exact H|].
  - assert (2 ^ Zpos (digits2_pos p) <= 2 ^ (d - 1)) by (apply Z.pow_le_mono_r; lia).
    atom_pow. lia.
  - assert (2 ^ d <= 2 ^ (Zpos (digits2_pos p) - 1)) by (apply Z.pow_le_mono_r; lia).
    atom_pow. lia.
Qed.

Lemma iter_pos_nat {A} (f : A -> A) (p : positive) (x : A) :
  SpecFloat.iter_pos f p x = Nat.iter (Pos.to_nat p) f x.
Proof.
  revert x. induction p as [p IH|p IH|]; intros x; simpl SpecFloat.iter_pos.
  - rewrite !IH, Pos2Nat.inj_xI, <- Nat.iter_add.
    replace (Pos.to_nat p + Pos.to_nat p)%nat with (2 * Pos.to_nat p)%nat by lia.
    now rewrite Nat.iter_succ_r.
  - rewrite !IH, Pos2Nat.inj_xO, <- Nat.iter_add.
    now replace (Pos.to_nat p + Pos.to_nat p)%nat with (2 * Pos.to_nat p)%nat by lia.
  - reflexivity.
Qed.


Lemma shr_1_nonneg (m : Z) (r s : bool) :
  0 <= m ->
  shr_1 (Build_shr_record m r s)
  = Build_shr_record (Z.div2 m) (Z.odd m) (r || s).
Proof.
  intros H. destruct m as [|[p|p|]|p]; try reflexivity. lia.
Qed.

Lemma shifted_step (m0 P : Z) (mrs : shr_record) :
  0 < P -> shifted m0 P mrs -> shifted m0 (2 * P) (shr_1 mrs).
Proof.
  destruct mrs as [m r s]. intros HP [Hm [rem [E [Hrem [Hr Hs]]]]].
  cbn [shr_m shr_r shr_s] in Hm, E, Hr, Hs.
  rewrite shr_1_nonneg by assumption. unfold shifted. cbn [shr_m shr_r shr_s].
  pose proof (Z.div2_odd m) as Hd.
  assert (0 <= Z.div2 m) by (apply Z.div2_nonneg; lia).
  set (q := Z.div2 m) in *. clearbody q.
  split; [assumption|].
  exists (Z.b2z (Z.odd m) * P + rem).
  assert (Hb : Z.b2z (Z.odd m) = 0 /\ Z.odd m = false
               \/ Z.b2z (Z.odd m) = 1 /\ Z.odd m = true)
    by (destruct (Z.odd m); simpl; auto).
  destruct Hb as [[Hb Ho]|[Hb Ho]]; rewrite Hb in *; rewrite Ho; clear Hb Ho;
    subst m; (split; [lia|]); (split; [lia|]); split.
  - split; [discriminate | intros; nia].
  - rewrite orb_true_iff, Hr, Hs. split; intros; nia.
  - split; [intros; nia | reflexivity].
  - rewrite orb_true_iff, Hr, Hs. split; intros; nia.
Qed.

Lemma shifted_iter (m0 : Z) (n : nat) :
  0 <= m0 ->
  shifted m0 (2 ^ Z.of_nat n) (Nat.iter n shr_1 (Build_shr_record m0 false false)).
Proof.
  intros H. induction n as [|n IH].
  - change (2 ^ Z.of_nat 0) with 1. cbn [Nat.iter nat_rect].
    split; [assumption|]. exists 0. cbn [shr_m shr_r shr_s].
    repeat split; try lia; try discriminate.
  - rewrite Nat2Z.inj_succ, Z.pow_succ_r by lia. simpl Nat.iter.
    apply shifted_step; [apply Z.pow_pos_nonneg; lia | exact IH].
Qed.

(** Rounding to nearest, ties to even, is within half a unit. *)
Lemma round_nearest_even_shifted (m0 P : Z) (mrs : shr_record) :
  0 < P -> shifted m0 P mrs ->
  let q := round_nearest_even (shr_m mrs) (loc_of_shr_record mrs) in
  shr_m mrs <= q <= shr_m mrs + 1
  /\ - P <= 2 * (q * P - m0) <= P.
Proof.
  destruct mrs as [m r s]. intros HP [Hm [rem [E [Hrem [Hr Hs]]]]].
  cbn [shr_m shr_r shr_s] in *.
  destruct r, s; cbn [loc_of_shr_record round_nearest_even].
  - assert (P <= 2 * rem) by now apply Hr.
    assert (rem <> 0 /\ 2 * rem <> P) by now apply Hs. nia.
  - assert (P <= 2 * rem) by now apply Hr.
    assert (2 * rem = P).
    { destruct (Z.eq_dec (2 * rem) P); [assumption|].
      assert (false = true) by (apply Hs; lia). discriminate. }
    destruct (Z.even m); nia.
  - assert (~ P <= 2 * rem) by (intros C; apply Hr in C; discriminate). nia.
  - assert (~ P <= 2 * rem) by (intros C; apply Hr in C; discriminate). nia.
Qed.

Lemma shr_fexp_aligned (m : positive) (e : Z) :
  Zpos (digits2_pos m) = 53 -> -1074 <= e ->
  shr_fexp 53 1024 (Zpos m) e loc_Exact
  = (Build_shr_record (Zpos m) false false, e).
Proof.
  intros Hd He. unfold shr_fexp, fexp, emin, Zdigits2. rewrite Hd.
  replace (Z.max (53 + e - 53) (3 - 1024 - 53) - e) with 0 by lia.
  reflexivity.
Qed.

(** A mantissa of 53 digits is kept as it is. *)
Lemma binary_round_aux_aligned (s : bool) (m : positive) (e : Z) :
  Zpos (digits2_pos m) = 53 -> -1074 <= e <= 971 ->
  binary_round_aux 53 1024 s (Zpos m) e loc_Exact = S754_finite s m e.
Proof.
  intros Hd He. unfold binary_round_aux.
  rewrite shr_fexp_aligned by (assumption || lia).
  cbn [shr_m loc_of_shr_record round_nearest_even].
  rewrite shr_fexp_aligned by (assumption || lia).
  cbn [shr_m].
  replace (e <=? 1024 - 53) with true by (symmetry; apply Z.leb_le; lia).
  reflexivity.
Qed.

Lemma shr_fexp_shift (m : positive) (e : Z) :
  let n := Zpos (digits2_pos m) - 53 in
  0 < n -> -1074 <= e + n ->
  exists mrs,
    shr_fexp 53 1024 (Zpos m) e loc_Exact = (mrs, e + n)
    /\ shifted (Zpos m) (2 ^ n) mrs.
Proof.
  intros n Hn He. unfold shr_fexp, fexp, emin, Zdigits2.
  replace (Z.max (Zpos (digits2_pos m) + e - 53) (3 - 1024 - 53) - e)
    with n by (unfold n in *; lia).
  destruct n as [|p|p] eqn:En; try lia.
  unfold shr. cbn [shr_record_of_loc]. eexists. split; [reflexivity|].
  rewrite iter_pos_nat, <- (positive_nat_Z p).
  apply shifted_iter. lia.
Qed.

(** Rounding a product: the result is a finite number within 2^-53 of the
    exact value, in relative terms, and its mantissa has 53 digits. *)
Lemma binary_round_aux_nearest (m : positive) (e : Z) :
  let d := Zpos (digits2_pos m) in
  53 < d -> -1074 <= e + d - 53 -> e + d <= 1023 ->
  exists m' e',
    binary_round_aux 53 1024 false (Zpos m) e loc_Exact = S754_finite false m' e'
    /\ e + d - 53 <= e' <= e + d - 52
    /\ Zpos (digits2_pos m') = 53
    /\ - Zpos m <= 2 ^ 53 * (Zpos m' * 2 ^ (e' - e) - Zpos m) <= Zpos m.
Proof.
  intros d Hd Hlo Hhi. unfold binary_round_aux.
  destruct (shr_fexp_shift m e) as [mrs [-> Hsh]]; [fold d; lia | fold d; lia |].
  fold d in Hsh |- *. set (n := d - 53) in *.
  assert (HP : 0 < 2 ^ n) by (apply Z.pow_pos_nonneg; lia).
  pose proof (round_nearest_even_shifted _ _ _ HP Hsh) as [Hq Herr].
  cbv zeta in Hq, Herr.
  set (q := round_nearest_even (shr_m mrs) (loc_of_shr_record mrs)) in *.
  destruct Hsh as [Hm0 [rem [E [Hrem _]]]].
  pose proof (digits2_pos_bounds m) as [Blo Bhi]. fold d in Blo, Bhi.
  assert (E1 : 2 ^ (d - 1) = 2 ^ 52 * 2 ^ n).
  { rewrite <- Z.pow_add_r by lia. f_equal. unfold n. lia. }
  assert (E2 : 2 ^ d = 2 ^ 53 * 2 ^ n).
  { rewrite <- Z.pow_add_r by lia. f_equal. unfold n. lia. }
  rewrite E1 in Blo. rewrite E2 in Bhi.
  assert (Hq52 : 2 ^ 52 <= shr_m mrs < 2 ^ 53).
  { change (2 ^ 52) with 4503599627370496 in *.
    change (2 ^ 53) with 9007199254740992 in *.
    set (P := 2 ^ n) in *. clearbody P. nia. }
  assert (Hq' : 2 ^ 52 <= q <= 2 ^ 53) by lia.
  destruct (Z.eq_dec q (2 ^ 53)) as [Htop|Hin].
  - (* the carry reaches the next binade *)
    rewrite Htop.
    change (shr_fexp 53 1024 (2 ^ 53) (e + n) loc_Exact)
      with (shr (Build_shr_record (2 ^ 53) false false) (e + n)
              (fexp 53 1024 (54 + (e + n)) - (e + n))).
    unfold fexp, emin.
    replace (Z.max (54 + (e + n) - 53) (3 - 1024 - 53) - (e + n)) with 1 by lia.
    cbn [shr SpecFloat.iter_pos]. change (shr_1 (Build_shr_record (2 ^ 53) false false))
      with (Build_shr_record (2 ^ 52) false false).
    cbn [shr_m]. change (2 ^ 52) with (Zpos 4503599627370496).
    replace (e + n + 1 <=? 1024 - 53) with true by (symmetry; apply Z.leb_le; lia).
    exists 4503599627370496%positive, (e + n + 1).
    split; [reflexivity|]. split; [unfold n; lia|]. split; [reflexivity|].
    replace (e + n + 1 - e) with (Z.succ n) by lia.
    rewrite Z.pow_succ_r by lia.
    change (2 ^ 53) with 9007199254740992 in *.
    change (2 ^ 52) with 4503599627370496 in *.
    set (P := 2 ^ n) in *. clearbody P. nia.
  - destruct q as [|qp|qp] eqn:Eq; try (exfalso; change (2 ^ 52) with 4503599627370496 in *; lia).
    assert (Hdq : Zpos (digits2_pos qp) = 53).
    { apply digits2_pos_unique; [|lia]. change (53 - 1) with 52. lia. }
    rewrite shr_fexp_aligned by (assumption || lia).
    cbn [shr_m].
    replace (e + n <=? 1024 - 53) with true by (symmetry; apply Z.leb_le; lia).
    exists qp, (e + n). split; [reflexivity|]. split; [unfold n; lia|].
    split; [assumption|].
    replace (e + n - e) with n by lia.
    change (2 ^ 53) with 9007199254740992 in *.
    change (2 ^ 52) with 4503599627370496 in *.
    set (P := 2 ^ n) in *. clearbody P. nia.
Qed.

Lemma iter_xO_spec (p k : positive) :
  Zpos (Pos.iter xO p k) = Zpos p * 2 ^ Zpos k
  /\ Zpos (digits2_pos (Pos.iter xO p k)) = Zpos (digits2_pos p) + Zpos k.
Proof.
  induction k as [|k [IH1 IH2]] using Pos.peano_ind.
  - simpl Pos.iter. change (2 ^ 1) with 2. cbn [digits2_pos].
    rewrite Pos2Z.inj_succ. change (Zpos p~0) with (2 * Zpos p). lia.
  - rewrite Pos.iter_succ. cbn [digits2_pos].
    rewrite !Pos2Z.inj_succ, Z.pow_succ_r by lia.
    change (Zpos (Pos.iter xO p k)~0) with (2 * Zpos (Pos.iter xO p k)).
    rewrite IH1, IH2. lia.
Qed.

(** An integer below 2^53 is a number: the mantissa is the integer shifted
    to 53 digits. *)
Lemma of_Z_exact (z : positive) :
  Zpos z < 2 ^ 53 ->
  exists m e,
    Binary64.of_Z (Zpos z) = S754_finite false m e
    /\ Zpos (digits2_pos m) = 53
    /\ e = Zpos (digits2_pos z) - 53 /\ -52 <= e <= 0
    /\ Zpos m = Zpos z * 2 ^ (- e).
Proof.
  intros Hz. unfold Binary64.of_Z, binary_normalize, binary_round.
  pose proof (digits2_pos_bounds z) as [Blo Bhi].
  assert (Hd : Zpos (digits2_pos z) <= 53).
  { destruct (Z.le_gt_cases (Zpos (digits2_pos z)) 53) as [H|H]; [exact H|].
    assert (2 ^ 53 <= 2 ^ (Zpos (digits2_pos z) - 1)) by (apply Z.pow_le_mono_r; lia).
    lia. }
  unfold fexp, emin, Binary64.prec, Binary64.emax.
  replace (Z.max (Zpos (digits2_pos z) + 0 - 53) (3 - 1024 - 53))
    with (Zpos (digits2_pos z) - 53) by lia.
  unfold shl_align.
  destruct (Zpos (digits2_pos z) - 53 - 0) as [|k|k] eqn:Ek; try lia.
  - rewrite binary_round_aux_aligned by lia.
    exists z, 0. repeat split; try lia.
  - destruct (iter_xO_spec z k) as [I1 I2].
    rewrite binary_round_aux_aligned by lia.
    exists (Pos.iter xO z k), (Zpos (digits2_pos z) - 53).
    split; [reflexivity|]. split; [lia|]. split; [lia|]. split; [lia|].
    rewrite I1. f_equal. f_equal. lia.
Qed.

End Rounding.

Section Values.

Local Open Scope Q_scope.


Lemma pow2_pos (e : Z) : 0 < (2 # 1) ^ e.
Proof. apply Qpower_0_lt. reflexivity. Qed.

Lemma pow2_add (a b : Z) : (2 # 1) ^ (a + b) == (2 # 1) ^ a * (2 # 1) ^ b.
Proof. apply Qpower_plus. discriminate. Qed.

Lemma pow2_inject (k : Z) : (0 <= k)%Z -> inject_Z (2 ^ k) == (2 # 1) ^ k.
Proof. intros H. now rewrite Zpower_Qpower. Qed.

Lemma to_Q_finite (m : positive) (e : Z) :
  exists q, Binary64.to_Q (S754_finite false m e) = Some q /\ q == value_of m e.
Proof.
  eexists. split; [reflexivity|]. unfold value_of. ring.
Qed.

Lemma value_of_pos (m : positive) (e : Z) : 0 < value_of m e.
Proof.
  unfold value_of. apply Qmult_lt_0_compat; [reflexivity | apply pow2_pos].
Qed.

Lemma of_Z_value (z : positive) :
  (Zpos z < 2 ^ 53)%Z ->
  exists m e,
    Binary64.of_Z (Zpos z) = S754_finite false m e
    /\ Zpos (digits2_pos m) = 53%Z
    /\ e = (Zpos (digits2_pos z) - 53)%Z /\ (-52 <= e <= 0)%Z
    /\ value_of m e == inject_Z (Zpos z).
Proof.
  intros Hz. destruct (of_Z_exact z Hz) as [m [e [E [Hd [Hde [He Hm]]]]]].
  exists m, e. repeat split; try assumption; try lia.
  unfold value_of. rewrite Hm, inject_Z_mult, pow2_inject by lia.
  rewrite <- Qmult_assoc, <- pow2_add.
  replace (- e + e)%Z with 0%Z by lia. simpl. ring.
Qed.


(** The product of two positive normal numbers, when it stays in range: a
    positive normal number within 2^-53 of the exact product, relatively. *)
Lemma mul_value (mx my : positive) (ex ey : Z) :
  Zpos (digits2_pos mx) = 53%Z -> Zpos (digits2_pos my) = 53%Z ->
  (-1126 <= ex + ey)%Z -> (ex + ey <= 917)%Z ->
  exists mr er,
    Binary64.mul (S754_finite false mx ex) (S754_finite false my ey)
    = S754_finite false mr er
    /\ Zpos (digits2_pos mr) = 53%Z
    /\ (ex + ey + 52 <= er <= ex + ey + 54)%Z
    /\ (1 - ulp_rel) * (value_of mx ex * value_of my ey) <= value_of mr er
    /\ value_of mr er <= (1 + ulp_rel) * (value_of mx ex * value_of my ey).
Proof.
  intros Hdx Hdy Hlo Hhi.
  unfold Binary64.mul, SFmul. cbn [xorb].
  pose proof (digits2_pos_bounds mx) as Bx. rewrite Hdx in Bx.
  pose proof (digits2_pos_bounds my) as By. rewrite Hdy in By.
  change (2 ^ (53 - 1))%Z with 4503599627370496%Z in Bx, By.
  change (2 ^ 53)%Z with 9007199254740992%Z in Bx, By.
  pose proof (digits2_pos_bounds (mx * my)) as Bxy.
  set (d := Zpos (digits2_pos (mx * my))) in *.
  assert (Hd : (105 <= d <= 106)%Z).
  { rewrite Pos2Z.inj_mul in Bxy. split.
    - destruct (Z.le_gt_cases 105 d) as [H|H]; [exact H|].
      assert (2 ^ d <= 2 ^ 104)%Z by (apply Z.pow_le_mono_r; lia).
      change (2 ^ 104)%Z with (4503599627370496 * 4503599627370496)%Z in *. nia.
    - destruct (Z.le_gt_cases d 106) as [H|H]; [exact H|].
      assert (2 ^ 106 <= 2 ^ (d - 1))%Z by (apply Z.pow_le_mono_r; lia).
      change (2 ^ 106)%Z with (9007199254740992 * 9007199254740992)%Z in *. nia. }
  destruct (binary_round_aux_nearest (mx * my) (ex + ey)) as [mr [er [E [He [Hdr Herr]]]]];
    fold d; try lia.
  fold d in He.
  exists mr, er. split; [exact E|]. split; [exact Hdr|]. split; [lia|].
  assert (Hq : - inject_Z (Zpos (mx * my))
               <= inject_Z (2 ^ 53) * (inject_Z (Zpos mr * 2 ^ (er - (ex + ey)))
                                        - inject_Z (Zpos (mx * my)))
               <= inject_Z (Zpos (mx * my))).
  { rewrite <- inject_Z_opp. unfold Qminus.
    rewrite <- inject_Z_opp, <- inject_Z_plus, <- inject_Z_mult, <- !Zle_Qle.
    exact Herr. }
  assert (Ev : value_of mr er
               == inject_Z (Zpos mr * 2 ^ (er - (ex + ey))) * (2 # 1) ^ (ex + ey)).
  { unfold value_of. rewrite inject_Z_mult, pow2_inject by lia.
    rewrite <- Qmult_assoc, <- pow2_add.
    now replace (er - (ex + ey) + (ex + ey))%Z with er by lia. }
  assert (Ep : value_of mx ex * value_of my ey
               == inject_Z (Zpos (mx * my)) * (2 # 1) ^ (ex + ey)).
  { unfold value_of. rewrite Pos2Z.inj_mul, inject_Z_mult, pow2_add. ring. }
  rewrite Ev, Ep.
  pose proof (pow2_pos (ex + ey)) as Ht.
  set (t := (2 # 1) ^ (ex + ey)) in *. clearbody t.
  set (w := inject_Z (Zpos mr * 2 ^ (er - (ex + ey)))) in *. clearbody w.
  set (M := inject_Z (Zpos (mx * my))) in *. clearbody M.
  change (inject_Z (2 ^ 53)) with (9007199254740992 # 1) in Hq.
  unfold ulp_rel.
  assert (H1 : (1 - (1 # 9007199254740992)) * M <= w) by lra.
  assert (H2 : w <= (1 + (1 # 9007199254740992)) * M) by lra.
  split.
  - rewrite Qmult_assoc. apply Qmult_le_compat_r; [exact H1 | lra].
  - rewrite Qmult_assoc. apply Qmult_le_compat_r; [exact H2 | lra].
Qed.

End Values.

(** ** Audio Synthesis Adapter *)

Lemma typed_array_set_same {A} (i n : nat) (v : A) :
  typed_array_set i v (repeat v n) = repeat v n.
Proof.
  revert i. induction n as [|n IH]; intros [|i]; simpl; try reflexivity.
  now rewrite IH.
Qed.

Lemma fill_silence_silent (length : Binary64.number) (n : nat) :
  fill_silence length (repeat Binary64.zero n) = repeat Binary64.zero n.
Proof.
  unfold fill_silence.
  induction (seq 0 (Z.to_nat (Binary64.to_integer length))) as [|i l IH]; simpl.
  - reflexivity.
  - now rewrite typed_array_set_same.
Qed.


Lemma generateSegmentAudio_eval (text voice : jsstring) :
  generateSegmentAudio text voice
  = let n := Binary64.to_unsigned_long (requested_frames text) in
    if (1 <=? n)%Z
    then Return (mkAudioBuffer 1 n 24000 [repeat Binary64.zero (Z.to_nat n)])
    else Throw NotSupportedError.
Proof.
  unfold generateSegmentAudio, createBuffer. fold (requested_frames text).
  cbv zeta. change (1 <=? 1)%Z with true. change (1 <=? 32)%Z with true.
  change (8000 <=? 24000)%Z with true. change (24000 <=? 96000)%Z with true.
  rewrite !andb_true_r, andb_true_l.
  destruct (1 <=? Binary64.to_unsigned_long (requested_frames text))%Z;
    [|reflexivity].
  change (Z.to_nat 1) with 1%nat. cbn [repeat bind try_catch].
  unfold getChannelData. cbn [channelData nth_error bind try_catch].
  unfold setChannelData. cbn [channelData typed_array_set numberOfChannels frames sampleRate].
  now rewrite fill_silence_silent.
Qed.

Section Frames.

Local Open Scope Q_scope.

Lemma to_Q_of_Z (z : positive) :
  (Zpos z < 2 ^ 53)%Z ->
  exists q, Binary64.to_Q (Binary64.of_Z (Zpos z)) = Some q /\ q == inject_Z (Zpos z).
Proof.
  intros Hz. destruct (of_Z_value z Hz) as [m [e [-> [_ [_ [_ Hv]]]]]].
  destruct (to_Q_finite m e) as [q [Hq Eq]].
  exists q. split; [exact Hq|]. now rewrite Eq.
Qed.

Lemma to_unsigned_long_of_Z (z : positive) :
  (Zpos z < 2 ^ 32)%Z ->
  Binary64.to_unsigned_long (Binary64.of_Z (Zpos z)) = Zpos z
  /\ Binary64.to_integer (Binary64.of_Z (Zpos z)) = Zpos z.
Proof.
  intros Hz.
  destruct (to_Q_of_Z z) as [q [Hq Eq]].
  { assert (2 ^ 32 < 2 ^ 53)%Z by reflexivity. lia. }
  unfold Binary64.to_unsigned_long, Binary64.to_integer. rewrite Hq.
  assert (Hf : Qfloor q = Zpos z) by (rewrite Eq; apply Qfloor_Z).
  assert (Hle : Qle_bool 0 q = true).
  { apply Qle_bool_iff. rewrite Eq. unfold Qle; simpl; lia. }
  assert (Heq : Qeq_bool (inject_Z (Qfloor q)) q = true).
  { apply Qeq_bool_iff. now rewrite Hf, Eq. }
  rewrite Hle, Heq, Hf. split; [|reflexivity].
  apply Z.mod_small. lia.
Qed.

Lemma value_0_08 :
  value_of 5764607523034235 (-56) == 5764607523034235 # 72057594037927936.
Proof. reflexivity. Qed.

Lemma of_Z_24000 :
  Binary64.of_Z 24000 = S754_finite false 6597069766656000 (-38)
  /\ value_of 6597069766656000 (-38) == 24000.
Proof. split; reflexivity. Qed.

(** The frame count for a text of [len] code units, as long as it fits an
    [unsigned long]: the two roundings of the products leave the floor at
    1920 * len or one below. *)
Lemma requested_frames_bounds (text : jsstring) :
  text <> [] -> (1920 * Z.of_nat (length text) < 2 ^ 32)%Z ->
  exists n : positive,
    requested_frames text = Binary64.of_Z (Zpos n)
    /\ (1920 * Z.of_nat (length text) - 1 <= Zpos n <= 1920 * Z.of_nat (length text))%Z.
Proof.
  intros Hne Hfit. unfold requested_frames, Binary64.of_nat.
  destruct (Z.of_nat (length text)) as [|L|L] eqn:EL;
    [destruct text; [contradiction | discriminate] | | lia].
  change (2 ^ 32)%Z with 4294967296%Z in Hfit.
  destruct (of_Z_value L) as [mL [eL [-> [HdL [HeL [_ HvL]]]]]].
  { change (2 ^ 53)%Z with 9007199254740992%Z. lia. }
  assert (HeL' : (eL <= -31)%Z).
  { pose proof (digits2_pos_bounds L) as [Blo _].
    destruct (Z.le_gt_cases (Zpos (digits2_pos L)) 22) as [H|H]; [lia|].
    assert (2 ^ 22 <= 2 ^ (Zpos (digits2_pos L) - 1))%Z by (apply Z.pow_le_mono_r; lia).
    change (2 ^ 22)%Z with 4194304%Z in *. lia. }
  assert (HeL'' : (-52 <= eL)%Z) by lia.
  unfold Binary64.lit_0_08.
  destruct (mul_value mL 5764607523034235 eL (-56)) as [m1 [e1 [-> [Hd1 [He1 [Lo1 Hi1]]]]]];
    try reflexivity; try lia.
  destruct of_Z_24000 as [-> Hv24].
  destruct (mul_value 6597069766656000 m1 (-38) e1) as [m2 [e2 [-> [Hd2 [He2 [Lo2 Hi2]]]]]];
    try reflexivity; try assumption; try lia.
  rewrite HvL, value_0_08 in Lo1, Hi1. rewrite Hv24 in Lo2, Hi2.
  unfold ulp_rel in *.
  assert (HLq : 1 <= inject_Z (Zpos L) <= 2236962).
  { split.
    - change 1 with (inject_Z 1). rewrite <- Zle_Qle. lia.
    - change 2236962 with (inject_Z 2236962). rewrite <- Zle_Qle. lia. }
  remember (inject_Z (Zpos L)) as Lq eqn:ELq.
  set (v1 := value_of m1 e1) in *. clearbody v1.
  set (v2 := value_of m2 e2) in *.
  assert (Hlow : 1920 * Lq - 1 < v2) by lra.
  assert (Hhigh : v2 < 1920 * Lq + 1) by lra.
  unfold Binary64.Math_floor, Binary64.round_to_integer.
  replace (0 <=? e2)%Z with false by (symmetry; apply Z.leb_gt; lia).
  destruct (to_Q_finite m2 e2) as [q [-> Eq]]. fold v2 in Eq.
  assert (F1 : inject_Z (Qfloor q) <= v2) by (rewrite <- Eq; apply Qfloor_le).
  assert (F2 : v2 < inject_Z (Qfloor q + 1)) by (rewrite <- Eq; apply Qlt_floor).
  assert (B : (1920 * Zpos L - 1 <= Qfloor q <= 1920 * Zpos L)%Z).
  { split.
    - assert (inject_Z (1920 * Zpos L - 1) < inject_Z (Qfloor q + 1)) as H.
      { unfold Z.sub. rewrite inject_Z_plus, inject_Z_mult.
        change (inject_Z (- (1))) with (-1). change (inject_Z 1920) with 1920.
        rewrite <- ELq. lra. }
      rewrite <- Zlt_Qlt in H. lia.
    - assert (inject_Z (Qfloor q) < inject_Z (1920 * Zpos L + 1)) as H.
      { rewrite inject_Z_plus, inject_Z_mult.
        change (inject_Z 1) with 1. change (inject_Z 1920) with 1920.
        rewrite <- ELq. lra. }
      rewrite <- Zlt_Qlt in H. lia. }
  destruct (Qfloor q) as [|n|n] eqn:En; try lia.
  exists n. split; [reflexivity | lia].
Qed.

End Frames.

(** C8, as amended.  For every non-empty narration text whose frame count
    fits the [unsigned long] that [createBuffer] takes, the synthesis
    stand-in returns a buffer of silence with one channel and a sample rate
    of 24000 Hz.  Its frame length is the floor of the binary64 product
    24000 * (length * 0.08); with the two roundings of that product it is
    1920 * length or one frame less, so the duration follows the length of
    the text to within one frame. *)
Theorem generateSegmentAudio_buffer (text voice : jsstring) :
  text <> [] -> (1920 * Z.of_nat (length text) < 2 ^ 32)%Z ->
  exists b,
    generateSegmentAudio text voice = Return b
    /\ numberOfChannels b = 1%Z
    /\ sampleRate b = 24000%Z
    /\ frames b = Binary64.to_integer (requested_frames text)
    /\ (1920 * Z.of_nat (length text) - 1 <= frames b
        <= 1920 * Z.of_nat (length text))%Z
    /\ channelData b = [repeat Binary64.zero (Z.to_nat (frames b))].
Proof.
  intros Hne Hfit.
  destruct (requested_frames_bounds text Hne Hfit) as [n [En Hn]].
  destruct (to_unsigned_long_of_Z n) as [Hu Hi]; [lia|].
  rewrite generateSegmentAudio_eval. cbv zeta. rewrite En, Hu, Hi.
  replace (1 <=? Zpos n)%Z with true by (symmetry; apply Z.leb_le; lia).
  eexists. split; [reflexivity|]. cbn [numberOfChannels sampleRate frames channelData].
  repeat split; lia.
Qed.

Lemma generateSegmentAudio_buffer_witness :
  exists b,
    generateSegmentAudio (lit "Once upon a time.") (lit "Kore") = Return b
    /\ numberOfChannels b = 1%Z
    /\ sampleRate b = 24000%Z
    /\ frames b = Binary64.to_integer (requested_frames (lit "Once upon a time."))
    /\ (1920 * Z.of_nat (length (lit "Once upon a time.")) - 1 <= frames b
        <= 1920 * Z.of_nat (length (lit "Once upon a time.")))%Z
    /\ channelData b = [repeat Binary64.zero (Z.to_nat (frames b))].
Proof.
  apply (generateSegmentAudio_buffer (lit "Once upon a time.") (lit "Kore")).
  - discriminate.
  - reflexivity.
Defined.

(** C8, as stated, fails: for a text of 29 code units the buffer has 55679
    frames, one less than floor(24000 * 0.08 * 29) = 55680; and for the
    empty text no buffer is returned at all. *)
Lemma generateSegmentAudio_frames_not_exact :
  let text := lit "Once upon a time in the city." in
  length text = 29%nat
  /\ (exists b, generateSegmentAudio text (lit "Kore") = Return b
                /\ frames b = 55679%Z)
  /\ Qfloor (24000 * (8 # 100) * inject_Z (Z.of_nat (length text))) = 55680%Z
  /\ generateSegmentAudio [] (lit "Kore") = Throw NotSupportedError.
Proof.
  cbv zeta. split; [reflexivity|]. split; [|split].
  - rewrite generateSegmentAudio_eval. cbv zeta.
    assert (E : Binary64.to_unsigned_long
                  (requested_frames (lit "Once upon a time in the city."))
                = 55679%Z) by (vm_compute; reflexivity).
    rewrite E. change (1 <=? 55679)%Z with true. cbv iota.
    eexists. split; reflexivity.
  - vm_compute. reflexivity.
  - rewrite generateSegmentAudio_eval. vm_compute. reflexivity.
Qed.

(* ================================================================== *)
(** * Further properties *)
(* ================================================================== *)

(** ** Division in binary64 *)

Section Division.

Local Open Scope Z_scope.

Lemma shifted_iter_from (m0 P : Z) (mrs : shr_record) (n : nat) :
  0 < P -> shifted m0 P mrs ->
  shifted m0 (P * 2 ^ Z.of_nat n) (Nat.iter n shr_1 mrs).
Proof.
  intros HP H. induction n as [|n IH].
  - change (2 ^ Z.of_nat 0) with 1. rewrite Z.mul_1_r. exact H.
  - rewrite Nat2Z.inj_succ, Z.pow_succ_r by lia. simpl Nat.iter.
    replace (P * (2 * 2 ^ Z.of_nat n)) with (2 * (P * 2 ^ Z.of_nat n)) by lia.
    apply shifted_step; [|exact IH].
    assert (0 < 2 ^ Z.of_nat n) by (apply Z.pow_pos_nonneg; lia). nia.
Qed.

(** The remainder of a division, as [new_location] records it. *)
Lemma new_location_shifted (m0 d q r : Z) :
  Z.even d = true -> 0 < d -> m0 = q * d + r -> 0 <= r < d -> 0 <= q ->
  shifted m0 d (shr_record_of_loc q (new_location d r)).
Proof.
  intros Hev Hd E Hr Hq. unfold new_location, new_location_even. rewrite Hev.
  destruct (Z.eqb_spec r 0) as [->|Hr0].
  - split; [exact Hq|]. exists 0. cbn [shr_record_of_loc shr_m shr_r shr_s].
    repeat split; try lia; try discriminate.
  - destruct (Z.compare_spec (2 * r) d) as [Hc|Hc|Hc];
      (split; [exact Hq|]); exists r;
      cbn [shr_record_of_loc shr_m shr_r shr_s];
      repeat split; try lia; try discriminate; try reflexivity.
Qed.

(** Rounding a quotient whose integer part has 53 or 54 digits. *)
Lemma binary_round_aux_located (m0 P : Z) (m : positive) (e : Z) (loc : location) :
  let d := Zpos (digits2_pos m) in
  0 < P -> shifted m0 P (shr_record_of_loc (Zpos m) loc) ->
  53 <= d -> -1074 <= e + d - 53 -> e + d <= 1023 ->
  exists m' e',
    binary_round_aux 53 1024 false (Zpos m) e loc = S754_finite false m' e'
    /\ e + d - 53 <= e' <= e + d - 52
    /\ Zpos (digits2_pos m') = 53
    /\ - (P * 2 ^ (e' - e)) <= 2 * (Zpos m' * (P * 2 ^ (e' - e)) - m0)
       <= P * 2 ^ (e' - e).
Proof.
  intros d HP Hstart Hd Hlo Hhi. unfold binary_round_aux.
  set (n := d - 53).
  assert (Hfirst : exists mrs,
             shr_fexp 53 1024 (Zpos m) e loc = (mrs, e + n)
             /\ shifted m0 (P * 2 ^ n) mrs).
  { unfold shr_fexp, fexp, emin, Zdigits2. fold d.
    replace (Z.max (d + e - 53) (3 - 1024 - 53) - e) with n by (unfold n; lia).
    destruct n as [|p|p] eqn:En; try (unfold n in En; lia).
    - exists (shr_record_of_loc (Zpos m) loc). unfold shr.
      rewrite Z.add_0_r. change (2 ^ 0) with 1. rewrite Z.mul_1_r.
      split; [reflexivity | exact Hstart].
    - unfold shr. eexists. split; [reflexivity|].
      rewrite iter_pos_nat, <- (positive_nat_Z p).
      now apply shifted_iter_from. }
  destruct Hfirst as [mrs [-> Hsh]].
  assert (Hn : 0 <= n) by (unfold n; lia).
  assert (HPn : 0 < P * 2 ^ n).
  { assert (0 < 2 ^ n) by (apply Z.pow_pos_nonneg; lia). nia. }
  pose proof (round_nearest_even_shifted _ _ _ HPn Hsh) as [Hq Herr].
  cbv zeta in Hq, Herr.
  set (q := round_nearest_even (shr_m mrs) (loc_of_shr_record mrs)) in *.
  assert (Hq52 : 2 ^ 52 <= shr_m mrs < 2 ^ 53).
  { destruct Hsh as [Hm0 [rem [E [Hrem _]]]].
    destruct Hstart as [_ [rem0 [E0 [Hrem0 _]]]].
    cbn [shr_record_of_loc shr_m] in E0.
    assert (Em : shr_m (shr_record_of_loc (Zpos m) loc) = Zpos m)
      by (destruct loc as [|[]]; reflexivity).
    rewrite Em in E0.
    pose proof (digits2_pos_bounds m) as [Blo Bhi]. fold d in Blo, Bhi.
    assert (E1 : 2 ^ (d - 1) = 2 ^ 52 * 2 ^ n).
    { rewrite <- Z.pow_add_r by lia. f_equal. unfold n. lia. }
    assert (E2 : 2 ^ d = 2 ^ 53 * 2 ^ n).
    { rewrite <- Z.pow_add_r by lia. f_equal. unfold n. lia. }
    rewrite E1 in Blo. rewrite E2 in Bhi.
    change (2 ^ 52) with 4503599627370496 in *.
    change (2 ^ 53) with 9007199254740992 in *.
    assert (0 < 2 ^ n) by (apply Z.pow_pos_nonneg; lia).
    set (N := 2 ^ n) in *. clearbody N.
    set (s := shr_m mrs) in *. clearbody s.
    assert (Hs1 : s * N <= Zpos m < (s + 1) * N).
    { split.
      - destruct (Z.le_gt_cases (s * N) (Zpos m)) as [H'|H']; [exact H'|exfalso].
        assert ((Zpos m + 1) * P <= s * N * P)
          by (apply Z.mul_le_mono_nonneg_r; lia).
        lia.
      - destruct (Z.le_gt_cases ((s + 1) * N) (Zpos m)) as [H'|H']; [exfalso|lia].
        assert ((s + 1) * N * P <= Zpos m * P)
          by (apply Z.mul_le_mono_nonneg_r; lia).
        lia. }
    split.
    - destruct (Z.le_gt_cases 4503599627370496 s) as [H'|H']; [exact H'|exfalso].
      assert ((s + 1) * N <= 4503599627370496 * N)
        by (apply Z.mul_le_mono_nonneg_r; lia).
      lia.
    - destruct (Z.le_gt_cases 9007199254740992 s) as [H'|H']; [exfalso|exact H'].
      assert (9007199254740992 * N <= s * N)
        by (apply Z.mul_le_mono_nonneg_r; lia).
      lia. }
  assert (Hq' : 2 ^ 52 <= q <= 2 ^ 53) by lia.
  destruct (Z.eq_dec q (2 ^ 53)) as [Htop|Hin].
  - rewrite Htop.
    change (shr_fexp 53 1024 (2 ^ 53) (e + n) loc_Exact)
      with (shr (Build_shr_record (2 ^ 53) false false) (e + n)
              (fexp 53 1024 (54 + (e + n)) - (e + n))).
    unfold fexp, emin.
    replace (Z.max (54 + (e + n) - 53) (3 - 1024 - 53) - (e + n)) with 1
      by (unfold n; lia).
    cbn [shr SpecFloat.iter_pos].
    change (shr_1 (Build_shr_record (2 ^ 53) false false))
      with (Build_shr_record (2 ^ 52) false false).
    cbn [shr_m]. change (2 ^ 52) with (Zpos 4503599627370496).
    replace (e + n + 1 <=? 1024 - 53) with true
      by (symmetry; apply Z.leb_le; unfold n; lia).
    exists 4503599627370496%positive, (e + n + 1).
    split; [reflexivity|]. split; [unfold n; lia|]. split; [reflexivity|].
    replace (e + n + 1 - e) with (Z.succ n) by lia.
    rewrite Z.pow_succ_r by lia.
    rewrite Htop in Herr.
    change (2 ^ 53) with 9007199254740992 in *.
    set (N := 2 ^ n) in *. clearbody N. lia.
  - destruct q as [|qp|qp] eqn:Eq;
      try (exfalso; change (2 ^ 52) with 4503599627370496 in *; lia).
    assert (Hdq : Zpos (digits2_pos qp) = 53).
    { apply digits2_pos_unique; [|lia]. change (53 - 1) with 52. lia. }
    rewrite shr_fexp_aligned by (assumption || (unfold n; lia)).
    cbn [shr_m].
    replace (e + n <=? 1024 - 53) with true
      by (symmetry; apply Z.leb_le; unfold n; lia).
    exists qp, (e + n). split; [reflexivity|]. split; [unfold n; lia|].
    split; [assumption|].
    replace (e + n - e) with n by lia. lia.
Qed.

Lemma of_Z_60 :
  Binary64.of_nat TARGET_SEGMENT_DURATION_SEC
  = S754_finite false 8444249301319680 (-47).
Proof. reflexivity. Qed.

(** Division by 60 of a normal number below 2^53: the quotient is a
    normal number [m' * 2^(e - t)] with t = 5 or 6, the integer nearest to
    the exact quotient at that scale. *)
Lemma div_60 (mx : positive) (ex : Z) :
  Zpos (digits2_pos mx) = 53 -> -1068 <= ex <= 0 ->
  exists m' t,
    (t = 5 \/ t = 6)
    /\ Binary64.div (S754_finite false mx ex)
         (S754_finite false 8444249301319680 (-47))
       = S754_finite false m' (ex - t)
    /\ Zpos (digits2_pos m') = 53
    /\ -30 <= 60 * Zpos m' - Zpos mx * 2 ^ t <= 30.
Proof.
  intros Hdx Hex.
  unfold Binary64.div, SFdiv, SFdiv_core_binary. cbn [xorb].
  unfold Zdigits2. rewrite Hdx.
  change (Zpos (digits2_pos 8444249301319680)) with 53.
  unfold fexp, emin, Binary64.prec, Binary64.emax.
  replace (Z.min (Z.max (53 + ex - (53 + -47) - 53) (3 - 1024 - 53)) (ex - -47))
    with (ex - 6) by lia.
  replace (ex - -47 - (ex - 6)) with 53 by lia.
  rewrite Z.shiftl_mul_pow2 by lia.
  pose proof (digits2_pos_bounds mx) as Bx. rewrite Hdx in Bx.
  change (2 ^ (53 - 1)) with 4503599627370496 in Bx.
  change (2 ^ 53) with 9007199254740992 in *.
  pose proof (Z_div_mod (Zpos mx * 9007199254740992) 8444249301319680 eq_refl) as Hdm.
  destruct (Z.div_eucl (Zpos mx * 9007199254740992) 8444249301319680) as [q r].
  destruct Hdm as [Edm Hr].
  assert (Hq : 4503599627370496 <= q < 2 * 9007199254740992) by lia.
  destruct q as [|q|q]; try lia.
  pose proof (digits2_pos_bounds q) as Bq.
  assert (Hdq : 53 <= Zpos (digits2_pos q) <= 54).
  { split.
    - destruct (Z.le_gt_cases 53 (Zpos (digits2_pos q))) as [H|H]; [exact H|].
      assert (2 ^ Zpos (digits2_pos q) <= 2 ^ 52) by (apply Z.pow_le_mono_r; lia).
      change (2 ^ 52) with 4503599627370496 in *. lia.
    - destruct (Z.le_gt_cases (Zpos (digits2_pos q)) 54) as [H|H]; [exact H|].
      assert (2 ^ 54 <= 2 ^ (Zpos (digits2_pos q) - 1)) by (apply Z.pow_le_mono_r; lia).
      change (2 ^ 54) with 18014398509481984 in *. lia. }
  destruct (binary_round_aux_located (Zpos mx * 9007199254740992)
              8444249301319680 q (ex - 6) (new_location 8444249301319680 r))
    as [m' [e' [E [He' [Hd' Herr]]]]]; try lia.
  { apply new_location_shifted; try reflexivity; lia. }
  rewrite E. clear E.
  pose proof (digits2_pos_bounds m') as Bm. rewrite Hd' in Bm.
  change (2 ^ (53 - 1)) with 4503599627370496 in Bm.
  change (2 ^ 53) with 9007199254740992 in Bm.
  assert (Hu : e' - (ex - 6) = 0 \/ e' - (ex - 6) = 1 \/ e' - (ex - 6) = 2) by lia.
  destruct Hu as [Hu|[Hu|Hu]]; rewrite Hu in Herr.
  - exists m', 6. split; [now right|].
    replace (ex - 6) with e' by lia. split; [reflexivity|]. split; [assumption|].
    change (2 ^ 0) with 1 in Herr. change (2 ^ 6) with 64. lia.
  - exists m', 5. split; [now left|].
    replace (ex - 5) with e' by lia. split; [reflexivity|]. split; [assumption|].
    change (2 ^ 1) with 2 in Herr. change (2 ^ 5) with 32. lia.
  - exfalso. change (2 ^ 2) with 4 in Herr. lia.
Qed.

Lemma of_Z_3600 :
  Binary64.of_Z 3600 = S754_finite false 7916483719987200 (-41).
Proof. reflexivity. Qed.

(** Division by 3600 of a normal number below 2^53: the quotient is a
    normal number [m' * 2^(e - t)] with t = 11 or 12, the integer nearest to
    the exact quotient at that scale. *)
Lemma div_3600 (mx : positive) (ex : Z) :
  Zpos (digits2_pos mx) = 53 -> -1000 <= ex <= 0 ->
  exists m' t,
    (t = 11 \/ t = 12)
    /\ Binary64.div (S754_finite false mx ex)
         (S754_finite false 7916483719987200 (-41))
       = S754_finite false m' (ex - t)
    /\ Zpos (digits2_pos m') = 53
    /\ -1800 <= 3600 * Zpos m' - Zpos mx * 2 ^ t <= 1800.
Proof.
  intros Hdx Hex.
  unfold Binary64.div, SFdiv, SFdiv_core_binary. cbn [xorb].
  unfold Zdigits2. rewrite Hdx.
  change (Zpos (digits2_pos 7916483719987200)) with 53.
  unfold fexp, emin, Binary64.prec, Binary64.emax.
  replace (Z.min (Z.max (53 + ex - (53 + -41) - 53) (3 - 1024 - 53)) (ex - -41))
    with (ex - 12) by lia.
  replace (ex - -41 - (ex - 12)) with 53 by lia.
  rewrite Z.shiftl_mul_pow2 by lia.
  pose proof (digits2_pos_bounds mx) as Bx. rewrite Hdx in Bx.
  change (2 ^ (53 - 1)) with 4503599627370496 in Bx.
  change (2 ^ 53) with 9007199254740992 in *.
  pose proof (Z_div_mod (Zpos mx * 9007199254740992) 7916483719987200 eq_refl) as Hdm.
  destruct (Z.div_eucl (Zpos mx * 9007199254740992) 7916483719987200) as [q r].
  destruct Hdm as [Edm Hr].
  assert (Hq : 4503599627370496 <= q < 2 * 9007199254740992) by lia.
  destruct q as [|q|q]; try lia.
  pose proof (digits2_pos_bounds q) as Bq.
  assert (Hdq : 53 <= Zpos (digits2_pos q) <= 54).
  { split.
    - destruct (Z.le_gt_cases 53 (Zpos (digits2_pos q))) as [H|H]; [exact H|].
      assert (2 ^ Zpos (digits2_pos q) <= 2 ^ 52) by (apply Z.pow_le_mono_r; lia).
      change (2 ^ 52) with 4503599627370496 in *. lia.
    - destruct (Z.le_gt_cases (Zpos (digits2_pos q)) 54) as [H|H]; [exact H|].
      assert (2 ^ 54 <= 2 ^ (Zpos (digits2_pos q) - 1)) by (apply Z.pow_le_mono_r; lia).
      change (2 ^ 54) with 18014398509481984 in *. lia. }
  destruct (binary_round_aux_located (Zpos mx * 9007199254740992)
              7916483719987200 q (ex - 12) (new_location 7916483719987200 r))
    as [m' [e' [E [He' [Hd' Herr]]]]]; try lia.
  { apply new_location_shifted; try reflexivity; lia. }
  rewrite E. clear E.
  pose proof (digits2_pos_bounds m') as Bm. rewrite Hd' in Bm.
  change (2 ^ (53 - 1)) with 4503599627370496 in Bm.
  change (2 ^ 53) with 9007199254740992 in Bm.
  assert (Hu : e' - (ex - 12) = 0 \/ e' - (ex - 12) = 1 \/ e' - (ex - 12) = 2) by lia.
  destruct Hu as [Hu|[Hu|Hu]]; rewrite Hu in Herr.
  - exists m', 12. split; [now right|].
    replace (ex - 12) with e' by lia. split; [reflexivity|]. split; [assumption|].
    change (2 ^ 0) with 1 in Herr. change (2 ^ 12) with 4096. lia.
  - exists m', 11. split; [now left|].
    replace (ex - 11) with e' by lia. split; [reflexivity|]. split; [assumption|].
    change (2 ^ 1) with 2 in Herr. change (2 ^ 11) with 2048. lia.
  - exfalso. change (2 ^ 2) with 4 in Herr. lia.
Qed.

End Division.

Section SizingBinary64.

Local Open Scope Q_scope.

Lemma Qceiling_same (a b : Q) :
  (forall c : Z, a <= inject_Z c <-> b <= inject_Z c) ->
  Qceiling a = Qceiling b.
Proof.
  intros H. apply Z.le_antisymm.
  - rewrite <- (Qceiling_Z (Qceiling b)). apply Qceiling_resp_le.
    apply H. apply Qle_ceiling.
  - rewrite <- (Qceiling_Z (Qceiling a)). apply Qceiling_resp_le.
    apply H. apply Qle_ceiling.
Qed.

(** Comparing a scaled integer with an integer. *)
Lemma scaled_le (a c k : Z) :
  (0 <= k)%Z ->
  inject_Z a * (2 # 1) ^ (- k) <= inject_Z c <-> (a <= c * 2 ^ k)%Z.
Proof.
  intros Hk.
  assert (HN : 0 < inject_Z (2 ^ k)).
  { change 0 with (inject_Z 0). rewrite <- Zlt_Qlt. apply Z.pow_pos_nonneg; lia. }
  rewrite Qpower_opp, <- pow2_inject by assumption.
  rewrite Zle_Qle, inject_Z_mult.
  rewrite <- (Qmult_le_r _ _ _ HN).
  assert (E : inject_Z a * / inject_Z (2 ^ k) * inject_Z (2 ^ k) == inject_Z a).
  { field. intros C. rewrite C in HN. discriminate. }
  now rewrite E.
Qed.

Lemma Math_max_of_Z (k : positive) :
  (Zpos k < 2 ^ 53)%Z ->
  Binary64.Math_max (Binary64.of_Z 1) (Binary64.of_Z (Zpos k))
  = Binary64.of_Z (Zpos k).
Proof.
  intros Hk. destruct (of_Z_exact k Hk) as [m [e [E [Hd [He [Hr Hm]]]]]].
  rewrite E. change (Binary64.of_Z 1) with (S754_finite false 4503599627370496 (-52)).
  unfold Binary64.Math_max, SFcompare.
  destruct (Z.compare_spec (-52) e) as [Heq|Hlt|Hgt]; try lia.
  - assert (Hk1 : k = 1%positive).
    { pose proof (digits2_pos_bounds k) as B.
      replace (Zpos (digits2_pos k)) with 1%Z in B by lia.
      change (2 ^ (1 - 1))%Z with 1%Z in B. change (2 ^ 1)%Z with 2%Z in B. lia. }
    assert (Hm' : Zpos m = 4503599627370496%Z).
    { rewrite Hm, Hk1, <- Heq. reflexivity. }
    assert (m = 4503599627370496%positive) by lia. subst m k.
    rewrite <- Heq. reflexivity.
  - reflexivity.
Qed.

(** The sizing expression in binary64, on a duration between 1 and 2^53
    seconds: the division is rounded, and the ceiling is still that of the
    exact quotient. *)
Lemma sizing_binary64_normal (mx : positive) (ex : Z) :
  Zpos (digits2_pos mx) = 53%Z -> (-1068 <= ex <= 0)%Z ->
  calculateTotalSegments (S754_finite false mx ex)
  = Binary64.of_Z (segmentCount (value_of mx ex)).
Proof.
  intros Hdx Hex. unfold calculateTotalSegments.
  rewrite of_Z_60.
  destruct (div_60 mx ex Hdx ltac:(lia)) as [m' [t [Ht [-> [Hd' Herr]]]]].
  pose proof (digits2_pos_bounds mx) as Bx. rewrite Hdx in Bx.
  change (2 ^ (53 - 1))%Z with 4503599627370496%Z in Bx.
  change (2 ^ 53)%Z with 9007199254740992%Z in Bx.
  assert (HE : (0 < 2 ^ (- ex))%Z) by (apply Z.pow_pos_nonneg; lia).
  assert (HE1 : (1 <= 2 ^ (- ex))%Z) by lia.
  (* both quotients against an integer, in integer terms *)
  assert (Hv : forall c : Z,
             value_of mx ex / inject_Z (Z.of_nat TARGET_SEGMENT_DURATION_SEC)
             <= inject_Z c
             <-> (Zpos mx <= 60 * c * 2 ^ (- ex))%Z).
  { intros c. unfold value_of.
    change (inject_Z (Z.of_nat TARGET_SEGMENT_DURATION_SEC)) with (60 # 1).
    rewrite <- (scaled_le (Zpos mx) (60 * c) (- ex)) by lia.
    rewrite Z.opp_involutive, inject_Z_mult.
    change (inject_Z 60) with (60 # 1).
    set (A := inject_Z (Zpos mx) * (2 # 1) ^ ex). clearbody A.
    set (C := inject_Z c). clearbody C.
    unfold Qdiv. change (/ (60 # 1)) with (1 # 60).
    split; intros H; lra. }
  assert (Hr : forall c : Z,
             value_of m' (ex - t) <= inject_Z c
             <-> (Zpos m' <= c * 2 ^ (t - ex))%Z).
  { intros c. unfold value_of.
    replace (ex - t)%Z with (- (t - ex))%Z by lia.
    apply scaled_le. destruct Ht; lia. }
  (* the two ceilings agree *)
  assert (Hsame : forall c : Z,
             value_of m' (ex - t) <= inject_Z c
             <-> value_of mx ex / inject_Z (Z.of_nat TARGET_SEGMENT_DURATION_SEC)
                 <= inject_Z c).
  { intros c. rewrite Hv, Hr.
    replace (t - ex)%Z with (- ex + t)%Z by lia.
    rewrite Z.pow_add_r by (destruct Ht; lia).
    set (E := (2 ^ (- ex))%Z) in *. clearbody E.
    set (W := (c * E)%Z).
    replace (60 * c * E)%Z with (60 * W)%Z by (unfold W; ring).
    replace (c * (E * 2 ^ t))%Z with (W * 2 ^ t)%Z by (unfold W; ring).
    clearbody W.
    destruct Ht as [-> | ->].
    - change (2 ^ 5)%Z with 32%Z in *. lia.
    - change (2 ^ 6)%Z with 64%Z in *. lia. }
  apply Qceiling_same in Hsame.
  set (k := Qceiling (value_of mx ex
                      / inject_Z (Z.of_nat TARGET_SEGMENT_DURATION_SEC))) in *.
  (* the ceiling is a positive integer below 2^53 *)
  assert (Hk : (1 <= k <= 2 ^ 53 - 1)%Z).
  { split.
    - assert (0 < inject_Z k) as H.
      { apply Qlt_le_trans with
          (value_of mx ex / inject_Z (Z.of_nat TARGET_SEGMENT_DURATION_SEC)).
        - apply Qlt_shift_div_l; [reflexivity|]. rewrite Qmult_0_l.
          apply value_of_pos.
        - apply Qle_ceiling. }
      change 0 with (inject_Z 0) in H. rewrite <- Zlt_Qlt in H. lia.
    - assert (value_of mx ex / inject_Z (Z.of_nat TARGET_SEGMENT_DURATION_SEC)
              <= inject_Z (2 ^ 52)) as H.
      { apply Hv. change (2 ^ 52)%Z with 4503599627370496%Z.
        set (E := (2 ^ (- ex))%Z) in *. clearbody E. lia. }
      apply Qceiling_resp_le in H. rewrite Qceiling_Z in H. fold k in H.
      change (2 ^ 52)%Z with 4503599627370496%Z in H.
      change (2 ^ 53)%Z with 9007199254740992%Z. lia. }
  unfold Binary64.Math_ceil, Binary64.round_to_integer.
  replace (0 <=? ex - t)%Z with false
    by (symmetry; apply Z.leb_gt; destruct Ht; lia).
  destruct (to_Q_finite m' (ex - t)) as [q [-> Eq]].
  assert (Hq : Qceiling q = k) by (rewrite Eq; exact Hsame).
  rewrite Hq. fold (Binary64.of_Z k).
  unfold segmentCount. fold k.
  rewrite Z.max_r by lia.
  destruct k as [|kp|kp]; try lia.
  apply Math_max_of_Z. lia.
Qed.

End SizingBinary64.

(** ** Trimming *)

Lemma trimStart_suffix (s : jsstring) :
  exists spaces, s = spaces ++ trimStart s
                 /\ Forall (fun c => is_trim_space c = true) spaces.
Proof.
  induction s as [|c s [sp [E F]]]; simpl.
  - exists []. split; [reflexivity | constructor].
  - destruct (is_trim_space c) eqn:Ec.
    + exists (c :: sp). split; [simpl; now rewrite <- E | now constructor].
    + exists []. split; [reflexivity | constructor].
Qed.

Lemma trimStart_head (s : jsstring) (c : jschar) (t : jsstring) :
  trimStart s = c :: t -> is_trim_space c = false.
Proof.
  induction s as [|d s IH]; simpl; [discriminate|].
  destruct (is_trim_space d) eqn:Ed; [exact IH|].
  intros E. injection E as <- _. exact Ed.
Qed.

Lemma trimStart_fixed (s : jsstring) :
  (forall c t, s = c :: t -> is_trim_space c = false) -> trimStart s = s.
Proof.
  destruct s as [|c s]; [reflexivity|]. intros H. simpl.
  now rewrite (H c s eq_refl).
Qed.

Lemma trimEnd_prefix (s : jsstring) :
  exists spaces, s = trimEnd s ++ spaces
                 /\ Forall (fun c => is_trim_space c = true) spaces.
Proof.
  unfold trimEnd. destruct (trimStart_suffix (rev s)) as [sp [E F]].
  exists (rev sp). split.
  - rewrite <- (rev_involutive s), E at 1. now rewrite rev_app_distr.
  - apply Forall_rev. exact F.
Qed.

Lemma trimEnd_last (s : jsstring) (c : jschar) (t : jsstring) :
  trimEnd s = t ++ [c] -> is_trim_space c = false.
Proof.
  unfold trimEnd. intros E. apply (f_equal (@rev _)) in E.
  rewrite rev_involutive, rev_app_distr in E. simpl in E.
  now apply trimStart_head in E.
Qed.

Lemma trimEnd_fixed (s : jsstring) :
  (forall c t, s = t ++ [c] -> is_trim_space c = false) -> trimEnd s = s.
Proof.
  intros H. unfold trimEnd. rewrite trimStart_fixed; [apply rev_involutive|].
  intros c t E. apply (H c (rev t)).
  rewrite <- (rev_involutive s), E. reflexivity.
Qed.

Lemma trim_trimmed (s : jsstring) : trimmed (trim s).
Proof.
  unfold trim. split.
  - intros c t E.
    destruct (trimEnd_prefix (trimStart s)) as [sp [E' _]].
    rewrite E in E'. simpl in E'. now apply trimStart_head in E'.
  - intros c t E. now apply trimEnd_last in E.
Qed.

Lemma trim_fixed (s : jsstring) : trimmed s -> trim s = s.
Proof.
  intros [H1 H2]. unfold trim. rewrite (trimStart_fixed s H1).
  now apply trimEnd_fixed.
Qed.

Lemma trim_sub (s : jsstring) (c : jschar) : In c (trim s) -> In c s.
Proof.
  intros H. unfold trim in H.
  destruct (trimEnd_prefix (trimStart s)) as [sp [E _]].
  destruct (trimStart_suffix s) as [sp' [E' _]].
  rewrite E'. apply in_or_app. right. rewrite E. apply in_or_app. now left.
Qed.

(** ** The API key and the request *)

Lemma API_KEY_exact (env : Environment) (raw : jsstring) :
  RAW_API_KEY env = Some raw ->
  ~ In 34%N raw -> ~ In 39%N raw -> trimmed raw -> API_KEY env = raw.
Proof.
  unfold API_KEY. intros -> H34 H39 Ht. destruct raw as [|c raw]; [reflexivity|].
  set (r := c :: raw) in *.
  assert (E : filter (fun c => negb ((c =? 34) || (c =? 39))%N) r = r).
  { apply forallb_filter_id. apply forallb_forall. intros x Hx.
    destruct (N.eqb_spec x 34) as [->|_]; [contradiction|].
    destruct (N.eqb_spec x 39) as [->|_]; [contradiction|]. reflexivity. }
  rewrite E. now apply trim_fixed.
Qed.

(** X1.  The key the service sends is the raw key without its quote characters,
    trimmed: it holds no quote, neither begins nor ends with white space, is
    empty when the environment has no key, and is the raw key itself when
    that one is clean already.  It is what follows "Bearer " in the
    Authorization header of every completion request. *)
Theorem API_KEY_sanitized (env : Environment) :
  ~ In 34%N (API_KEY env) /\ ~ In 39%N (API_KEY env)
  /\ trimmed (API_KEY env)
  /\ (RAW_API_KEY env = None \/ RAW_API_KEY env = Some [] -> API_KEY env = [])
  /\ (forall raw, RAW_API_KEY env = Some raw ->
        ~ In 34%N raw -> ~ In 39%N raw -> trimmed raw -> API_KEY env = raw)
  /\ (forall msgs mdl,
        headers (completion_request env msgs mdl)
        = [(lit "Authorization", lit "Bearer " ++ API_KEY env);
           (lit "Content-Type", lit "application/json")]).
Proof.
  unfold API_KEY.
  assert (Hq : forall raw q, (q = 34 \/ q = 39)%N ->
            ~ In q (trim (filter (fun c => negb ((c =? 34) || (c =? 39))%N) raw))).
  { intros raw q Hq Hin. apply trim_sub in Hin. apply filter_In in Hin as [_ Hf].
    destruct Hq as [-> | ->]; discriminate. }
  split; [|split; [|split; [|split; [|split]]]].
  - destruct (RAW_API_KEY env) as [[|c raw]|]; try (intros []).
    apply Hq. now left.
  - destruct (RAW_API_KEY env) as [[|c raw]|]; try (intros []).
    apply Hq. now right.
  - destruct (RAW_API_KEY env) as [[|c raw]|];
      try (split; intros c t E; destruct t; discriminate).
    apply trim_trimmed.
  - intros [-> | ->]; reflexivity.
  - intros raw Hraw H34 H39 Ht. now apply (API_KEY_exact env).
  - intros msgs mdl. reflexivity.
Qed.

Lemma API_KEY_sanitized_witness :
  API_KEY (mkEnvironment (Some (lit "sk-live-42")) (fun _ _ => Throw SyntaxError))
  = lit "sk-live-42".
Proof.
  apply (proj1 (proj2 (proj2 (proj2 (proj2
           (API_KEY_sanitized
              (mkEnvironment (Some (lit "sk-live-42")) (fun _ _ => Throw SyntaxError))))))))
    ; [reflexivity | vm_compute; intuition discriminate
       | vm_compute; intuition discriminate | ].
  split; intros c t E.
  - injection E as <- _. reflexivity.
  - apply (f_equal (@rev _)) in E. rewrite rev_app_distr in E.
    vm_compute in E. injection E as <- _. reflexivity.
Defined.

(** X2.  A failed completion request fails the call: an error of [fetch] and an
    error of [response.json()] are thrown on as they are, and a response
    whose status is not ok throws an [Error] naming the status and its text,
    whatever the body holds.  The call returns only for an ok response with
    a body that parsed. *)
Theorem makeHackClubRequest_failures (env : Environment)
  (msgs : list ChatMessage) (mdl : jsstring) :
  let sent := fetch env HACKCLUB_API_URL (completion_request env msgs mdl) in
  let result := makeHackClubRequest env msgs mdl in
  (forall e, sent = Throw e -> result = Throw e)
  /\ (forall r, sent = Return r -> ok r = false ->
        result = Throw (Error (lit "Hack Club API error: "
                                 ++ toString_nat (status r) ++ lit " "
                                 ++ statusText r)))
  /\ (forall r e, sent = Return r -> ok r = true -> json r = Throw e ->
        result = Throw e)
  /\ (forall v, result = Return v ->
        exists r data, sent = Return r /\ ok r = true /\ json r = Return data).
Proof.
  cbv zeta. unfold makeHackClubRequest.
  split; [|split; [|split]].
  - intros e ->. reflexivity.
  - intros r -> Hok. simpl. now rewrite Hok.
  - intros r e -> Hok Hj. simpl. now rewrite Hok, Hj.
  - intros v H.
    destruct (fetch env HACKCLUB_API_URL _) as [r|e]; [|discriminate].
    simpl in H. destruct (ok r) eqn:Hok; [|discriminate]. simpl in H.
    destruct (json r) as [data|e] eqn:Hj; [|discriminate].
    exists r, data. repeat split; assumption.
Qed.

Lemma makeHackClubRequest_failures_witness :
  makeHackClubRequest
    (mkEnvironment None
       (fun _ _ => Return (mkResponse false 429 (lit "Too Many Requests")
                             (Return (completion_of (Some (JString (lit "Hi"))))))))
    [user_message (lit "Hello")] DEFAULT_MODEL
  = Throw (Error (lit "Hack Club API error: 429 Too Many Requests")).
Proof.
  apply (proj1 (proj2
           (makeHackClubRequest_failures
              (mkEnvironment None
                 (fun _ _ => Return (mkResponse false 429 (lit "Too Many Requests")
                                       (Return (completion_of (Some (JString (lit "Hi"))))))))
              [user_message (lit "Hello")] DEFAULT_MODEL))
           (mkResponse false 429 (lit "Too Many Requests")
              (Return (completion_of (Some (JString (lit "Hi"))))))).
  - reflexivity.
  - reflexivity.
Defined.

(** X3.  What the call reads from an ok response: the content of the message of
    the first choice, whatever the other choices are, [undefined] when that
    message has no content; without a first choice (no [choices] member,
    [null], or an empty array) it throws a TypeError. *)
Theorem makeHackClubRequest_first_choice (env : Environment)
  (msgs : list ChatMessage) (mdl : jsstring) (r : Response)
  (members : list (jsstring * JSON)) :
  fetch env HACKCLUB_API_URL (completion_request env msgs mdl) = Return r ->
  ok r = true -> json r = Return (JObject members) ->
  (forall first rest message,
     lookup (lit "choices") members = Some (JArray (JObject first :: rest)) ->
     lookup (lit "message") first = Some (JObject message) ->
     makeHackClubRequest env msgs mdl = Return (lookup (lit "content") message))
  /\ (lookup (lit "choices") members = None
      \/ lookup (lit "choices") members = Some JNull
      \/ lookup (lit "choices") members = Some (JArray []) ->
      exists e, makeHackClubRequest env msgs mdl = Throw e
                /\ err_kind e = KTypeError).
Proof.
  intros Hs Hok Hj. unfold makeHackClubRequest. rewrite Hs. simpl.
  rewrite Hok, Hj. simpl. split.
  - intros first rest message -> Hm. simpl. now rewrite Hm.
  - intros [-> | [-> | ->]]; simpl; eexists; split; reflexivity.
Qed.

Lemma makeHackClubRequest_first_choice_witness :
  makeHackClubRequest (saying (lit "Once")) [user_message (lit "Hello")] DEFAULT_MODEL
  = Return (Some (JString (lit "Once"))).
Proof.
  apply (proj1 (makeHackClubRequest_first_choice (saying (lit "Once"))
                  [user_message (lit "Hello")] DEFAULT_MODEL
                  (mkResponse true 200 (lit "OK")
                     (Return (completion_of (Some (JString (lit "Once"))))))
                  [(lit "choices",
                    JArray [JObject [(lit "message",
                                      JObject [(lit "content", JString (lit "Once"))])]])]
                  eq_refl eq_refl eq_refl)
           [(lit "message", JObject [(lit "content", JString (lit "Once"))])]
           []
           [(lit "content", JString (lit "Once"))]);
    reflexivity.
Defined.

(** X4.  The outline depends on the environment only through the response to
    the one request it sends: two environments that answer that request
    alike give the same outline. *)
Theorem generateStoryOutline_one_request (env env' : Environment)
  (route : RouteDetails) (n : nat) :
  fetch env HACKCLUB_API_URL (outline_request env route n)
  = fetch env' HACKCLUB_API_URL (outline_request env' route n) ->
  generateStoryOutline env route n = generateStoryOutline env' route n.
Proof.
  intros H. rewrite !generateStoryOutline_unfold.
  unfold outline_reply, makeHackClubRequest.
  unfold outline_request in H. now rewrite H.
Qed.

Lemma generateStoryOutline_one_request_witness :
  generateStoryOutline (saying (lit "[1]")) sample_route 2
  = generateStoryOutline
      (mkEnvironment None
         (fun _ _ => Return (mkResponse true 200 (lit "OK")
                               (Return (completion_of (Some (JString (lit "[1]"))))))))
      sample_route 2.
Proof.
  apply generateStoryOutline_one_request. reflexivity.
Defined.

Lemma trim_shape (s : jsstring) :
  exists before after,
    s = before ++ trim s ++ after
    /\ Forall (fun c => is_trim_space c = true) before
    /\ Forall (fun c => is_trim_space c = true) after.
Proof.
  unfold trim.
  destruct (trimStart_suffix s) as [sp [E F]].
  destruct (trimEnd_prefix (trimStart s)) as [sp' [E' F']].
  exists sp, sp'. split; [|now split].
  now rewrite <- E', <- E.
Qed.

(** ** More on the text handed to the parser *)

Lemma match_bracketed_shape (s m : jsstring) :
  RegExp.match_bracketed s = Some m ->
  exists pre mid post,
    s = pre ++ RegExp.LBRACKET :: mid ++ RegExp.RBRACKET :: post
    /\ m = RegExp.LBRACKET :: mid ++ [RegExp.RBRACKET]
    /\ ~ In RegExp.LBRACKET pre /\ ~ In RegExp.RBRACKET post.
Proof.
  intros H.
  destruct (in_dec N.eq_dec RegExp.LBRACKET s) as [Hin|Hout];
    [|now rewrite match_bracketed_no_open in H].
  destruct (first_occurrence _ _ Hin) as [pre [rest [-> Hpre]]].
  rewrite match_bracketed_skip in H by assumption.
  rewrite match_bracketed_open in H.
  destruct (in_dec N.eq_dec RegExp.RBRACKET rest) as [Hc|Hc].
  - destruct (last_occurrence _ _ Hc) as [mid [post [-> Hpost]]].
    rewrite dotstar_close_last in H by assumption. injection H as <-.
    exists pre, mid, post. repeat split; assumption.
  - rewrite dotstar_close_none, match_bracketed_unclosed in H by assumption.
    discriminate.
Qed.

(** X5.  The text handed to [JSON.parse] is a run of consecutive code units of
    the reply, never longer than it; extracting once more changes nothing;
    and a reply that opens with a bracket and closes with one is handed
    over whole. *)
Theorem jsonString_idempotent (text : jsstring) :
  substring_of (jsonString text) text
  /\ length (jsonString text) <= length text
  /\ jsonString (jsonString text) = jsonString text
  /\ (forall mid, text = RegExp.LBRACKET :: mid ++ [RegExp.RBRACKET] ->
        jsonString text = text).
Proof.
  assert (Hfix : forall mid,
             jsonString (RegExp.LBRACKET :: mid ++ [RegExp.RBRACKET])
             = RegExp.LBRACKET :: mid ++ [RegExp.RBRACKET]).
  { intros mid.
    apply (jsonString_greedy [] mid []); intros []. }
  assert (Hshape : jsonString text = text
                   \/ exists pre mid post,
                        text = pre ++ RegExp.LBRACKET :: mid ++ RegExp.RBRACKET :: post
                        /\ jsonString text = RegExp.LBRACKET :: mid ++ [RegExp.RBRACKET]).
  { unfold jsonString.
    destruct (RegExp.match_bracketed text) as [m|] eqn:E; [|now left].
    destruct (match_bracketed_shape _ _ E) as [pre [mid [post [Ht [Hm _]]]]].
    right. exists pre, mid, post. now split. }
  split; [|split; [|split]].
  - destruct Hshape as [->|[pre [mid [post [Ht ->]]]]].
    + exists [], []. now rewrite app_nil_r.
    + exists pre, post. rewrite Ht. simpl. now rewrite <- app_assoc.
  - destruct Hshape as [->|[pre [mid [post [Ht ->]]]]]; [lia|].
    rewrite Ht. simpl. rewrite !length_app. simpl. rewrite !length_app. simpl. lia.
  - destruct Hshape as [E|[pre [mid [post [Ht ->]]]]].
    + now rewrite !E.
    + apply Hfix.
  - intros mid ->. apply Hfix.
Qed.

Lemma jsonString_idempotent_witness :
  jsonString (lit "[1, 2]") = lit "[1, 2]".
Proof.
  apply (proj2 (proj2 (proj2 (jsonString_idempotent (lit "[1, 2]")))) (lit "1, 2")).
  reflexivity.
Defined.

(** ** More on the segment generator *)

(** X6.  The text of a returned segment is the reply of the completion service
    with the white space at its two ends removed and nothing else changed:
    it is a run of consecutive code units of the reply, it neither begins
    nor ends with white space, it is not empty, and a reply that has no
    white space at its ends is returned as it is. *)
Theorem generateSegment_text_trimmed (env : Environment) (route : RouteDetails)
  (idx total : nat) (goal : jsstring) (prev : option jsstring)
  (seg : StorySegment) :
  generateSegment env route idx total goal prev = Return seg ->
  exists s,
    makeHackClubRequest env
      [user_message (segmentPrompt route idx total goal
                       (match prev with Some p => p | None => [] end))]
      DEFAULT_MODEL = Return (Some (JString s))
    /\ substring_of (text seg) s
    /\ trimmed (text seg)
    /\ text seg <> []
    /\ (trimmed s -> text seg = s).
Proof.
  intros H. rewrite generateSegment_cases in H. unfold segment_reply in H.
  destruct (makeHackClubRequest env _ _) as [v|e]; [|discriminate].
  destruct v as [[| b | l | s | items | ms]|]; try discriminate.
  simpl in H. destruct (trim s) as [|c t] eqn:Hs; [discriminate|].
  injection H as <-. exists s. cbn [text]. rewrite <- Hs.
  split; [reflexivity|].
  split; [destruct (trim_shape s) as [a [b [E _]]]; now exists a, b|].
  split; [apply trim_trimmed|].
  split; [rewrite Hs; discriminate|]. apply trim_fixed.
Qed.

Lemma generateSegment_text_trimmed_witness :
  exists s,
    makeHackClubRequest (saying (lit "  The gate creaks. "))
      [user_message (segmentPrompt sample_route 1 4 (lit "The gate") [])]
      DEFAULT_MODEL = Return (Some (JString s))
    /\ substring_of (lit "The gate creaks.") s
    /\ trimmed (lit "The gate creaks.")
    /\ lit "The gate creaks." <> []
    /\ (trimmed s -> lit "The gate creaks." = s).
Proof.
  apply (generateSegment_text_trimmed (saying (lit "  The gate creaks. "))
           sample_route 1 4 (lit "The gate") None
           (mkSegment 1 (lit "The gate creaks.") None)).
  reflexivity.
Defined.

(** ** More on the audio synthesis adapter *)

Lemma to_unsigned_long_range (x : Binary64.number) :
  (0 <= Binary64.to_unsigned_long x < 2 ^ 32)%Z.
Proof.
  unfold Binary64.to_unsigned_long.
  destruct (Binary64.to_Q x) as [q|]; [|split; [lia | reflexivity]].
  apply Z.mod_pos_bound. reflexivity.
Qed.

(** X7.  Whatever the text, the synthesis stand-in either throws the
    NotSupportedError of [createBuffer] or returns one channel of silence
    at 24000 Hz with at least one frame; the voice never matters, and the
    empty text always throws. *)
Theorem generateSegmentAudio_silence_or_error (text voice : jsstring) :
  (forall voice', generateSegmentAudio text voice' = generateSegmentAudio text voice)
  /\ (generateSegmentAudio text voice = Throw NotSupportedError
      \/ exists b,
           generateSegmentAudio text voice = Return b
           /\ numberOfChannels b = 1%Z /\ sampleRate b = 24000%Z
           /\ (1 <= frames b < 2 ^ 32)%Z
           /\ channelData b = [repeat Binary64.zero (Z.to_nat (frames b))]
           /\ text <> [])
  /\ (text = [] -> generateSegmentAudio text voice = Throw NotSupportedError).
Proof.
  split; [|split].
  - intros voice'. now rewrite !generateSegmentAudio_eval.
  - rewrite generateSegmentAudio_eval. cbv zeta.
    pose proof (to_unsigned_long_range (requested_frames text)) as R.
    destruct (1 <=? Binary64.to_unsigned_long (requested_frames text))%Z eqn:E;
      [right | now left].
    apply Z.leb_le in E. eexists. split; [reflexivity|].
    cbn [numberOfChannels sampleRate frames channelData].
    repeat split; try lia.
    intros ->. vm_compute in E. now apply E.
  - intros ->. rewrite generateSegmentAudio_eval. reflexivity.
Qed.

Lemma generateSegmentAudio_silence_or_error_witness :
  generateSegmentAudio [] (lit "Kore") = Throw NotSupportedError.
Proof.
  apply (proj2 (proj2 (generateSegmentAudio_silence_or_error [] (lit "Kore")))).
  reflexivity.
Defined.

(** X8.  A longer narration gets a longer buffer: for two non-empty texts in
    the range of [createBuffer], the longer one gets strictly more frames,
    1920 for each further code unit, give or take one frame. *)
Theorem generateSegmentAudio_monotone (t1 t2 v1 v2 : jsstring) :
  t1 <> [] -> length t1 < length t2 ->
  (1920 * Z.of_nat (length t2) < 2 ^ 32)%Z ->
  exists b1 b2,
    generateSegmentAudio t1 v1 = Return b1
    /\ generateSegmentAudio t2 v2 = Return b2
    /\ (frames b1 < frames b2)%Z
    /\ (1920 * Z.of_nat (length t2 - length t1) - 1
        <= frames b2 - frames b1
        <= 1920 * Z.of_nat (length t2 - length t1) + 1)%Z.
Proof.
  intros Hne Hlt Hfit.
  assert (Hne2 : t2 <> []) by (intros ->; simpl in Hlt; lia).
  destruct (requested_frames_bounds t1 Hne) as [n1 [E1 H1]]; [lia|].
  destruct (requested_frames_bounds t2 Hne2 Hfit) as [n2 [E2 H2]].
  destruct (to_unsigned_long_of_Z n1) as [U1 _]; [lia|].
  destruct (to_unsigned_long_of_Z n2) as [U2 _]; [lia|].
  rewrite !generateSegmentAudio_eval. cbv zeta. rewrite E1, E2, U1, U2.
  replace (1 <=? Zpos n1)%Z with true by (symmetry; apply Z.leb_le; lia).
  replace (1 <=? Zpos n2)%Z with true by (symmetry; apply Z.leb_le; lia).
  eexists. eexists. split; [reflexivity|]. split; [reflexivity|].
  cbn [frames]. rewrite Nat2Z.inj_sub by lia. lia.
Qed.

Lemma generateSegmentAudio_monotone_witness :
  exists b1 b2,
    generateSegmentAudio (lit "Hi") (lit "Kore") = Return b1
    /\ generateSegmentAudio (lit "Hello") (lit "Puck") = Return b2
    /\ (frames b1 < frames b2)%Z
    /\ (1920 * Z.of_nat (5 - 2) - 1 <= frames b2 - frames b1
        <= 1920 * Z.of_nat (5 - 2) + 1)%Z.
Proof.
  apply (generateSegmentAudio_monotone (lit "Hi") (lit "Hello") (lit "Kore") (lit "Puck")).
  - discriminate.
  - simpl. lia.
  - simpl. lia.
Defined.

(** ** More on the segment sizing calculator *)

Lemma segmentCount_compat (a b : Q) :
  (a == b)%Q -> segmentCount a = segmentCount b.
Proof.
  intros H. unfold segmentCount. f_equal.
  apply Qceiling_comp. now rewrite H.
Qed.

(** X9.  The sizing expression as the engine evaluates it, in binary64 with a
    rounded division, returns the integer of the exact expression for
    every duration that is a number from 1 up to 2^53 (a normal number
    with an exponent from -52 to 0), fractions of a second included, and
    for every whole number of seconds below 2^53. *)
Theorem calculateTotalSegments_binary64_exact :
  (forall (mx : positive) (ex : Z),
     Zpos (digits2_pos mx) = 53%Z -> (-52 <= ex <= 0)%Z ->
     calculateTotalSegments (S754_finite false mx ex)
     = Binary64.of_Z (segmentCount (value_of mx ex)))
  /\ (forall d : Z, (0 <= d < 2 ^ 53)%Z ->
        calculateTotalSegments (Binary64.of_Z d)
        = Binary64.of_Z (segmentCount (inject_Z d))).
Proof.
  split.
  { intros mx ex Hd He. apply sizing_binary64_normal; [exact Hd | lia]. }
  intros d Hd. destruct d as [|d|d]; [reflexivity | | lia].
  destruct (of_Z_value d) as [m [e [-> [Hm [_ [He Hv]]]]]]; [lia|].
  rewrite sizing_binary64_normal by (assumption || lia).
  f_equal. now apply segmentCount_compat.
Qed.

Lemma calculateTotalSegments_binary64_exact_witness :
  calculateTotalSegments (S754_finite false 5429388417957888 (-42))
  = Binary64.of_Z (segmentCount (value_of 5429388417957888 (-42)))
  /\ value_of 5429388417957888 (-42) = ((5429388417957888 # 1) * (1 # 4398046511104))%Q
  /\ segmentCount (value_of 5429388417957888 (-42)) = 21%Z.
Proof.
  split; [|split].
  - apply (proj1 calculateTotalSegments_binary64_exact 5429388417957888%positive (-42)%Z).
    + reflexivity.
    + lia.
  - reflexivity.
  - reflexivity.
Defined.

(** What max(1, ceil(D/60)) is to D, in exact arithmetic. *)
Lemma segmentCount_covers (D : Q) :
  let N := segmentCount D in
  (1 <= N)%Z
  /\ (D <= 60 * inject_Z N)%Q
  /\ ((60 < D)%Q -> (60 * (inject_Z N - 1) < D)%Q)
  /\ ((D <= 60)%Q -> N = 1%Z)
  /\ (forall D', (D <= D')%Q -> (N <= segmentCount D')%Z)
  /\ ((D <= inject_Z DURATION_CAP)%Q -> (N <= 240)%Z).
Proof.
  cbv zeta. unfold segmentCount.
  change (inject_Z (Z.of_nat TARGET_SEGMENT_DURATION_SEC)) with (60 # 1)%Q.
  assert (Hdiv : forall x : Q, (x / (60 # 1) == x * (1 # 60))%Q).
  { intros x. unfold Qdiv. reflexivity. }
  pose proof (Qle_ceiling (D / (60 # 1))) as Hup.
  pose proof (Qceiling_lt (D / (60 # 1))) as Hlo.
  set (c := Qceiling (D / (60 # 1))) in *.
  unfold Qdiv in Hup, Hlo.
  change (/ (60 # 1))%Q with (1 # 60)%Q in Hup, Hlo.
  assert (Ec : (inject_Z (c - 1) == inject_Z c - 1)%Q).
  { unfold Z.sub. rewrite inject_Z_plus. reflexivity. }
  rewrite Ec in Hlo.
  assert (Hmax : forall k : Z, (inject_Z k <= inject_Z (Z.max 1 k))%Q).
  { intros k. rewrite <- Zle_Qle. lia. }
  split; [lia|]. split; [|split; [|split; [|split]]].
  - specialize (Hmax c). lra.
  - intros HD.
    assert (Hc : (1 < c)%Z).
    { apply Z.lt_nge. intros Hc. rewrite Zle_Qle in Hc.
      change (inject_Z 1) with 1%Q in Hc. lra. }
    replace (Z.max 1 c) with c by lia. lra.
  - intros HD.
    assert (Hc : (c <= 1)%Z).
    { apply Z.lt_succ_r. rewrite Zlt_Qlt.
      change (inject_Z (Z.succ 1)) with 2%Q. lra. }
    lia.
  - intros D' HD.
    apply Z.max_le_compat_l. apply Qceiling_resp_le.
    rewrite !Hdiv. lra.
  - intros HD. unfold DURATION_CAP in HD.
    assert (Hc : (c <= 240)%Z).
    { apply Z.lt_succ_r. rewrite Zlt_Qlt.
      change (inject_Z (Z.succ 240)) with 241%Q.
      change (inject_Z 14400) with 14400%Q in HD. lra. }
    lia.
Qed.

Lemma canonical_digits (m : positive) (e : Z) :
  is_number (S754_finite false m e) = true -> (Zpos m < 2 ^ 53)%Z.
Proof.
  unfold is_number, valid_binary, bounded, canonical_mantissa.
  intros H. apply andb_true_iff in H as [H _].
  apply Z.eqb_eq in H.
  unfold fexp, emin, Binary64.prec, Binary64.emax in H.
  pose proof (digits2_pos_bounds m) as [_ B].
  assert (D : (Zpos (digits2_pos m) <= 53)%Z) by lia.
  apply Z.lt_le_trans with (1 := B). apply Z.pow_le_mono_r; lia.
Qed.

Section SizingBelow.

Local Open Scope Z_scope.

Lemma Zdigits2_small (z : Z) :
  0 <= z < 2 ^ 53 -> Zdigits2 z <= 53.
Proof.
  intros Hz. destruct z as [|p|p]; [simpl; lia | | lia].
  unfold Zdigits2. pose proof (digits2_pos_bounds p) as [Blo _].
  destruct (Z.le_gt_cases (Zpos (digits2_pos p)) 53) as [H|H]; [exact H|].
  assert (2 ^ 53 <= 2 ^ (Zpos (digits2_pos p) - 1)) by (apply Z.pow_le_mono_r; lia).
  lia.
Qed.

Lemma shr_m_of_loc (z : Z) (l : location) :
  shr_m (shr_record_of_loc z l) = z.
Proof. destruct l as [|[| |]]; reflexivity. Qed.

(** At the smallest exponent a mantissa below 2^53 is not shifted. *)
Lemma shr_fexp_subnormal (z : Z) (l : location) :
  0 <= z < 2 ^ 53 ->
  shr_fexp 53 1024 z (-1074) l = (shr_record_of_loc z l, -1074).
Proof.
  intros Hz. pose proof (Zdigits2_small z Hz) as Hd.
  assert (Hd0 : 0 <= Zdigits2 z).
  { destruct z as [|p|p]; simpl; lia. }
  unfold shr_fexp, fexp, emin.
  replace (Z.max (Zdigits2 z + -1074 - 53) (3 - 1024 - 53) - -1074) with 0 by lia.
  reflexivity.
Qed.

Lemma round_nearest_even_next (z : Z) (l : location) :
  round_nearest_even z l = z \/ round_nearest_even z l = z + 1.
Proof.
  unfold round_nearest_even.
  destruct l as [|[| |]]; [now left | | now left | now right].
  destruct (Z.even z); [now left | now right].
Qed.

(** Rounding at the smallest exponent: zero or a number with that
    exponent. *)
Lemma binary_round_aux_subnormal (q : Z) (l : location) :
  0 <= q -> q + 1 < 2 ^ 53 ->
  binary_round_aux 53 1024 false q (-1074) l = S754_zero false
  \/ exists m, binary_round_aux 53 1024 false q (-1074) l
               = S754_finite false m (-1074)
               /\ Zpos m < 2 ^ 53.
Proof.
  intros Hq Hq1. unfold binary_round_aux.
  rewrite shr_fexp_subnormal by lia.
  rewrite shr_m_of_loc.
  destruct (round_nearest_even_next q
              (loc_of_shr_record (shr_record_of_loc q l))) as [-> | ->].
  - rewrite shr_fexp_subnormal by lia. rewrite shr_m_of_loc.
    destruct q as [|m|m]; [now left | | lia].
    right. exists m. split; [reflexivity | lia].
  - rewrite shr_fexp_subnormal by lia. rewrite shr_m_of_loc.
    destruct (q + 1) as [|m|m] eqn:E; [now left | | lia].
    right. exists m. split; [reflexivity | lia].
Qed.

(** Division by 60 of a positive number with one of the six smallest
    exponents: the quotient is zero or has the smallest exponent. *)
Lemma div_60_tiny (mx : positive) (ex : Z) :
  Zpos mx < 2 ^ 53 -> -1074 <= ex <= -1069 ->
  Binary64.div (S754_finite false mx ex)
    (S754_finite false 8444249301319680 (-47)) = S754_zero false
  \/ exists m, Binary64.div (S754_finite false mx ex)
                 (S754_finite false 8444249301319680 (-47))
               = S754_finite false m (-1074)
               /\ Zpos m < 2 ^ 53.
Proof.
  intros Hmx Hex.
  unfold Binary64.div, SFdiv, SFdiv_core_binary. cbn [xorb].
  pose proof (Zdigits2_small (Zpos mx) ltac:(lia)) as Hd.
  assert (Hd0 : 0 < Zdigits2 (Zpos mx)) by (unfold Zdigits2; lia).
  change (Zdigits2 (Zpos 8444249301319680)) with 53.
  unfold fexp, emin, Binary64.prec, Binary64.emax.
  replace (Z.min (Z.max (Zdigits2 (Zpos mx) + ex - (53 + -47) - 53) (3 - 1024 - 53))
             (ex - -47)) with (-1074) by lia.
  destruct (ex - -47 - -1074) as [|s|s] eqn:Es; try lia.
  rewrite Z.shiftl_mul_pow2 by lia.
  assert (HP : 0 < 2 ^ Zpos s <= 2 ^ 52).
  { split; [apply Z.pow_pos_nonneg; lia | apply Z.pow_le_mono_r; lia]. }
  change (2 ^ 52) with 4503599627370496 in HP.
  change (2 ^ 53) with 9007199254740992 in *.
  set (P := 2 ^ Zpos s) in *. clearbody P.
  assert (HmP : 0 <= Zpos mx * P <= 9007199254740992 * 4503599627370496).
  { split; [lia|]. apply Z.mul_le_mono_nonneg; lia. }
  pose proof (Z_div_mod (Zpos mx * P) 8444249301319680 eq_refl) as Hdm.
  destruct (Z.div_eucl (Zpos mx * P) 8444249301319680) as [q r].
  destruct Hdm as [Edm Hr].
  apply binary_round_aux_subnormal; lia.
Qed.

End SizingBelow.

Section SizingBelowQ.

Local Open Scope Q_scope.

Lemma Qceiling_unit (q : Q) : 0 < q -> q <= 1 -> Qceiling q = 1%Z.
Proof.
  intros H0 H1. apply Z.le_antisymm.
  - rewrite <- (Qceiling_Z 1). now apply Qceiling_resp_le.
  - assert (H : 0 < inject_Z (Qceiling q)).
    { apply Qlt_le_trans with q; [exact H0 | apply Qle_ceiling]. }
    change 0 with (inject_Z 0) in H. rewrite <- Zlt_Qlt in H. lia.
Qed.

(** For a positive number with one of the six smallest exponents the
    count is 1. *)
Lemma sizing_tiny (mx : positive) (ex : Z) :
  (Zpos mx < 2 ^ 53)%Z -> (-1074 <= ex <= -1069)%Z ->
  calculateTotalSegments (S754_finite false mx ex) = Binary64.of_Z 1.
Proof.
  intros Hmx Hex. unfold calculateTotalSegments.
  change (Binary64.of_nat TARGET_SEGMENT_DURATION_SEC)
    with (S754_finite false 8444249301319680 (-47)).
  destruct (div_60_tiny mx ex Hmx Hex) as [-> | [m [-> Hm]]]; [reflexivity|].
  unfold Binary64.Math_ceil, Binary64.round_to_integer.
  change (0 <=? -1074)%Z with false. cbv iota.
  destruct (to_Q_finite m (-1074)) as [q [-> Eq]].
  assert (Hq : Qceiling q = 1%Z).
  { rewrite Eq. apply Qceiling_unit; [apply value_of_pos|].
    unfold value_of. change (-1074)%Z with (- (1074))%Z.
    apply (proj2 (scaled_le (Zpos m) 1 1074 ltac:(lia))).
    assert (2 ^ 53 <= 2 ^ 1074)%Z by (apply Z.pow_le_mono_r; lia).
    lia. }
  rewrite Hq. reflexivity.
Qed.

Lemma segmentCount_one (D : Q) : D <= 60 -> segmentCount D = 1%Z.
Proof. intros H. now apply (proj1 (proj2 (proj2 (proj2 (segmentCount_covers D))))). Qed.

(** The result of the code for every duration that is a number from 0 up
    to 2^53: the count of the exact expression. *)
Lemma sizing_below_2_53 (x : Binary64.number) (D : Q) :
  is_number x = true -> Binary64.to_Q x = Some D ->
  0 <= D -> D < inject_Z (2 ^ 53) ->
  calculateTotalSegments x = Binary64.of_Z (segmentCount D).
Proof.
  intros Hx HD H0 H53.
  destruct x as [s | s | | s m e]; try discriminate.
  - injection HD as <-. destruct s; reflexivity.
  - destruct (to_Q_finite m e) as [q [Hq Eq]].
    destruct s.
    + exfalso. injection HD as <-.
      pose proof (value_of_pos m e) as P.
      assert (E : (-1) * inject_Z (Zpos m) * (2 # 1) ^ e == - value_of m e)
        by (unfold value_of; ring).
      rewrite E in H0. set (V := value_of m e) in *. clearbody V. lra.
    + rewrite Hq in HD. injection HD as <-.
      rewrite (segmentCount_compat _ _ Eq). rewrite Eq in H53. clear Eq Hq H0.
      pose proof (canonical_digits m e Hx) as Hm.
      unfold is_number, valid_binary, bounded, canonical_mantissa in Hx.
      apply andb_true_iff in Hx as [Hc _]. apply Z.eqb_eq in Hc.
      unfold fexp, emin, Binary64.prec, Binary64.emax in Hc.
      pose proof (digits2_pos_bounds m) as [Blo Bhi].
      destruct (Z.le_gt_cases e (-1069)) as [Hlow|Hhigh].
      * rewrite sizing_tiny by lia. f_equal. symmetry.
        apply segmentCount_one. unfold value_of.
        replace e with (- (- e))%Z by lia.
        apply (proj2 (scaled_le (Zpos m) 60 (- e) ltac:(lia))).
        assert (2 ^ 53 <= 2 ^ (- e))%Z by (apply Z.pow_le_mono_r; lia).
        lia.
      * assert (Hd : Zpos (digits2_pos m) = 53%Z) by lia.
        rewrite Hd in Blo. change (2 ^ (53 - 1))%Z with 4503599627370496%Z in Blo.
        assert (He : (e <= 0)%Z).
        { destruct (Z.le_gt_cases e 0) as [H|H]; [exact H|]. exfalso.
          unfold value_of in H53. rewrite <- pow2_inject in H53 by lia.
          rewrite <- inject_Z_mult, <- Zlt_Qlt in H53.
          assert (2 ^ 1 <= 2 ^ e)%Z by (apply Z.pow_le_mono_r; lia).
          change (2 ^ 1)%Z with 2%Z in *.
          change (2 ^ 53)%Z with 9007199254740992%Z in H53.
          set (P := (2 ^ e)%Z) in *. clearbody P.
          assert (4503599627370496 * 2 <= Zpos m * P)%Z
            by (apply Z.mul_le_mono_nonneg; lia).
          lia. }
        apply sizing_binary64_normal; [exact Hd | lia].
Qed.

End SizingBelowQ.

Section SizingClaims.

Local Open Scope Q_scope.

Lemma Qceiling_whole_div (d : Z) :
  Qceiling (inject_Z d / 60) = ((d + 59) / 60)%Z.
Proof.
  unfold Qceiling, Qfloor, Qdiv, Qmult, Qinv, Qopp, inject_Z.
  cbn [Qnum Qden]. change (Pos.mul 1 60) with 60%positive.
  rewrite Z.mul_1_r.
  pose proof (Z.div_mod (- d) 60 ltac:(lia)) as E1.
  pose proof (Z.mod_pos_bound (- d) 60 ltac:(lia)) as B1.
  pose proof (Z.div_mod (d + 59) 60 ltac:(lia)) as E2.
  pose proof (Z.mod_pos_bound (d + 59) 60 ltac:(lia)) as B2.
  lia.
Qed.

Lemma segmentCount_below (D : Q) :
  D < inject_Z (2 ^ 53) -> (segmentCount D < 2 ^ 53)%Z.
Proof.
  intros HD. destruct (segmentCount_ceiling D) as [c [Hlo [_ ->]]].
  assert (Hc : (c < 2 ^ 53)%Z).
  { rewrite Zlt_Qlt. unfold Qdiv in Hlo.
    change (/ 60) with (1 # 60) in Hlo.
    change (inject_Z (2 ^ 53)) with (9007199254740992 # 1) in *.
    set (C := inject_Z c) in *. clearbody C. lra. }
  change (2 ^ 53)%Z with 9007199254740992%Z in *. lia.
Qed.

(** C2, as amended.  For every duration that is a number of the language
    from 0 up to 2^53, fractions of a second and the durations from 0 to
    14400 included, the sizing calculator, evaluated in binary64 as the
    engine does, returns max(1, ceil(D/60)): the greater of 1 and the
    integer c with c - 1 < D/60 <= c.  For a whole number of seconds d
    this is max(1, (d + 59) div 60); 185 seconds give 4 and 0 seconds
    give 1. *)
Theorem calculateTotalSegments_max_1_ceil :
  (forall (x : Binary64.number) (D : Q),
     is_number x = true -> Binary64.to_Q x = Some D ->
     0 <= D -> D < inject_Z (2 ^ 53) ->
     exists c : Z,
       inject_Z c - 1 < D / 60 /\ D / 60 <= inject_Z c
       /\ calculateTotalSegments x = Binary64.of_Z (Z.max 1 c))
  /\ (forall d : Z, (0 <= d < 2 ^ 53)%Z ->
        calculateTotalSegments (Binary64.of_Z d)
        = Binary64.of_Z (Z.max 1 ((d + 59) / 60)))
  /\ calculateTotalSegments (Binary64.of_Z 185) = Binary64.of_Z 4
  /\ calculateTotalSegments (Binary64.of_Z 0) = Binary64.of_Z 1.
Proof.
  split; [|split; [|split; reflexivity]].
  - intros x D Hx HD H0 H53.
    destruct (segmentCount_ceiling D) as [c [Hlo [Hhi Hc]]].
    exists c. split; [exact Hlo|]. split; [exact Hhi|].
    rewrite <- Hc. now apply sizing_below_2_53.
  - intros d Hd. rewrite <- Qceiling_whole_div.
    change (Z.max 1 (Qceiling (inject_Z d / 60))) with (segmentCount (inject_Z d)).
    destruct d as [|d|d]; [reflexivity | | lia].
    destruct (of_Z_value d) as [m [e [-> [Hm [_ [He Hv]]]]]]; [lia|].
    rewrite sizing_binary64_normal by (try exact Hm; lia).
    f_equal. now apply segmentCount_compat.
Qed.

Lemma calculateTotalSegments_max_1_ceil_witness :
  ((6526701022478336 # 35184372088832) == 371 # 2)
  /\ exists c : Z,
       inject_Z c - 1 < (6526701022478336 # 35184372088832) / 60
       /\ (6526701022478336 # 35184372088832) / 60 <= inject_Z c
       /\ calculateTotalSegments (S754_finite false 6526701022478336 (-45))
          = Binary64.of_Z (Z.max 1 c).
Proof.
  split; [reflexivity|].
  apply (proj1 calculateTotalSegments_max_1_ceil
           (S754_finite false 6526701022478336 (-45))
           (6526701022478336 # 35184372088832)).
  - reflexivity.
  - reflexivity.
  - vm_compute. discriminate.
  - reflexivity.
Defined.

(** Above 2^53 the quotient is rounded before the ceiling is taken: for a
    journey of 2^58 seconds the exact quotient is 4803839602528529 and a
    fifteenth, of which the ceiling is 4803839602528530, a number of the
    language; the code returns 4803839602528529. *)
Lemma calculateTotalSegments_rounds_above_2_53 :
  let x := Binary64.of_Z (2 ^ 58) in
  is_number x = true
  /\ Binary64.to_Q x = Some (inject_Z (2 ^ 58))
  /\ 0 <= inject_Z (2 ^ 58)
  /\ Qceiling (inject_Z (2 ^ 58) / 60) = 4803839602528530%Z
  /\ calculateTotalSegments x = Binary64.of_Z 4803839602528529
  /\ Binary64.to_Q (Binary64.of_Z 4803839602528530)
     = Some (inject_Z 4803839602528530)
  /\ calculateTotalSegments x
     <> Binary64.of_Z (Z.max 1 (Qceiling (inject_Z (2 ^ 58) / 60)))
  /\ forall c : Z,
       inject_Z c - 1 < inject_Z (2 ^ 58) / 60 ->
       inject_Z (2 ^ 58) / 60 <= inject_Z c ->
       calculateTotalSegments x <> Binary64.of_Z (Z.max 1 c).
Proof.
  cbv zeta.
  assert (Hne : calculateTotalSegments (Binary64.of_Z (2 ^ 58))
                <> Binary64.of_Z (Z.max 1 4803839602528530)).
  { vm_compute. discriminate. }
  split; [reflexivity|]. split; [reflexivity|].
  split; [vm_compute; discriminate|]. split; [reflexivity|].
  split; [reflexivity|]. split; [reflexivity|]. split; [exact Hne|].
  intros c Hlo Hhi.
  assert (Hc : c = 4803839602528530%Z).
  { unfold Qdiv in Hlo, Hhi. change (/ 60) with (1 # 60) in Hlo, Hhi.
    change (inject_Z (2 ^ 58)) with (288230376151711744 # 1) in Hlo, Hhi.
    assert (L : (c < 4803839602528531)%Z).
    { rewrite Zlt_Qlt.
      change (inject_Z 4803839602528531) with (4803839602528531 # 1).
      set (C := inject_Z c) in *. clearbody C. lra. }
    assert (U : (4803839602528529 < c)%Z).
    { rewrite Zlt_Qlt.
      change (inject_Z 4803839602528529) with (4803839602528529 # 1).
      set (C := inject_Z c) in *. clearbody C. lra. }
    lia. }
  subst c. exact Hne.
Qed.

(** X10.  What the count the code returns is to the duration, for every
    duration D that is a number of the language from 0 up to 2^53.  The
    code returns an integer N, at least 1 and below 2^53, for which N
    segments of 60 seconds cover the journey; N - 1 of them do not when
    the journey is longer than one segment.  A journey of at most 60
    seconds gets one segment, a journey up to the cap of four hours at
    most 240, and a longer journey never gets fewer segments than a
    shorter one. *)
Theorem calculateTotalSegments_covers (x : Binary64.number) (D : Q) :
  is_number x = true -> Binary64.to_Q x = Some D ->
  0 <= D -> D < inject_Z (2 ^ 53) ->
  exists N : Z,
    calculateTotalSegments x = Binary64.of_Z N
    /\ (1 <= N < 2 ^ 53)%Z
    /\ D <= 60 * inject_Z N
    /\ (60 < D -> 60 * (inject_Z N - 1) < D)
    /\ (D <= 60 -> N = 1%Z)
    /\ (D <= inject_Z DURATION_CAP -> (N <= 240)%Z)
    /\ (forall (x' : Binary64.number) (D' : Q),
          is_number x' = true -> Binary64.to_Q x' = Some D' ->
          D <= D' -> D' < inject_Z (2 ^ 53) ->
          exists N' : Z,
            calculateTotalSegments x' = Binary64.of_Z N' /\ (N <= N')%Z).
Proof.
  intros Hx HD H0 H53.
  destruct (segmentCount_covers D) as [H1 [H2 [H3 [H4 [H5 H6]]]]].
  exists (segmentCount D).
  split; [now apply sizing_below_2_53|].
  split; [split; [exact H1 | now apply segmentCount_below]|].
  split; [exact H2|]. split; [exact H3|]. split; [exact H4|].
  split; [exact H6|].
  intros x' D' Hx' HD' Hle H53'.
  exists (segmentCount D'). split.
  - apply sizing_below_2_53; try assumption.
    apply Qle_trans with D; assumption.
  - now apply H5.
Qed.

Lemma calculateTotalSegments_covers_witness :
  exists N : Z,
    calculateTotalSegments (Binary64.of_Z 185) = Binary64.of_Z N
    /\ (1 <= N < 2 ^ 53)%Z
    /\ (6509108836433920 # 35184372088832) <= 60 * inject_Z N.
Proof.
  destruct (calculateTotalSegments_covers (Binary64.of_Z 185)
              (6509108836433920 # 35184372088832))
    as [N [HN [H1 [H2 _]]]].
  - reflexivity.
  - reflexivity.
  - vm_compute. discriminate.
  - reflexivity.
  - exists N. split; [exact HN|]. split; [exact H1 | exact H2].
Defined.

End SizingClaims.

(** ** Writing and parsing JSON *)

Section RoundTrip.

Import JSONParser JSONWriter.

Lemma hex_value_hex_digit (d : N) :
  (d < 16)%N -> hex_value (hex_digit d) = Some d.
Proof.
  intros H.
  assert (C : (d = 0 \/ d = 1 \/ d = 2 \/ d = 3 \/ d = 4 \/ d = 5 \/ d = 6
               \/ d = 7 \/ d = 8 \/ d = 9 \/ d = 10 \/ d = 11 \/ d = 12
               \/ d = 13 \/ d = 14 \/ d = 15)%N) by lia.
  repeat (destruct C as [->|C]; [reflexivity|]). now subst.
Qed.

Lemma hex_digits_value (c : N) :
  (c < 65536)%N ->
  (16 * (16 * (16 * (16 * 0 + (c / 4096) mod 16) + (c / 256) mod 16)
           + (c / 16) mod 16) + c mod 16 = c)%N.
Proof.
  intros H.
  assert (H3 : ((c / 4096) mod 16 = c / 4096)%N).
  { apply N.mod_small. apply N.Div0.div_lt_upper_bound. lia. }
  rewrite H3.
  pose proof (N.div_mod c 16 ltac:(lia)) as E0.
  pose proof (N.div_mod (c / 16) 16 ltac:(lia)) as E1.
  pose proof (N.div_mod (c / 256) 16 ltac:(lia)) as E2.
  replace (c / 16 / 16)%N with (c / 256)%N in E1
    by (rewrite N.Div0.div_div; reflexivity).
  replace (c / 256 / 16)%N with (c / 4096)%N in E2
    by (rewrite N.Div0.div_div; reflexivity).
  lia.
Qed.

Lemma run_UnicodeEscape (st : list frame) (k : bool) (acc : jsstring)
  (c : jschar) (rest : jsstring) :
  (c < 65536)%N ->
  run (mkMachine st (InString k acc NoEscape)) (UnicodeEscape c ++ rest)
  = run (mkMachine st (InString k (c :: acc) NoEscape)) rest.
Proof.
  intros H. unfold UnicodeEscape.
  cbn [app run step ctl stack step_string N.eqb Pos.eqb N.ltb N.compare Pos.compare Pos.compare_cont].
  repeat (rewrite hex_value_hex_digit by (apply N.mod_lt; lia);
          cbn [run step ctl stack step_string]).
  now rewrite hex_digits_value.
Qed.

Lemma run_quote_unit (st : list frame) (k : bool) (acc : jsstring)
  (c : jschar) (rest : jsstring) :
  run (mkMachine st (InString k acc NoEscape)) (quote_unit c ++ rest)
  = run (mkMachine st (InString k (c :: acc) NoEscape)) rest.
Proof.
  unfold quote_unit.
  destruct (c =? 8)%N eqn:E8; [apply N.eqb_eq in E8; subst; reflexivity|].
  destruct (c =? 9)%N eqn:E9; [apply N.eqb_eq in E9; subst; reflexivity|].
  destruct (c =? 10)%N eqn:E10; [apply N.eqb_eq in E10; subst; reflexivity|].
  destruct (c =? 12)%N eqn:E12; [apply N.eqb_eq in E12; subst; reflexivity|].
  destruct (c =? 13)%N eqn:E13; [apply N.eqb_eq in E13; subst; reflexivity|].
  destruct (c =? 34)%N eqn:E34; [apply N.eqb_eq in E34; subst; reflexivity|].
  destruct (c =? 92)%N eqn:E92; [apply N.eqb_eq in E92; subst; reflexivity|].
  destruct ((c <? 32)%N || is_leading_surrogate c || is_trailing_surrogate c)
    eqn:Esc.
  - apply run_UnicodeEscape.
    unfold is_leading_surrogate, is_trailing_surrogate in Esc.
    apply orb_true_iff in Esc as [Esc|Esc];
      [apply orb_true_iff in Esc as [Esc|Esc]|].
    + apply N.ltb_lt in Esc. lia.
    + apply andb_true_iff in Esc as [_ Esc]. apply N.leb_le in Esc. lia.
    + apply andb_true_iff in Esc as [_ Esc]. apply N.leb_le in Esc. lia.
  - apply orb_false_iff in Esc as [Esc _]. apply orb_false_iff in Esc as [Esc _].
    cbn [app run step ctl stack step_string]. now rewrite E34, E92, Esc.
Qed.

Lemma run_surrogate (st : list frame) (k : bool) (acc : jsstring)
  (c : jschar) (rest : jsstring) :
  (55296 <= c)%N ->
  run (mkMachine st (InString k acc NoEscape)) (c :: rest)
  = run (mkMachine st (InString k (c :: acc) NoEscape)) rest.
Proof.
  intros H. cbn [run step ctl stack step_string].
  replace (c =? 34)%N with false by (symmetry; apply N.eqb_neq; lia).
  replace (c =? 92)%N with false by (symmetry; apply N.eqb_neq; lia).
  replace (c <? 32)%N with false by (symmetry; apply N.ltb_ge; lia).
  reflexivity.
Qed.

Lemma quote_units_cons (c d : jschar) (s : jsstring) :
  quote_units (c :: d :: s)
  = if is_leading_surrogate c && is_trailing_surrogate d
    then c :: d :: quote_units s
    else quote_unit c ++ quote_units (d :: s).
Proof. reflexivity. Qed.

Lemma run_quote_units_bounded (n : nat) (s : jsstring) :
  length s <= n ->
  forall (st : list frame) (k : bool) (acc rest : jsstring),
    run (mkMachine st (InString k acc NoEscape)) (quote_units s ++ rest)
    = run (mkMachine st (InString k (rev s ++ acc) NoEscape)) rest.
Proof.
  revert s. induction n as [|n IH]; intros s Hn st k acc rest.
  - destruct s; [reflexivity | simpl in Hn; lia].
  - destruct s as [|c [|d s]]; [reflexivity | |].
    + cbn [quote_units rev app]. apply run_quote_unit.
    + rewrite quote_units_cons.
      destruct (is_leading_surrogate c && is_trailing_surrogate d) eqn:P.
      * apply andb_true_iff in P as [Pc Pd].
        unfold is_leading_surrogate in Pc. unfold is_trailing_surrogate in Pd.
        apply andb_true_iff in Pc as [Pc _]. apply andb_true_iff in Pd as [Pd _].
        apply N.leb_le in Pc. apply N.leb_le in Pd.
        cbn [app]. rewrite run_surrogate, run_surrogate by lia.
        rewrite IH by (simpl in *; lia).
        cbn [rev]. now rewrite <- !app_assoc.
      * rewrite <- app_assoc, run_quote_unit.
        rewrite IH by (simpl in *; lia).
        cbn [rev]. now rewrite <- !app_assoc.
Qed.

Lemma run_QuoteJSONString (st : list frame) (s rest : jsstring) :
  run (mkMachine st (InString false [] NoEscape))
    (quote_units s ++ DQUOTE :: rest)
  = match deliver (JString s) st with
    | Some m => run m rest
    | None => None
    end.
Proof.
  rewrite (run_quote_units_bounded (length s)) by lia.
  cbn [run step ctl stack step_string DQUOTE N.eqb Pos.eqb end_string].
  now rewrite app_nil_r, rev_involutive.
Qed.

Lemma run_elements (items : list jsstring) (acc : list JSON) (s : jsstring) :
  run (mkMachine [InArray acc] (InString false [] NoEscape))
    (quote_units s ++ DQUOTE
       :: match items with
          | [] => []
          | _ :: _ => 44%N :: elements items
          end ++ [RegExp.RBRACKET])
  = Some (JArray (rev acc ++ JString s :: map JString items)).
Proof.
  revert acc s. induction items as [|s' items IH]; intros acc s.
  - rewrite run_QuoteJSONString. cbn [deliver app].
    cbn [run step ctl stack step_plain is_json_ws RegExp.RBRACKET N.eqb Pos.eqb
         close_container deliver finish rev].
    reflexivity.
  - rewrite run_QuoteJSONString. cbn [deliver app].
    cbn [run step ctl stack step_plain is_json_ws N.eqb Pos.eqb].
    assert (E : elements (s' :: items)
                = DQUOTE :: quote_units s' ++ DQUOTE
                    :: match items with
                       | [] => []
                       | _ :: _ => 44%N :: elements items
                       end).
    { destruct items; cbn [elements QuoteJSONString app].
      - reflexivity.
      - now rewrite <- app_assoc. }
    rewrite E. cbn [app].
    cbn [run step ctl stack step_plain is_json_ws DQUOTE N.eqb Pos.eqb start_value].
    rewrite <- app_assoc. cbn [app].
    rewrite IH. cbn [rev map]. now rewrite <- app_assoc.
Qed.

Lemma parse_QuoteJSONString (s : jsstring) :
  parse (QuoteJSONString s) = Some (JString s).
Proof.
  unfold parse, QuoteJSONString.
  cbn [run step ctl stack step_plain is_json_ws DQUOTE N.eqb Pos.eqb start_value].
  change (34%N) with DQUOTE. rewrite run_QuoteJSONString.
  reflexivity.
Qed.

Lemma parse_stringify_strings (items : list jsstring) :
  parse (JSON_stringify_strings items) = Some (JArray (map JString items)).
Proof.
  unfold parse, JSON_stringify_strings.
  destruct items as [|s items]; [reflexivity|].
  assert (E : elements (s :: items)
              = DQUOTE :: quote_units s ++ DQUOTE
                  :: match items with
                     | [] => []
                     | _ :: _ => 44%N :: elements items
                     end).
  { destruct items; cbn [elements QuoteJSONString app].
    - reflexivity.
    - now rewrite <- app_assoc. }
  rewrite E.
  cbn [app run step ctl stack step_plain is_json_ws RegExp.LBRACKET DQUOTE
       N.eqb Pos.eqb start_value].
  rewrite <- app_assoc. cbn [app].
  apply (run_elements items [] s).
Qed.

End RoundTrip.

(** X11.  What [JSON.stringify] writes for a string, and for an array of
    strings, [JSON.parse] reads back as that string and as the array of
    those strings, whatever code units they hold: quotes, backslashes,
    control characters and lone surrogates included. *)
Theorem JSON_parse_stringify (s : jsstring) (items : list jsstring) :
  JSON_parse (JSON_stringify_string s) = Return (JString s)
  /\ JSON_parse (JSON_stringify_strings items) = Return (JArray (map JString items)).
Proof.
  unfold JSON_parse, JSON_stringify_string.
  now rewrite parse_QuoteJSONString, parse_stringify_strings.
Qed.

(** ** An outline read from a well-formed reply *)

Lemma trimStart_app_kept (pre : jsstring) (c : jschar) (rest : jsstring) :
  is_trim_space c = false ->
  trimStart (pre ++ c :: rest) = trimStart pre ++ c :: rest.
Proof.
  intros Hc. induction pre as [|d pre IH]; simpl.
  - now rewrite Hc.
  - destruct (is_trim_space d); [exact IH | reflexivity].
Qed.

Lemma trimEnd_app_kept (pre : jsstring) (c : jschar) (post : jsstring) :
  is_trim_space c = false ->
  trimEnd (pre ++ c :: post) = pre ++ c :: trimEnd post.
Proof.
  intros Hc. unfold trimEnd.
  rewrite rev_app_distr. simpl. rewrite <- app_assoc. simpl.
  rewrite trimStart_app_kept by assumption.
  rewrite rev_app_distr. simpl. rewrite rev_involutive.
  now rewrite <- app_assoc.
Qed.

Lemma trim_around (pre : jsstring) (a : jschar) (mid : jsstring) (b : jschar)
  (post : jsstring) :
  is_trim_space a = false -> is_trim_space b = false ->
  trim (pre ++ a :: mid ++ b :: post)
  = trimStart pre ++ a :: mid ++ b :: trimEnd post.
Proof.
  intros Ha Hb. unfold trim. rewrite trimStart_app_kept by assumption.
  replace (trimStart pre ++ a :: mid ++ b :: post)
    with ((trimStart pre ++ a :: mid) ++ b :: post)
    by (now rewrite <- app_assoc).
  rewrite trimEnd_app_kept by assumption. now rewrite <- app_assoc.
Qed.

Lemma trimStart_incl (s : jsstring) (c : jschar) : In c (trimStart s) -> In c s.
Proof.
  destruct (trimStart_suffix s) as [sp [E _]]. intros H. rewrite E.
  apply in_or_app. now right.
Qed.

Lemma trimEnd_incl (s : jsstring) (c : jschar) : In c (trimEnd s) -> In c s.
Proof.
  destruct (trimEnd_prefix s) as [sp [E _]]. intros H. rewrite E.
  apply in_or_app. now left.
Qed.

(** X12.  The success path from end to end.  When the completion service
    replies with the JSON text of a non-empty array of strings, as
    [JSON.stringify] writes it, alone or with prose around it that has no
    opening bracket before and no closing bracket after, the outline is
    made of exactly those strings, whatever they contain: cut to the
    first N, or followed by the continuation string up to N (N below
    2^32, as an array requires). *)
Theorem generateStoryOutline_reads_array (env : Environment)
  (route : RouteDetails) (n : nat) (items : list jsstring)
  (before after : jsstring) :
  (Z.of_nat n < 2 ^ 32)%Z ->
  items <> [] ->
  ~ In RegExp.LBRACKET before -> ~ In RegExp.RBRACKET after ->
  outline_reply env route n
  = Return (Some (JString (before ++ JSON_stringify_strings items ++ after))) ->
  generateStoryOutline env route n
  = Return (firstn n (map JString items
                        ++ repeat (JString OUTLINE_PADDING) (n - length items)))
  /\ (length items = n ->
      generateStoryOutline env route n = Return (map JString items)).
Proof.
  intros Hn Hne Hb Ha Hr.
  assert (Ht : trim (before ++ JSON_stringify_strings items ++ after)
               = trimStart before ++ JSON_stringify_strings items ++ trimEnd after).
  { unfold JSON_stringify_strings. cbn [app]. rewrite <- !app_assoc. cbn [app].
    now apply trim_around. }
  assert (Hj : jsonString (trimStart before ++ JSON_stringify_strings items
                             ++ trimEnd after)
               = JSON_stringify_strings items).
  { unfold JSON_stringify_strings. cbn [app]. rewrite <- !app_assoc. cbn [app].
    apply jsonString_greedy.
    - intros H. apply Hb. now apply trimStart_incl.
    - intros H. apply Ha. now apply trimEnd_incl. }
  assert (Hp : parsed_reply (Some (JString (before ++ JSON_stringify_strings items ++ after)))
               = Some (Return (JArray (map JString items)))).
  { unfold parsed_reply. rewrite Ht.
    destruct (trimStart before ++ JSON_stringify_strings items ++ trimEnd after)
      as [|c t] eqn:E.
    - exfalso. apply (f_equal (@length _)) in E.
      rewrite !length_app in E. unfold JSON_stringify_strings in E.
      simpl in E. lia.
    - cbv beta iota. rewrite Hj. unfold JSON_parse.
      now rewrite parse_stringify_strings. }
  assert (Hres : generateStoryOutline env route n
                 = Return (firstn n (map JString items
                             ++ repeat (JString OUTLINE_PADDING) (n - length items)))).
  { rewrite generateStoryOutline_cases by exact Hn. rewrite Hr, Hp.
    destruct items as [|s items]; [contradiction|]. cbn [map].
    unfold slice_first. cbn [length]. now rewrite length_map. }
  split; [exact Hres|].
  intros Hlen. rewrite Hres, Hlen, Nat.sub_diag. cbn [repeat].
  rewrite app_nil_r. rewrite <- Hlen, <- (length_map JString items).
  now rewrite firstn_all.
Qed.

Lemma generateStoryOutline_reads_array_witness :
  generateStoryOutline
    (saying (lit "Here it is: " ++ JSON_stringify_strings [lit "Dawn"; lit "Dusk"]
               ++ lit " Enjoy!"))
    sample_route 2
  = Return [JString (lit "Dawn"); JString (lit "Dusk")].
Proof.
  refine (proj2 (generateStoryOutline_reads_array
                   (saying (lit "Here it is: "
                              ++ JSON_stringify_strings [lit "Dawn"; lit "Dusk"]
                              ++ lit " Enjoy!"))
                   sample_route 2 [lit "Dawn"; lit "Dusk"]
                   (lit "Here it is: ") (lit " Enjoy!") _ _ _ _ _) _).
  - reflexivity.
  - discriminate.
  - vm_compute. intuition discriminate.
  - vm_compute. intuition discriminate.
  - reflexivity.
  - reflexivity.
Defined.

(** ** The build configuration *)

Lemma startsWith_spec (s prefix : jsstring) :
  startsWith s prefix = true <-> exists post, s = prefix ++ post.
Proof.
  revert s. induction prefix as [|p prefix IH]; intros s.
  - simpl. split; [intros _; now exists s | reflexivity].
  - destruct s as [|c s]; simpl.
    + split; [discriminate | intros [post E]; discriminate].
    + rewrite andb_true_iff, IH. unfold jschar_eqb. rewrite N.eqb_eq. split.
      * intros [-> [post ->]]. now exists post.
      * intros [post E]. injection E as -> ->. split; [reflexivity | now exists post].
Qed.

Lemma includes_spec (s sub : jsstring) :
  includes s sub = true <-> substring_of sub s.
Proof.
  induction s as [|c s IH].
  - simpl. rewrite orb_false_r, startsWith_spec. split.
    + intros [post E]. now exists [], post.
    + intros [pre [post E]]. destruct pre; [now exists post | discriminate].
  - cbn [includes]. rewrite orb_true_iff, startsWith_spec, IH. split.
    + intros [[post E]|[pre [post E]]].
      * now exists [], post.
      * exists (c :: pre), post. simpl. now rewrite E.
    + intros [[|d pre] [post E]].
      * left. now exists post.
      * right. injection E as -> E. now exists pre, post.
Qed.

Lemma cleanKey_cases (key : option jsstring) :
  cleanKey key
  = match key with
    | Some raw =>
        if jsstring_eqb (trim raw) [] || includes (trim raw) KEY_PLACEHOLDER
        then None else Some (trim raw)
    | None => None
    end.
Proof.
  destruct key as [[|c raw]|]; reflexivity.
Qed.

Lemma cleanKey_nonempty (key : option jsstring) : cleanKey key <> Some [].
Proof.
  rewrite cleanKey_cases. destruct key as [raw|]; [|discriminate].
  destruct (trim raw) as [|c t]; [discriminate|].
  destruct (_ || _); discriminate.
Qed.

Lemma cleanKey_trimmed (key : option jsstring) (k : jsstring) :
  cleanKey key = Some k -> trimmed k.
Proof.
  rewrite cleanKey_cases. destruct key as [raw|]; [|discriminate].
  destruct (_ || _); [discriminate|]. intros H. injection H as <-.
  apply trim_trimmed.
Qed.

(** X13.  A key that comes out of [cleanKey] is the key read from the
    environment with the white space at its ends removed: it is not empty,
    neither begins nor ends with white space, does not contain the
    placeholder, and cleaning it again leaves it as it is.  A missing key,
    a blank one and one that contains the placeholder give [undefined]. *)
Theorem cleanKey_result (key : option jsstring) :
  (forall k, cleanKey key = Some k ->
     k <> [] /\ trimmed k /\ ~ substring_of KEY_PLACEHOLDER k
     /\ (exists raw, key = Some raw /\ k = trim raw)
     /\ cleanKey (Some k) = Some k)
  /\ (key = None -> cleanKey key = None)
  /\ (forall raw, key = Some raw -> trim raw = [] -> cleanKey key = None)
  /\ (forall raw, key = Some raw -> substring_of KEY_PLACEHOLDER raw ->
        cleanKey key = None)
  /\ (forall raw, key = Some raw -> raw <> [] -> trimmed raw ->
        ~ substring_of KEY_PLACEHOLDER raw -> cleanKey key = Some raw).
Proof.
  split; [|split; [|split; [|split]]].
  - intros k H. rewrite cleanKey_cases in H.
    destruct key as [raw|]; [|discriminate].
    destruct (jsstring_eqb (trim raw) []) eqn:E1; [discriminate|].
    destruct (includes (trim raw) KEY_PLACEHOLDER) eqn:E2; [discriminate|].
    injection H as <-.
    assert (Hne : trim raw <> []).
    { intros E. rewrite E in E1. discriminate. }
    assert (Hin : ~ substring_of KEY_PLACEHOLDER (trim raw)).
    { intros Hs. apply includes_spec in Hs. rewrite Hs in E2. discriminate. }
    split; [exact Hne|]. split; [apply trim_trimmed|]. split; [exact Hin|].
    split; [now exists raw|].
    rewrite cleanKey_cases, (trim_fixed (trim raw)) by apply trim_trimmed.
    now rewrite E1, E2.
  - intros ->. reflexivity.
  - intros raw -> E. rewrite cleanKey_cases, E. reflexivity.
  - intros raw -> [pre [post E]]. rewrite cleanKey_cases.
    assert (Hs : substring_of KEY_PLACEHOLDER (trim raw)).
    { rewrite E. unfold KEY_PLACEHOLDER.
      change (lit "YOUR_API_KEY") with (89%N :: lit "OUR_API_KE" ++ [89%N]).
      cbn [app]. rewrite <- app_assoc. cbn [app].
      rewrite trim_around by reflexivity.
      exists (trimStart pre), (trimEnd post).
      cbn [app]. now rewrite <- app_assoc. }
    apply includes_spec in Hs. rewrite Hs, orb_true_r. reflexivity.
  - intros raw -> Hne Ht Hp. rewrite cleanKey_cases, (trim_fixed raw Ht).
    destruct raw as [|c raw]; [contradiction|]. cbn [jsstring_eqb orb].
    destruct (includes (c :: raw) KEY_PLACEHOLDER) eqn:E; [|reflexivity].
    apply includes_spec in E. contradiction.
Qed.

Lemma cleanKey_result_witness :
  cleanKey (Some (lit "  sk-YOUR_API_KEY-here ")) = None
  /\ cleanKey (Some (lit "sk-live-42")) = Some (lit "sk-live-42").
Proof.
  split.
  - apply (proj1 (proj2 (proj2 (proj2
             (cleanKey_result (Some (lit "  sk-YOUR_API_KEY-here ")))))) _ eq_refl).
    exists (lit "  sk-"), (lit "-here "). reflexivity.
  - apply (proj2 (proj2 (proj2 (proj2
             (cleanKey_result (Some (lit "sk-live-42")))))) _ eq_refl).
    + discriminate.
    + split; intros c t E.
      * injection E as <- _. reflexivity.
      * change (lit "sk-live-42") with (lit "sk-live-4" ++ [50%N]) in E.
        apply app_inj_tail in E as [_ <-]. reflexivity.
    + intros H. apply includes_spec in H. discriminate.
Defined.

Lemma falsy_cleanKey (key : option jsstring) :
  falsy (cleanKey key) = match cleanKey key with Some _ => false | None => true end.
Proof.
  pose proof (cleanKey_nonempty key) as H.
  destruct (cleanKey key) as [[|c k]|]; [contradiction | reflexivity | reflexivity].
Qed.

Lemma defined_value_define (key : option jsstring) :
  key <> Some [] -> defined_value (define_HACKCLUB_API_KEY key) = key.
Proof.
  intros H. destruct key as [[|c k]|]; [contradiction | | reflexivity].
  unfold define_HACKCLUB_API_KEY. cbn [falsy]. unfold defined_value.
  unfold JSON_parse, JSON_stringify_string.
  rewrite parse_QuoteJSONString. reflexivity.
Qed.

(** X14.  From the build to the request.  When the variable is set in the
    process environment the key of the build is that value cleaned,
    whatever the environment files hold: a placeholder or a blank value
    there leaves the build without a key.  When it is not set, the key is
    the cleaned value of the environment files.  The service reads in the
    bundle exactly the key the build chose; when that key has no quote
    character it is, unchanged, what follows [Bearer ] in the
    Authorization header of every request, and when the build found no
    usable key nothing follows it. *)
Theorem hackclubApiKey_reaches_request (process_env_key dotenv_key : option jsstring)
  (network : jsstring -> FetchInit -> outcome Response)
  (msgs : list ChatMessage) (mdl : jsstring) :
  let key := hackclubApiKey process_env_key dotenv_key in
  let env := bundled process_env_key dotenv_key network in
  (forall v, process_env_key = Some v -> key = cleanKey (Some v))
  /\ (process_env_key = None -> key = cleanKey dotenv_key)
  /\ RAW_API_KEY env = key
  /\ (forall k, key = Some k -> ~ In 34%N k -> ~ In 39%N k ->
        headers (completion_request env msgs mdl)
        = [(lit "Authorization", lit "Bearer " ++ k);
           (lit "Content-Type", lit "application/json")])
  /\ (key = None ->
        headers (completion_request env msgs mdl)
        = [(lit "Authorization", lit "Bearer ");
           (lit "Content-Type", lit "application/json")]).
Proof.
  cbv zeta.
  assert (Hkey : hackclubApiKey process_env_key dotenv_key
                 = match process_env_key with
                   | Some v => cleanKey (Some v)
                   | None => cleanKey dotenv_key
                   end).
  { unfold hackclubApiKey, loadEnv_HACKCLUB_API_KEY. cbv zeta.
    rewrite falsy_cleanKey.
    destruct process_env_key as [v|]; [|reflexivity].
    now destruct (cleanKey (Some v)). }
  assert (Hne : hackclubApiKey process_env_key dotenv_key <> Some []).
  { rewrite Hkey. destruct process_env_key; apply cleanKey_nonempty. }
  assert (Hraw : RAW_API_KEY (bundled process_env_key dotenv_key network)
                 = hackclubApiKey process_env_key dotenv_key).
  { unfold bundled. cbn [RAW_API_KEY]. now apply defined_value_define. }
  assert (Htr : forall k, hackclubApiKey process_env_key dotenv_key = Some k ->
                  trimmed k).
  { intros k. rewrite Hkey.
    destruct process_env_key as [v|]; apply cleanKey_trimmed. }
  split; [|split; [|split; [|split]]].
  - intros v E. now rewrite Hkey, E.
  - intros E. now rewrite Hkey, E.
  - exact Hraw.
  - intros k Hk H34 H39. unfold completion_request. cbn [headers].
    rewrite Hk in Hraw.
    now rewrite (API_KEY_exact _ k Hraw H34 H39 (Htr k Hk)).
  - intros Hk. unfold completion_request. cbn [headers].
    rewrite Hk in Hraw. unfold API_KEY. now rewrite Hraw.
Qed.

Lemma hackclubApiKey_reaches_request_witness :
  headers (completion_request
             (bundled None (Some (lit " sk-live-42 "))
                (fun _ _ => Throw SyntaxError))
             [] DEFAULT_MODEL)
  = [(lit "Authorization", lit "Bearer sk-live-42");
     (lit "Content-Type", lit "application/json")]
  /\ hackclubApiKey (Some (lit "YOUR_API_KEY")) (Some (lit " sk-live-42 "))
     = None.
Proof.
  split; [|exact (proj1 (hackclubApiKey_reaches_request
                           (Some (lit "YOUR_API_KEY")) (Some (lit " sk-live-42 "))
                           (fun _ _ => Throw SyntaxError) [] DEFAULT_MODEL)
                    (lit "YOUR_API_KEY") eq_refl)].
  refine (proj1 (proj2 (proj2 (proj2
            (hackclubApiKey_reaches_request
               None (Some (lit " sk-live-42 "))
               (fun _ _ => Throw SyntaxError) [] DEFAULT_MODEL))))
            (lit "sk-live-42") _ _ _).
  - reflexivity.
  - vm_compute. intuition discriminate.
  - vm_compute. intuition discriminate.
Defined.

(** ** The route planner *)

Lemma is_empty_false (s : jsstring) : s <> [] -> Planner.is_empty s = false.
Proof. destruct s; [contradiction | reflexivity]. Qed.

Lemma is_empty_true (s : jsstring) : Planner.is_empty s = true -> s = [].
Proof. destruct s; [reflexivity | discriminate]. Qed.

Lemma or_typed_nonempty (input : option jsstring) (typed : jsstring) :
  typed <> [] -> Planner.or_typed input typed <> [].
Proof.
  intros H. destruct input as [[|c s]|]; simpl; try assumption. discriminate.
Qed.

Lemma handleCalculate_passed (w : Planner.World)
  (startInputRef endInputRef : option jsstring) (typedStart typedEnd : jsstring)
  (mode : TravelMode) (style : jsstring) :
  let finalStart := Planner.or_typed startInputRef typedStart in
  let finalEnd := Planner.or_typed endInputRef typedEnd in
  finalStart <> [] -> finalEnd <> [] ->
  Planner.handleCalculate w startInputRef endInputRef typedStart typedEnd mode style
  = [Planner.setError None; Planner.setIsLoading true]
    ++ match Planner.geocodeAddress w finalStart,
             Planner.geocodeAddress w finalEnd with
       | Some startCoords, Some endCoords =>
           match Planner.calculateRoute w startCoords endCoords mode with
           | Some route =>
               Planner.route_found w startCoords endCoords route mode style
           | None =>
               [Planner.setError (Some Planner.NO_ROUTE); Planner.setIsLoading false]
           end
       | _, _ =>
           [Planner.setError (Some Planner.LOCATION_NOT_FOUND);
            Planner.setIsLoading false]
       end
    ++ [Planner.setIsLoading false].
Proof.
  cbv zeta. intros Hs He. unfold Planner.handleCalculate. cbv zeta.
  now rewrite (is_empty_false _ Hs), (is_empty_false _ He).
Qed.

Lemma handleCalculate_missing (w : Planner.World)
  (startInputRef endInputRef : option jsstring) (typedStart typedEnd : jsstring)
  (mode : TravelMode) (style : jsstring) :
  Planner.or_typed startInputRef typedStart = []
  \/ Planner.or_typed endInputRef typedEnd = [] ->
  Planner.handleCalculate w startInputRef endInputRef typedStart typedEnd mode style
  = [Planner.setError (Some Planner.MISSING_LOCATION)].
Proof.
  intros H. unfold Planner.handleCalculate. cbv zeta.
  destruct H as [-> | ->]; [reflexivity|]. now rewrite orb_true_r.
Qed.

(** X15.  The input check of the handler.  With no start or no end, taken from
    the input element and, failing that, from the typed state, the handler
    sets the error that asks for both and does nothing else: the loading
    flag is not touched and no route is handed over.  Otherwise it clears
    the error, raises the loading flag, and lowers it at the very end.
    While the button that runs it is enabled the check always passes. *)
Theorem handleCalculate_validation (w : Planner.World)
  (startInputRef endInputRef : option jsstring) (typedStart typedEnd : jsstring)
  (mode : TravelMode) (style : jsstring) (c : Planner.Component)
  (isLocked : bool) :
  let finalStart := Planner.or_typed startInputRef typedStart in
  let finalEnd := Planner.or_typed endInputRef typedEnd in
  let effects :=
    Planner.handleCalculate w startInputRef endInputRef typedStart typedEnd
      mode style in
  (finalStart = [] \/ finalEnd = [] ->
     effects = [Planner.setError (Some Planner.MISSING_LOCATION)]
     /\ Planner.found effects = []
     /\ Planner.isLoading (Planner.after c effects) = Planner.isLoading c)
  /\ (finalStart <> [] -> finalEnd <> [] ->
        exists body,
          effects = Planner.setError None :: Planner.setIsLoading true
                      :: body ++ [Planner.setIsLoading false])
  /\ (Planner.disabled c isLocked typedStart typedEnd = false ->
        finalStart <> [] /\ finalEnd <> []).
Proof.
  cbv zeta. split; [|split].
  - intros H. rewrite (handleCalculate_missing _ _ _ _ _ _ _ H). repeat split.
  - intros Hs He. rewrite (handleCalculate_passed _ _ _ _ _ _ _ Hs He).
    eexists. reflexivity.
  - unfold Planner.disabled. intros H.
    apply orb_false_iff in H as [H He]. apply orb_false_iff in H as [_ Hs].
    split; apply or_typed_nonempty.
    + intros E. rewrite E in Hs. discriminate.
    + intros E. rewrite E in He. discriminate.
Qed.

Lemma handleCalculate_validation_witness :
  Planner.handleCalculate sample_world None (Some []) (lit "Old Town") []
    WALKING (lit "NOIR")
  = [Planner.setError (Some Planner.MISSING_LOCATION)].
Proof.
  refine (proj1 (proj1 (handleCalculate_validation sample_world None (Some [])
                          (lit "Old Town") [] WALKING (lit "NOIR")
                          (Planner.mkComponent None false) false) _)).
  right. reflexivity.
Defined.

Lemma after_app (c : Planner.Component) (a b : list Planner.effect) :
  Planner.after c (a ++ b) = Planner.after (Planner.after c a) b.
Proof. apply fold_left_app. Qed.

Lemma found_app (a b : list Planner.effect) :
  Planner.found (a ++ b) = Planner.found a ++ Planner.found b.
Proof.
  induction a as [|e a IH]; [reflexivity|].
  destruct e; simpl; now rewrite IH.
Qed.

(** X16.  How a run of the handler ends, once the input check has passed.  The
    loading flag is down.  Either no route is handed to the parent and
    the error is one of three fixed messages (a place was not found, no
    route was found, the journey is longer than four hours), or exactly
    one route is handed over and the error is cleared, unless the
    callback of the parent throws, which leaves the message of a failed
    calculation. *)
Theorem handleCalculate_outcome (w : Planner.World)
  (startInputRef endInputRef : option jsstring) (typedStart typedEnd : jsstring)
  (mode : TravelMode) (style : jsstring) (c : Planner.Component) :
  let effects :=
    Planner.handleCalculate w startInputRef endInputRef typedStart typedEnd
      mode style in
  Planner.or_typed startInputRef typedStart <> [] ->
  Planner.or_typed endInputRef typedEnd <> [] ->
  Planner.isLoading (Planner.after c effects) = false
  /\ ((Planner.found effects = []
       /\ (Planner.error (Planner.after c effects) = Some Planner.LOCATION_NOT_FOUND
           \/ Planner.error (Planner.after c effects) = Some Planner.NO_ROUTE
           \/ Planner.error (Planner.after c effects) = Some Planner.TOO_LONG))
      \/ (exists details,
            Planner.found effects = [details]
            /\ Planner.error (Planner.after c effects)
               = match Planner.onRouteFound_throws w details with
                 | Some _ => Some Planner.FAILED
                 | None => None
                 end)).
Proof.
  cbv zeta. intros Hs He. rewrite (handleCalculate_passed _ _ _ _ _ _ _ Hs He).
  rewrite !after_app, !found_app. split; [reflexivity|].
  destruct (Planner.geocodeAddress w (Planner.or_typed startInputRef typedStart))
    as [sc|]; [|left; split; [reflexivity | now left]].
  destruct (Planner.geocodeAddress w (Planner.or_typed endInputRef typedEnd))
    as [ec|]; [|left; split; [reflexivity | now left]].
  destruct (Planner.calculateRoute w sc ec mode) as [route|];
    [|left; split; [reflexivity | right; now left]].
  unfold Planner.route_found. cbv zeta.
  destruct (Binary64_gt (OSRM.duration route) (Binary64.of_Z 14400));
    [left; split; [reflexivity | right; now right]|].
  right. eexists. split.
  - cbn [Planner.found app]. destruct (Planner.onRouteFound_throws w _); reflexivity.
  - destruct (Planner.onRouteFound_throws w _); reflexivity.
Qed.

Lemma handleCalculate_outcome_witness :
  Planner.isLoading
    (Planner.after (Planner.mkComponent (Some (lit "stale")) false)
       (Planner.handleCalculate sample_world (Some (lit "Old Town")) None []
          (lit "Harbour") WALKING (lit "NOIR")))
  = false.
Proof.
  refine (proj1 (handleCalculate_outcome sample_world (Some (lit "Old Town")) None []
                   (lit "Harbour") WALKING (lit "NOIR")
                   (Planner.mkComponent (Some (lit "stale")) false) _ _)).
  - discriminate.
  - discriminate.
Defined.

Lemma found_run (w : Planner.World)
  (startInputRef endInputRef : option jsstring) (typedStart typedEnd : jsstring)
  (mode : TravelMode) (style : jsstring) (details : Planner.Found) :
  In details
    (Planner.found
       (Planner.handleCalculate w startInputRef endInputRef typedStart typedEnd
          mode style)) ->
  exists startCoords endCoords route,
    Planner.geocodeAddress w (Planner.or_typed startInputRef typedStart)
    = Some startCoords
    /\ Planner.geocodeAddress w (Planner.or_typed endInputRef typedEnd)
       = Some endCoords
    /\ Planner.calculateRoute w startCoords endCoords mode = Some route
    /\ Binary64_gt (OSRM.duration route) (Binary64.of_Z 14400) = false
    /\ details
       = Planner.mkFound (Planner.display_name startCoords)
           (Planner.display_name endCoords)
           (Planner.distanceText w (OSRM.distance route))
           (Planner.durationText w (OSRM.duration route)) (OSRM.duration route)
           mode (lit "Kore") style.
Proof.
  intros H.
  destruct (Planner.is_empty (Planner.or_typed startInputRef typedStart)
            || Planner.is_empty (Planner.or_typed endInputRef typedEnd)) eqn:E.
  - exfalso. rewrite handleCalculate_missing in H; [exact H|].
    apply orb_true_iff in E as [E|E]; [left | right]; now apply is_empty_true.
  - apply orb_false_iff in E as [E1 E2].
    rewrite handleCalculate_passed in H
      by (intros E; rewrite E in *; discriminate).
    rewrite !found_app in H. cbn [Planner.found app] in H. rewrite app_nil_r in H.
    destruct (Planner.geocodeAddress w (Planner.or_typed startInputRef typedStart))
      as [sc|] eqn:Gs; [|contradiction].
    destruct (Planner.geocodeAddress w (Planner.or_typed endInputRef typedEnd))
      as [ec|] eqn:Ge; [|contradiction].
    destruct (Planner.calculateRoute w sc ec mode) as [route|] eqn:Gr;
      [|contradiction].
    unfold Planner.route_found in H. cbv zeta in H.
    destruct (Binary64_gt (OSRM.duration route) (Binary64.of_Z 14400)) eqn:G;
      [contradiction|].
    exists sc, ec, route. repeat split; try assumption.
    cbn [Planner.found] in H.
    destruct (Planner.onRouteFound_throws w _); cbn [Planner.found] in H;
      destruct H as [<-|[]]; reflexivity.
Qed.

Section PlannerFound.

Lemma of_Z_14400 :
  Binary64.of_Z 14400 = S754_finite false 7916483719987200 (-39).
Proof. reflexivity. Qed.

(** A number that is not above the cap is at most 14400. *)
Lemma not_gt_cap (d : Binary64.number) (q : Q) :
  is_number d = true ->
  Binary64_gt d (Binary64.of_Z 14400) = false ->
  Binary64.to_Q d = Some q -> (q <= inject_Z DURATION_CAP)%Q.
Proof.
  intros Hv Hgt Hq. unfold DURATION_CAP.
  destruct d as [s| s | |s m e]; try discriminate.
  - injection Hq as <-. discriminate.
  - destruct s.
    + injection Hq as <-.
      pose proof (value_of_pos m e) as P.
      apply Qle_trans with 0%Q; [|discriminate].
      assert (E : ((-1) * inject_Z (Zpos m) * (2 # 1) ^ e == - value_of m e)%Q)
        by (unfold value_of; ring).
      rewrite E. set (V := value_of m e) in *. clearbody V. lra.
    + destruct (to_Q_finite m e) as [q' [Hq' Eq]].
      rewrite Hq in Hq'. injection Hq' as <-. rewrite Eq. clear Eq Hq.
      pose proof (canonical_digits m e Hv) as Hm.
      change (2 ^ 53)%Z with 9007199254740992%Z in Hm.
      rewrite of_Z_14400 in Hgt.
      unfold Binary64_gt, SFltb, SFcompare in Hgt.
      destruct (Z.compare_spec (-39) e) as [He|He|He]; [|discriminate|].
      * subst e.
        assert (Hle : (Zpos m <= 7916483719987200)%Z).
        { destruct (Pos.compare_cont Eq 7916483719987200 m) eqn:C;
            try discriminate.
          - apply Pos.compare_eq in C. subst m. reflexivity.
          - apply Pos.compare_gt_iff in C. apply Z.lt_le_incl.
            exact C. }
        unfold value_of. apply (proj2 (scaled_le (Zpos m) 14400 39 ltac:(lia))).
        exact Hle.
      * unfold value_of. replace e with (- (- e))%Z by lia.
        apply (proj2 (scaled_le (Zpos m) 14400 (- e) ltac:(lia))).
        assert (P : (2 ^ 40 <= 2 ^ (- e))%Z) by (apply Z.pow_le_mono_r; lia).
        change (2 ^ 40)%Z with 1099511627776%Z in P. lia.
Qed.

Lemma segmentCount_capped (D : Q) :
  (D <= inject_Z DURATION_CAP)%Q -> (segmentCount D <= 240)%Z.
Proof.
  intros HD. unfold segmentCount, DURATION_CAP in *.
  change (inject_Z (Z.of_nat TARGET_SEGMENT_DURATION_SEC)) with (60 # 1)%Q.
  pose proof (Qceiling_lt (D / (60 # 1))) as Hlo.
  set (c := Qceiling (D / (60 # 1))) in *.
  unfold Qdiv in Hlo. change (/ (60 # 1))%Q with (1 # 60)%Q in Hlo.
  assert (Ec : (inject_Z (c - 1) == inject_Z c - 1)%Q).
  { unfold Z.sub. rewrite inject_Z_plus. reflexivity. }
  rewrite Ec in Hlo.
  assert (Hc : (c <= 240)%Z).
  { apply Z.lt_succ_r. rewrite Zlt_Qlt.
    change (inject_Z (Z.succ 240)) with 241%Q.
    change (inject_Z 14400) with 14400%Q in HD. lra. }
  lia.
Qed.

(** X17.  A route that the handler hands to the parent.  Its voice is Kore, its
    style and travel mode are the selected ones, its two addresses are the
    display names the geocoder found, not the text typed, and its duration
    in seconds is the one of the routing service, which is not above
    14400.  When that duration is a finite number, the story service gets
    a route of at most four hours, for which the sizing expression gives
    at most 240 segments; and when it is not negative the sizing
    calculator, run on the duration the handler hands over, returns
    that count, an integer from 1 to 240. *)
Theorem handleCalculate_found (w : Planner.World)
  (startInputRef endInputRef : option jsstring) (typedStart typedEnd : jsstring)
  (mode : TravelMode) (style : jsstring) (details : Planner.Found) :
  In details
    (Planner.found (Planner.handleCalculate w startInputRef endInputRef typedStart typedEnd
              mode style)) ->
  Planner.voiceName details = lit "Kore"
  /\ Planner.storyStyle details = style
  /\ Planner.travelMode details = mode
  /\ (exists startCoords endCoords route,
        Planner.geocodeAddress w (Planner.or_typed startInputRef typedStart) = Some startCoords
        /\ Planner.geocodeAddress w (Planner.or_typed endInputRef typedEnd) = Some endCoords
        /\ Planner.calculateRoute w startCoords endCoords mode = Some route
        /\ Planner.startAddress details = Planner.display_name startCoords
        /\ Planner.endAddress details = Planner.display_name endCoords
        /\ Planner.durationSeconds details = OSRM.duration route
        /\ Planner.duration details = Planner.durationText w (OSRM.duration route)
        /\ Planner.distance details = Planner.distanceText w (OSRM.distance route))
  /\ Binary64_gt (Planner.durationSeconds details) (Binary64.of_Z 14400) = false
  /\ (is_number (Planner.durationSeconds details) = true ->
      forall r, route_details details = Some r ->
        (durationSeconds r <= inject_Z DURATION_CAP)%Q
        /\ (segmentCount (durationSeconds r) <= 240)%Z
        /\ ((0 <= durationSeconds r)%Q ->
            exists N : Z,
              calculateTotalSegments (Planner.durationSeconds details)
              = Binary64.of_Z N
              /\ N = segmentCount (durationSeconds r)
              /\ (1 <= N <= 240)%Z)).
Proof.
  intros H. apply found_run in H.
  destruct H as [sc [ec [route [Gs [Ge [Gr [Gt ->]]]]]]].
  cbn [Planner.voiceName Planner.storyStyle Planner.travelMode Planner.startAddress Planner.endAddress Planner.durationSeconds
       Planner.duration Planner.distance].
  split; [reflexivity|]. split; [reflexivity|]. split; [reflexivity|].
  split; [exists sc, ec, route; repeat split; assumption|].
  split; [exact Gt|].
  intros Hv r Hr. unfold route_details in Hr.
  cbn [Planner.durationSeconds] in Hr.
  destruct (Binary64.to_Q (OSRM.duration route)) as [q|] eqn:Hq; [|discriminate].
  injection Hr as <-. cbn [durationSeconds].
  pose proof (not_gt_cap _ q Hv Gt Hq) as Hcap.
  split; [exact Hcap|]. split; [now apply segmentCount_capped|].
  intros H0. exists (segmentCount q).
  split; [|split; [reflexivity|split]].
  - apply sizing_below_2_53; try assumption.
    apply Qle_lt_trans with (1 := Hcap). reflexivity.
  - now apply (proj1 (segmentCount_covers q)).
  - now apply segmentCount_capped.
Qed.

End PlannerFound.

Lemma handleCalculate_found_witness :
  Planner.voiceName
    (Planner.mkFound (lit "Old Town, Springfield") (lit "Harbour, Springfield")
       (lit "2.4 km") (lit "30min") (Binary64.of_Z 1850) WALKING (lit "Kore")
       (lit "NOIR"))
  = lit "Kore"
  /\ Binary64_gt (Binary64.of_Z 1850) (Binary64.of_Z 14400) = false.
Proof.
  destruct (handleCalculate_found sample_world (Some (lit "Old Town")) None []
              (lit "Harbour") WALKING (lit "NOIR")
              (Planner.mkFound (lit "Old Town, Springfield")
                 (lit "Harbour, Springfield") (lit "2.4 km") (lit "30min")
                 (Binary64.of_Z 1850) WALKING (lit "Kore") (lit "NOIR")))
    as [Hv [_ [_ [_ [Hc _]]]]].
  - left. reflexivity.
  - split; [exact Hv | exact Hc].
Defined.

(** ** The label of a place on the map *)

(** X19.  The label of a place is the part of its address before the first
    comma: it holds no comma, the address is the label alone or the label,
    a comma and the rest, and an address without a comma is its own
    label. *)
Theorem before_comma_label (address : jsstring) :
  ~ In 44%N (before_comma address)
  /\ (address = before_comma address
      \/ exists rest, address = before_comma address ++ 44%N :: rest)
  /\ (~ In 44%N address -> before_comma address = address)
  /\ (forall label rest, ~ In 44%N label ->
        before_comma (label ++ 44%N :: rest) = label).
Proof.
  split; [|split; [|split]].
  - induction address as [|c s IH]; simpl; [intros []|].
    destruct (N.eqb_spec c 44) as [->|Hc]; [intros []|].
    intros [E|E]; [now apply Hc | now apply IH].
  - induction address as [|c s IH]; simpl; [now left|].
    destruct (N.eqb_spec c 44) as [->|Hc].
    + right. now exists s.
    + destruct IH as [IH|[rest IH]].
      * left. now rewrite <- IH.
      * right. exists rest. simpl. now rewrite <- IH.
  - induction address as [|c s IH]; simpl; [reflexivity|]. intros H.
    destruct (N.eqb_spec c 44) as [->|Hc]; [exfalso; apply H; now left|].
    rewrite IH; [reflexivity|]. intros Hin. apply H. now right.
  - intros label rest. induction label as [|c s IH]; simpl; intros H.
    + reflexivity.
    + destruct (N.eqb_spec c 44) as [->|Hc]; [exfalso; apply H; now left|].
      rewrite IH; [reflexivity|]. intros Hin. apply H. now right.
Qed.

Lemma before_comma_label_witness :
  before_comma (lit "Old Town, Springfield") = lit "Old Town".
Proof.
  apply (proj2 (proj2 (proj2 (before_comma_label (lit "Old Town, Springfield"))))
           (lit "Old Town") (lit " Springfield")).
  vm_compute. intuition discriminate.
Defined.

(** ** The duration label of the route planner *)

Section Normalize.

Local Open Scope Z_scope.

(** A positive integer below 2^53, scaled by a power of two in the normal
    range, is a number: the mantissa is the integer shifted to 53
    digits. *)
Lemma normalize_exact (z : positive) (e : Z) :
  Zpos z < 2 ^ 53 -> -1000 <= e <= 900 ->
  exists m e',
    binary_normalize Binary64.prec Binary64.emax (Zpos z) e false
    = S754_finite false m e'
    /\ Zpos (digits2_pos m) = 53
    /\ e' = e + Zpos (digits2_pos z) - 53
    /\ Zpos m = Zpos z * 2 ^ (e - e').
Proof.
  intros Hz He. unfold binary_normalize, binary_round.
  pose proof (digits2_pos_bounds z) as [Blo Bhi].
  assert (Hd : 1 <= Zpos (digits2_pos z) <= 53).
  { split; [lia|].
    destruct (Z.le_gt_cases (Zpos (digits2_pos z)) 53) as [H|H]; [exact H|].
    assert (2 ^ 53 <= 2 ^ (Zpos (digits2_pos z) - 1)) by (apply Z.pow_le_mono_r; lia).
    lia. }
  unfold fexp, emin, Binary64.prec, Binary64.emax.
  replace (Z.max (Zpos (digits2_pos z) + e - 53) (3 - 1024 - 53))
    with (e + Zpos (digits2_pos z) - 53) by lia.
  unfold shl_align.
  destruct (e + Zpos (digits2_pos z) - 53 - e) as [|k|k] eqn:Ek; try lia.
  - rewrite binary_round_aux_aligned by lia.
    exists z, e. split; [reflexivity|]. split; [lia|]. split; [lia|].
    replace (e - e) with 0 by lia. change (2 ^ 0) with 1. lia.
  - destruct (iter_xO_spec z k) as [I1 I2].
    rewrite binary_round_aux_aligned by lia.
    exists (Pos.iter xO z k), (e + Zpos (digits2_pos z) - 53).
    split; [reflexivity|]. split; [lia|]. split; [lia|].
    rewrite I1. f_equal. f_equal. lia.
Qed.

End Normalize.

Section Floors.

Local Open Scope Q_scope.

Lemma Qfloor_same (a b : Q) :
  (forall c : Z, inject_Z c <= a <-> inject_Z c <= b) ->
  Qfloor a = Qfloor b.
Proof.
  intros H. apply Z.le_antisymm.
  - rewrite <- (Qfloor_Z (Qfloor a)). apply Qfloor_resp_le.
    apply H. apply Qfloor_le.
  - rewrite <- (Qfloor_Z (Qfloor b)). apply Qfloor_resp_le.
    apply H. apply Qfloor_le.
Qed.

Lemma scaled_ge (a c k : Z) :
  (0 <= k)%Z ->
  inject_Z c <= inject_Z a * (2 # 1) ^ (- k) <-> (c * 2 ^ k <= a)%Z.
Proof.
  intros Hk.
  assert (HN : 0 < inject_Z (2 ^ k)).
  { change 0 with (inject_Z 0). rewrite <- Zlt_Qlt. apply Z.pow_pos_nonneg; lia. }
  rewrite Qpower_opp, <- pow2_inject by assumption.
  rewrite Zle_Qle, inject_Z_mult.
  rewrite <- (Qmult_le_r _ _ _ HN).
  assert (E : inject_Z a * / inject_Z (2 ^ k) * inject_Z (2 ^ k) == inject_Z a).
  { field. intros C. rewrite C in HN. discriminate. }
  now rewrite E.
Qed.

(** [Math.floor] of a positive normal number with a negative exponent. *)
Lemma Math_floor_normal (m : positive) (e : Z) :
  (e < 0)%Z ->
  Binary64.Math_floor (S754_finite false m e)
  = Binary64.of_Z (Qfloor (value_of m e)).
Proof.
  intros He. unfold Binary64.Math_floor, Binary64.round_to_integer.
  replace (0 <=? e)%Z with false by (symmetry; apply Z.leb_gt; lia).
  destruct (to_Q_finite m e) as [q [-> Eq]].
  unfold Binary64.of_Z. now rewrite Eq.
Qed.

(** The floor of the rounded quotient by 60 is the floor of the exact
    one. *)
Lemma floor_div_60 (mx : positive) (ex : Z) :
  Zpos (digits2_pos mx) = 53%Z -> (-1000 <= ex <= 0)%Z ->
  Binary64.Math_floor
    (Binary64.div (S754_finite false mx ex) (Binary64.of_Z 60))
  = Binary64.of_Z (Qfloor (value_of mx ex / 60)).
Proof.
  intros Hdx Hex.
  change (Binary64.of_Z 60) with (S754_finite false 8444249301319680 (-47)).
  destruct (div_60 mx ex Hdx ltac:(lia)) as [m' [t [Ht [-> [Hd' Herr]]]]].
  rewrite Math_floor_normal by (destruct Ht; lia).
  f_equal. apply Qfloor_same. intros c.
  assert (Hv : inject_Z c <= value_of mx ex / 60
               <-> (60 * c * 2 ^ (- ex) <= Zpos mx)%Z).
  { unfold value_of.
    rewrite <- (scaled_ge (Zpos mx) (60 * c) (- ex)) by lia.
    rewrite Z.opp_involutive, inject_Z_mult.
    change (inject_Z 60) with (60 # 1).
    set (A := inject_Z (Zpos mx) * (2 # 1) ^ ex). clearbody A.
    set (C := inject_Z c). clearbody C.
    unfold Qdiv. change (/ 60) with (1 # 60).
    split; intros H; lra. }
  assert (Hr : inject_Z c <= value_of m' (ex - t)
               <-> (c * 2 ^ (t - ex) <= Zpos m')%Z).
  { unfold value_of.
    replace (ex - t)%Z with (- (t - ex))%Z by lia.
    apply scaled_ge. destruct Ht; lia. }
  rewrite Hv, Hr.
  replace (t - ex)%Z with (- ex + t)%Z by lia.
  rewrite Z.pow_add_r by (destruct Ht; lia).
  assert (HE : (0 < 2 ^ (- ex))%Z) by (apply Z.pow_pos_nonneg; lia).
  set (E := (2 ^ (- ex))%Z) in *. clearbody E.
  set (W := (c * E)%Z).
  replace (60 * c * E)%Z with (60 * W)%Z by (unfold W; ring).
  replace (c * (E * 2 ^ t))%Z with (W * 2 ^ t)%Z by (unfold W; ring).
  clearbody W.
  destruct Ht as [-> | ->].
  - change (2 ^ 5)%Z with 32%Z in *. lia.
  - change (2 ^ 6)%Z with 64%Z in *. lia.
Qed.

(** The same for the quotient by 3600. *)
Lemma floor_div_3600 (mx : positive) (ex : Z) :
  Zpos (digits2_pos mx) = 53%Z -> (-1000 <= ex <= 0)%Z ->
  Binary64.Math_floor
    (Binary64.div (S754_finite false mx ex) (Binary64.of_Z 3600))
  = Binary64.of_Z (Qfloor (value_of mx ex / 3600)).
Proof.
  intros Hdx Hex.
  change (Binary64.of_Z 3600) with (S754_finite false 7916483719987200 (-41)).
  destruct (div_3600 mx ex Hdx Hex) as [m' [t [Ht [-> [Hd' Herr]]]]].
  rewrite Math_floor_normal by (destruct Ht; lia).
  f_equal. apply Qfloor_same. intros c.
  assert (Hv : inject_Z c <= value_of mx ex / 3600
               <-> (3600 * c * 2 ^ (- ex) <= Zpos mx)%Z).
  { unfold value_of.
    rewrite <- (scaled_ge (Zpos mx) (3600 * c) (- ex)) by lia.
    rewrite Z.opp_involutive, inject_Z_mult.
    change (inject_Z 3600) with (3600 # 1).
    set (A := inject_Z (Zpos mx) * (2 # 1) ^ ex). clearbody A.
    set (C := inject_Z c). clearbody C.
    unfold Qdiv. change (/ 3600) with (1 # 3600).
    split; intros H; lra. }
  assert (Hr : inject_Z c <= value_of m' (ex - t)
               <-> (c * 2 ^ (t - ex) <= Zpos m')%Z).
  { unfold value_of.
    replace (ex - t)%Z with (- (t - ex))%Z by lia.
    apply scaled_ge. destruct Ht; lia. }
  rewrite Hv, Hr.
  replace (t - ex)%Z with (- ex + t)%Z by lia.
  rewrite Z.pow_add_r by (destruct Ht; lia).
  assert (HE : (0 < 2 ^ (- ex))%Z) by (apply Z.pow_pos_nonneg; lia).
  set (E := (2 ^ (- ex))%Z) in *. clearbody E.
  set (W := (c * E)%Z).
  replace (3600 * c * E)%Z with (3600 * W)%Z by (unfold W; ring).
  replace (c * (E * 2 ^ t))%Z with (W * 2 ^ t)%Z by (unfold W; ring).
  clearbody W.
  destruct Ht as [-> | ->].
  - change (2 ^ 11)%Z with 2048%Z in *. lia.
  - change (2 ^ 12)%Z with 4096%Z in *. lia.
Qed.

End Floors.

Section Remainder.

Local Open Scope Q_scope.

Lemma Qfloor_unique (x : Q) (k : Z) :
  inject_Z k <= x -> x < inject_Z (k + 1) -> Qfloor x = k.
Proof.
  intros Hlo Hhi. apply Z.le_antisymm.
  - apply Z.lt_succ_r. rewrite Zlt_Qlt.
    apply Qle_lt_trans with x; [apply Qfloor_le | exact Hhi].
  - rewrite <- (Qfloor_Z k). now apply Qfloor_resp_le.
Qed.

Lemma Qfloor_div_Z (a b : Z) :
  (0 < b)%Z -> Qfloor (inject_Z a / inject_Z b) = (a / b)%Z.
Proof.
  intros Hb.
  assert (HB : 0 < inject_Z b).
  { change 0 with (inject_Z 0). now rewrite <- Zlt_Qlt. }
  apply Qfloor_unique.
  - apply Qle_shift_div_l; [exact HB|].
    rewrite <- inject_Z_mult, <- Zle_Qle.
    rewrite Z.mul_comm. apply Z.mul_div_le. exact Hb.
  - apply Qlt_shift_div_r; [exact HB|].
    rewrite <- inject_Z_mult, <- Zlt_Qlt.
    rewrite Z.mul_comm. replace (a / b + 1)%Z with (Z.succ (a / b)) by lia.
    apply Z.mul_succ_div_gt. exact Hb.
Qed.

Lemma scaled_value (a : Z) (k e : Z) :
  (0 <= k)%Z ->
  inject_Z (a * 2 ^ k) * (2 # 1) ^ e == inject_Z a * (2 # 1) ^ (k + e).
Proof.
  intros Hk. rewrite inject_Z_mult, pow2_inject, pow2_add by assumption. ring.
Qed.

(** [duration % 3600] for a duration from 1 up to 2^14: the remainder of
    the exact division, scaled by a power of two. *)
Lemma rem_3600 (mx : positive) (ex : Z) :
  Zpos (digits2_pos mx) = 53%Z -> (-52 <= ex <= -39)%Z ->
  exists r e,
    Binary64_rem (S754_finite false mx ex) (Binary64.of_Z 3600)
    = binary_normalize Binary64.prec Binary64.emax r e false
    /\ (0 <= r < 2 ^ 53)%Z /\ (-52 <= e <= -41)%Z
    /\ inject_Z r * (2 # 1) ^ e
       == value_of mx ex - 3600 * inject_Z (Qfloor (value_of mx ex / 3600)).
Proof.
  intros Hdx Hex.
  change (Binary64.of_Z 3600) with (S754_finite false 7916483719987200 (-41)).
  unfold Binary64_rem. cbv zeta.
  set (e := Z.min ex (-41)).
  set (A := (Zpos mx * 2 ^ (ex - e))%Z).
  set (B := (7916483719987200 * 2 ^ (-41 - e))%Z).
  assert (He : (-52 <= e <= -41)%Z) by (unfold e; lia).
  assert (HeA : (0 <= ex - e)%Z) by (unfold e; lia).
  assert (HeB : (0 <= -41 - e)%Z) by (unfold e; lia).
  assert (HB : (0 < B)%Z).
  { unfold B. apply Z.mul_pos_pos; [reflexivity | apply Z.pow_pos_nonneg; lia]. }
  pose proof (digits2_pos_bounds mx) as Bx. rewrite Hdx in Bx.
  change (2 ^ (53 - 1))%Z with 4503599627370496%Z in Bx.
  change (2 ^ 53)%Z with 9007199254740992%Z in *.
  exists (A mod B)%Z, e. split; [reflexivity|].
  pose proof (Z.mod_pos_bound A B HB) as Hmod.
  split; [|split; [exact He|]].
  - split; [lia|].
    destruct (Z.le_gt_cases ex (-41)) as [Hc|Hc].
    + assert (EA : A = Zpos mx).
      { unfold A. replace (ex - e)%Z with 0%Z by (unfold e; lia).
        change (2 ^ 0)%Z with 1%Z. lia. }
      assert (A mod B <= A)%Z by (apply Z.mod_le; lia).
      lia.
    + assert (EB : B = 7916483719987200%Z).
      { unfold B. replace (-41 - e)%Z with 0%Z by (unfold e; lia).
        reflexivity. }
      lia.
  - assert (VA : inject_Z A * (2 # 1) ^ e == value_of mx ex).
    { unfold A, value_of. rewrite scaled_value by assumption.
      now replace (ex - e + e)%Z with ex by lia. }
    assert (VB : inject_Z B * (2 # 1) ^ e == 3600).
    { unfold B. rewrite scaled_value by assumption.
      replace (-41 - e + e)%Z with (-41)%Z by lia. reflexivity. }
    assert (Hq : value_of mx ex / 3600 == inject_Z A / inject_Z B).
    { rewrite <- VA, <- VB.
      pose proof (pow2_pos e) as Pe.
      assert (NB : ~ inject_Z B == 0).
      { intros C. rewrite C in VB. discriminate. }
      field. split; [exact NB|]. intros C. rewrite C in Pe. discriminate. }
    rewrite (Qfloor_comp _ _ Hq), Qfloor_div_Z by assumption.
    rewrite Z.mod_eq by lia.
    unfold Z.sub. rewrite inject_Z_plus, inject_Z_opp, inject_Z_mult.
    rewrite <- VA, <- VB. ring.
Qed.

End Remainder.

Section DurationLabel.

Local Open Scope Q_scope.

Lemma hours_exact (mx : positive) (ex : Z) :
  Zpos (digits2_pos mx) = 53%Z -> (-52 <= ex <= -39)%Z ->
  Planner.hours_of (S754_finite false mx ex)
  = Binary64.of_Z (Qfloor (value_of mx ex / 3600)).
Proof.
  intros Hdx Hex. unfold Planner.hours_of. apply floor_div_3600; [exact Hdx | lia].
Qed.

Lemma minutes_exact (mx : positive) (ex : Z) :
  Zpos (digits2_pos mx) = 53%Z -> (-52 <= ex <= -39)%Z ->
  Planner.minutes_of (S754_finite false mx ex)
  = Binary64.of_Z
      (Qfloor ((value_of mx ex
                - 3600 * inject_Z (Qfloor (value_of mx ex / 3600))) / 60)).
Proof.
  intros Hdx Hex. unfold Planner.minutes_of.
  destruct (rem_3600 mx ex Hdx Hex) as [r [e [-> [Hr [He Hv]]]]].
  rewrite <- (Qfloor_comp _ _ (Qdiv_comp _ _ Hv 60 60 (Qeq_refl 60))).
  destruct r as [|rp|rp]; [| |lia].
  - reflexivity.
  - destruct (normalize_exact rp e) as [m2 [e2 [-> [Hd2 [He2 Hm2]]]]]; [lia | lia |].
    pose proof (digits2_pos_bounds rp) as [Blo Bhi].
    assert (Hdr : (1 <= Zpos (digits2_pos rp) <= 53)%Z).
    { split; [lia|].
      destruct (Z.le_gt_cases (Zpos (digits2_pos rp)) 53) as [H|H]; [exact H|].
      assert (2 ^ 53 <= 2 ^ (Zpos (digits2_pos rp) - 1))%Z
        by (apply Z.pow_le_mono_r; lia).
      lia. }
    rewrite floor_div_60 by (assumption || lia).
    f_equal. apply Qfloor_comp. apply Qdiv_comp; [|reflexivity].
    unfold value_of. rewrite Hm2, scaled_value by lia.
    now replace (e - e2 + e2)%Z with e by lia.
Qed.

Lemma gt_zero_of_Z (h : Z) :
  (0 <= h < 2 ^ 53)%Z ->
  Binary64_gt (Binary64.of_Z h) Binary64.zero = (0 <? h)%Z.
Proof.
  intros Hh. destruct h as [|p|p]; [reflexivity | | lia].
  destruct (of_Z_value p) as [m [e [-> _]]]; [lia|]. reflexivity.
Qed.

Lemma is_number_normal (mx : positive) (ex : Z) :
  Zpos (digits2_pos mx) = 53%Z -> (-1074 <= ex <= 971)%Z ->
  is_number (S754_finite false mx ex) = true.
Proof.
  intros Hdx Hex.
  unfold is_number, valid_binary, bounded, canonical_mantissa, fexp, emin,
    Binary64.prec, Binary64.emax.
  rewrite Hdx. apply andb_true_iff. split.
  - apply Z.eqb_eq. lia.
  - apply Z.leb_le. lia.
Qed.

(** X18.  The duration label is right for every admissible duration.  For a
    duration D that is a number from one second up to the cap, fractions
    of a second included, the two floors the handler computes in binary64
    are the whole hours of D and the whole minutes of what is left: h is
    at most 4, m at most 59, and D lies in the minute that starts at
    3600 h + 60 m seconds.  The label shows the hours only when there is
    at least one. *)
Theorem durationText_exact (w : Planner.World) (mx : positive) (ex : Z) :
  Zpos (digits2_pos mx) = 53%Z -> (-52 <= ex <= -39)%Z ->
  Binary64_gt (S754_finite false mx ex) (Binary64.of_Z 14400) = false ->
  let D := value_of mx ex in
  let h := Qfloor (D / 3600) in
  let m := Qfloor ((D - 3600 * inject_Z h) / 60) in
  Planner.hours_of (S754_finite false mx ex) = Binary64.of_Z h
  /\ Planner.minutes_of (S754_finite false mx ex) = Binary64.of_Z m
  /\ (0 <= h <= 4)%Z /\ (0 <= m <= 59)%Z
  /\ 3600 * inject_Z h + 60 * inject_Z m <= D
  /\ D < 3600 * inject_Z h + 60 * inject_Z m + 60
  /\ Planner.durationText w (S754_finite false mx ex)
     = if (0 <? h)%Z
       then Planner.Number_toString w (Binary64.of_Z h) ++ lit "h "
            ++ Planner.Number_toString w (Binary64.of_Z m) ++ lit "min"
       else Planner.Number_toString w (Binary64.of_Z m) ++ lit "min".
Proof.
  intros Hdx Hex Hgt. cbv zeta.
  pose proof (hours_exact mx ex Hdx Hex) as Hh.
  pose proof (minutes_exact mx ex Hdx Hex) as Hm.
  pose proof (value_of_pos mx ex) as Hpos.
  assert (Hcap : value_of mx ex <= 14400).
  { destruct (to_Q_finite mx ex) as [q [Hq Eq]]. rewrite <- Eq.
    apply (not_gt_cap (S754_finite false mx ex) q);
      [apply is_number_normal; [exact Hdx | lia] | exact Hgt | exact Hq]. }
  set (D := value_of mx ex) in *. clearbody D.
  pose proof (Qfloor_le (D / 3600)) as H1.
  pose proof (Qlt_floor (D / 3600)) as H2.
  set (h := Qfloor (D / 3600)) in *. clearbody h.
  pose proof (Qfloor_le ((D - 3600 * inject_Z h) / 60)) as M1.
  pose proof (Qlt_floor ((D - 3600 * inject_Z h) / 60)) as M2.
  set (m := Qfloor ((D - 3600 * inject_Z h) / 60)) in *. clearbody m.
  rewrite inject_Z_plus in H2, M2.
  change (inject_Z 1) with 1 in H2, M2.
  unfold Qdiv in H1, H2, M1, M2.
  change (/ 3600) with (1 # 3600) in H1, H2.
  change (/ 60) with (1 # 60) in M1, M2.
  assert (Bh : (0 <= h <= 4)%Z).
  { split.
    - apply Z.lt_succ_r. unfold Z.succ. rewrite Zlt_Qlt, inject_Z_plus.
      change (inject_Z 0) with 0. change (inject_Z 1) with 1. lra.
    - apply Z.lt_succ_r. rewrite Zlt_Qlt.
      change (inject_Z (Z.succ 4)) with 5. lra. }
  assert (Bm : (0 <= m <= 59)%Z).
  { split.
    - apply Z.lt_succ_r. unfold Z.succ. rewrite Zlt_Qlt, inject_Z_plus.
      change (inject_Z 0) with 0. change (inject_Z 1) with 1. lra.
    - apply Z.lt_succ_r. rewrite Zlt_Qlt.
      change (inject_Z (Z.succ 59)) with 60. lra. }
  split; [exact Hh|]. split; [exact Hm|]. split; [exact Bh|]. split; [exact Bm|].
  split; [lra|]. split; [lra|].
  unfold Planner.durationText. cbv zeta. rewrite Hh, Hm.
  rewrite gt_zero_of_Z; [reflexivity|].
  assert (P : (2 ^ 53 = 9007199254740992)%Z) by reflexivity. lia.
Qed.

Lemma durationText_exact_witness :
  let w := Planner.mkWorld (fun _ => None) (fun _ _ _ => None) (fun _ => None)
             (fun x => toString_nat (Z.to_nat (Binary64.to_integer x)))
             (fun _ => []) in
  (* 5025.5 seconds *)
  Planner.durationText w (S754_finite false 5525595685388288 (-40))
  = lit "1h 23min".
Proof.
  cbv zeta.
  destruct (durationText_exact
              (Planner.mkWorld (fun _ => None) (fun _ _ _ => None) (fun _ => None)
                 (fun x => toString_nat (Z.to_nat (Binary64.to_integer x)))
                 (fun _ => []))
              5525595685388288 (-40) eq_refl ltac:(lia) eq_refl)
    as [_ [_ [_ [_ [_ [_ ->]]]]]].
  reflexivity.
Defined.

End DurationLabel.
